(** * Reference oracles of neon's convolution and pooling backend tests

    Shallow embedding of the numpy reference computations in
    [neon/backends/tests/test_backend_conv_layer.py] and
    [neon/backends/tests/test_backend_pool_layer.py]: the window index
    generators [pixel_indices], the brute-force gather/scatter loops of
    [test_conv_layer] and [run_numpy_pool], and the numpy primitives they
    call.  Python integers are [Z]; a 2-D array is a list of rows; a 5-D
    array of shape (K,M,P,Q,N) is kept as its row-major view with
    K*M*P*Q rows of N elements.  Array elements are kept abstract (class
    [Numeric]); every law of arithmetic a proof needs is an explicit
    hypothesis of the statement that needs it.

    Module [Text] embeds the text dataset of [neon/data/text.py]:
    [create_valid_file], [get_tokens], [get_vocab] and [__init__], with a
    Python 2 [str] as a list of bytes, the files as a map from paths to
    contents, sets as [gset] and dictionaries as [gmap]. *)

From Stdlib Require Import ZArith Lia Bool.
From Stdlib Require Import Ascii String.
From stdpp Require Import base option list list_numbers gmap sorting strings.

Local Open Scope Z_scope.

(** ** Element type of the arrays (dtype) *)

Class Numeric (A : Type) := {
  zero : A;                 (* 0.0 *)
  one : A;                  (* 1.0 *)
  fmin : A;                 (* np.finfo(dtype).min *)
  add : A -> A -> A;
  mul : A -> A -> A;
  div : A -> A -> A;
  sqrt : A -> A;
  of_int : Z -> A;          (* int -> float conversion *)
  ltb : A -> A -> bool      (* x < y *)
}.

#[export] Instance Numeric_inhabited {A : Type} {NA : Numeric A} : Inhabited A :=
  populate zero.

(** Exact integer arithmetic as an instance, used to run the model. *)
#[export] Instance Numeric_Z : Numeric Z := {|
  zero := 0; one := 1; fmin := -1000000;
  add := Z.add; mul := Z.mul; div := Z.div; sqrt := Z.sqrt;
  of_int := fun z => z; ltb := Z.ltb
|}.

(** ** Python and numpy primitives *)

Module Py.

(** [range(n)] *)
Definition range (n : Z) : list Z := seqZ 0 n.

(** [for x in l: s = body(x, s)], where the body cannot raise. *)
Definition for_ {X S : Type} (l : list X) (body : X -> S -> S) (s : S) : S :=
  fold_left (fun s x => body x s) l s.

(** [for x in l: s = body(x, s)], where the body may raise ([None]). *)
Fixpoint for_each {X S : Type} (l : list X) (body : X -> S -> option S)
    (s : S) : option S :=
  match l with
  | [] => Some s
  | x :: l' =>
      match body x s with
      | Some s' => for_each l' body s'
      | None => None
      end
  end.

(** Index normalisation of a sequence of length [len]: [i] counts from the
    end when negative, and is an [IndexError] ([None]) outside
    [-len, len). *)
Definition norm_index (len : nat) (i : Z) : option nat :=
  if (0 <=? i) && (i <? Z.of_nat len) then Some (Z.to_nat i)
  else if (- Z.of_nat len <=? i) && (i <? 0) then Some (Z.to_nat (Z.of_nat len + i))
  else None.

(** [l[i]] *)
Definition item {X : Type} (l : list X) (i : Z) : option X :=
  n ← norm_index (length l) i; l !! n.

(** [l[i] = x] *)
Definition setitem {X : Type} (l : list X) (i : Z) (x : X) : option (list X) :=
  n ← norm_index (length l) i; Some (<[n := x]> l).

(** [l[:-1]] *)
Definition but_last {X : Type} (l : list X) : list X := take (length l - 1) l.

(** [reduce(mul, dim[:-1], 1) + pad, dim[-1]] *)
Definition sliceable (dim : list Z) (pad : Z) : Z * Z :=
  (fold_left Z.mul (but_last dim) 1 + pad, List.last dim 0).

(** Row of [a[k, m, p, q, :]] in the row-major view of a 5-D array whose
    three middle extents are [mpq]. *)
Definition row5 (mpq : Z * Z * Z) (k m p q : Z) : Z :=
  let '(M, P, Q) := mpq in ((k * M + m) * P + p) * Q + q.

Section Arrays.
Context {A : Type} {NA : Numeric A}.

(** [np.zeros((r, c))] *)
Definition zeros (rc : Z * Z) : list (list A) :=
  replicate (Z.to_nat (fst rc)) (replicate (Z.to_nat (snd rc)) zero).

(** [a.fill(x)] *)
Definition fill (a : list (list A)) (x : A) : list (list A) :=
  map (map (fun _ => x)) a.

(** [a[i, :] = x] for a scalar [x] *)
Definition fill_row (a : list (list A)) (i : Z) (x : A) : option (list (list A)) :=
  r ← item a i; setitem a i (map (fun _ => x) r).

(** [a[idx, :]] for a list of row indices *)
Definition take_rows (a : list (list A)) (idx : list Z) : option (list (list A)) :=
  mapM (item a) idx.

(** [a[idx, :] = v]: the rows are stored one after the other, so the last
    one stored stays where an index repeats. *)
Definition put_rows (a : list (list A)) (idx : list Z) (v : list (list A)) :
    option (list (list A)) :=
  for_each (zip idx v) (fun iv a => setitem a (fst iv) (snd iv)) a.

Definition vadd (u v : list A) : list A := zip_with add u v.

(** [a[idx, :] += x], x of shape (len(idx), n): gather, add, store. *)
Definition iadd_rows (a : list (list A)) (idx : list Z) (x : list (list A)) :
    option (list (list A)) :=
  g ← take_rows a idx; put_rows a idx (zip_with vadd g x).

(** [a[idx, :] += v], v a single row broadcast over the gathered rows. *)
Definition iadd_rows_bcast (a : list (list A)) (idx : list Z) (v : list A) :
    option (list (list A)) :=
  g ← take_rows a idx; put_rows a idx (map (fun r => vadd r v) g).

(** [a[:, m, p, q, :]] of a 5-D array with first extent [K] *)
Definition get_slice (K : Z) (mpq : Z * Z * Z) (a : list (list A)) (m p q : Z) :
    option (list (list A)) :=
  take_rows a (map (fun k => row5 mpq k m p q) (range K)).

(** [a[:, m, p, q, :] = x] *)
Definition set_slice (K : Z) (mpq : Z * Z * Z) (a : list (list A)) (m p q : Z)
    (x : list (list A)) : option (list (list A)) :=
  put_rows a (map (fun k => row5 mpq k m p q) (range K)) x.

(** [a[i, n] += e] *)
Definition iadd_at (a : list (list A)) (i n : Z) (e : A) : option (list (list A)) :=
  r ← item a i; x ← item r n; r' ← setitem r n (add x e); setitem a i r'.

(** [a += x] for arrays of the same shape *)
Definition iadd (a x : list (list A)) : list (list A) := zip_with vadd a x.

Definition sumA (l : list A) : A := fold_right add zero l.

(** Column [n] of an array given by its rows (an element missing from a
    row that is too short reads as 0; the arrays here are rectangular). *)
Definition col (n : Z) (a : list (list A)) : list A :=
  map (fun r => default zero (item r n)) a.

Definition vdot (u v : list A) : A := sumA (zip_with mul u v).

(** [np.dot(f.T, g)] for f of shape (L, k) and g of shape (L, n). *)
Definition dot_tn (k n : Z) (f g : list (list A)) : list (list A) :=
  map (fun kk => map (fun nn => vdot (col kk f) (col nn g)) (range n)) (range k).

(** [np.dot(f, e)] for f of shape (L, k) and e of shape (k, n). *)
Definition dot_nn (n : Z) (f e : list (list A)) : list (list A) :=
  map (fun fr => map (fun nn => vdot fr (col nn e)) (range n)) f.

(** [np.dot(g, e.T)] for g of shape (L, n) and e of shape (k, n). *)
Definition dot_nt (g e : list (list A)) : list (list A) :=
  map (fun gr => map (fun er => vdot gr er) e) g.

(** [max] of a non-empty sequence; a [ValueError] on an empty one. *)
Definition vmax (l : list A) : option A :=
  match l with
  | [] => None
  | x :: l' => Some (fold_left (fun m y => if ltb m y then y else m) l' x)
  end.

(** Scan for the position of the first occurrence of the maximum: [b] and
    [m] are the best position and value so far, [i] the next position. *)
Fixpoint argmax_from (l : list A) (b : Z) (m : A) (i : Z) : Z :=
  match l with
  | [] => b
  | y :: l' => if ltb m y then argmax_from l' i y (i + 1) else argmax_from l' b m (i + 1)
  end.

(** Position of the first occurrence of the maximum. *)
Definition vargmax (l : list A) : option Z :=
  match l with
  | [] => None
  | x :: l' => Some (argmax_from l' 0 x 1)
  end.

(** [np.max(g, axis=0)] for g with n columns *)
Definition max_axis0 (n : Z) (g : list (list A)) : option (list A) :=
  mapM (fun nn => vmax (col nn g)) (range n).

(** [np.argmax(g, axis=0)] *)
Definition argmax_axis0 (n : Z) (g : list (list A)) : option (list Z) :=
  mapM (fun nn => vargmax (col nn g)) (range n).

(** [np.mean(g, axis=0)]: column sums divided by the number of rows. *)
Definition mean_axis0 (n : Z) (g : list (list A)) : list A :=
  map (fun nn => div (sumA (col nn g)) (of_int (Z.of_nat (length g)))) (range n).

(** [np.sqrt(np.sum(g ** 2, axis=0))] *)
Definition l2_axis0 (n : Z) (g : list (list A)) : list A :=
  map (fun nn => sqrt (sumA (map (fun x => mul x x) (col nn g)))) (range n).

(** [a[i, n]], reading 0 where the array has no such element. *)
Definition at2 (a : list (list A)) (i n : Z) : A :=
  default zero (r ← item a i; item r n).

(** [a.shape == rc] *)
Definition has_shape (a : list (list A)) (rc : Z * Z) : Prop :=
  Z.of_nat (length a) = fst rc /\ Forall (fun r => Z.of_nat (length r) = snd rc) a.

End Arrays.

End Py.

(** ** Convolution: descriptor, window indices and the numpy reference *)

Module Conv.
Import Py.

Inductive dtype := float16 | float32.

(** The attributes of a convolution layer that the test reads. *)
Record ConvLayer := {
  conv_N : Z; conv_C : Z; conv_K : Z;
  DHW : Z * Z * Z;
  TRS : Z * Z * Z;
  MPQ : Z * Z * Z;
  padding : Z * Z * Z;
  strides : Z * Z * Z;
  dimI : list Z;
  dimF : list Z;
  dimO : list Z
}.

Definition conv_M (conv : ConvLayer) : Z := fst (fst (MPQ conv)).

(** Modelled from the spec: the layer class behind [conv_layer] of the two
    backends (neon.backends.nervanacpu, neon.backends.nervanagpu) is not
    among the sources; the spec gives one descriptor, shared by both
    backends, with M = floor((D + 2*pad_d - T)/str_d) + 1 (analogously P
    and Q), dimI = (C,D,H,W,N), dimF = (C,T,R,S,K), dimO = (K,M,P,Q,N). *)
Definition conv_layer (dt : dtype) (N C K D H W T R S_
    pad_d pad_h pad_w str_d str_h str_w : Z) : ConvLayer :=
  let M := (D + 2 * pad_d - T) / str_d + 1 in
  let P := (H + 2 * pad_h - R) / str_h + 1 in
  let Q := (W + 2 * pad_w - S_) / str_w + 1 in
  {| conv_N := N; conv_C := C; conv_K := K;
     DHW := (D, H, W);
     TRS := (T, R, S_);
     MPQ := (M, P, Q);
     padding := (pad_d, pad_h, pad_w);
     strides := (str_d, str_h, str_w);
     dimI := [C; D; H; W; N];
     dimF := [C; T; R; S_; K];
     dimO := [K; M; P; Q; N] |}.

(** Modelled from the spec: [nc.conv_layer] and [ng.conv_layer], the
    factory methods of the host and of the accelerator backend, both build
    the shared descriptor. *)
Definition nc_conv_layer := conv_layer.
Definition ng_conv_layer := conv_layer.

(** Modelled from the spec: a valid parameter tuple has positive sizes and
    strides, non-negative paddings and positive derived output sizes. *)
Definition valid_conv (conv : ConvLayer) : Prop :=
  let '(D, H, W) := DHW conv in
  let '(T, R, S_) := TRS conv in
  let '(M, P, Q) := MPQ conv in
  let '(pad_d, pad_h, pad_w) := padding conv in
  let '(str_d, str_h, str_w) := strides conv in
  0 < conv_N conv /\ 0 < conv_C conv /\ 0 < conv_K conv /\
  0 < D /\ 0 < H /\ 0 < W /\ 0 < T /\ 0 < R /\ 0 < S_ /\
  0 <= pad_d /\ 0 <= pad_h /\ 0 <= pad_w /\
  0 < str_d /\ 0 < str_h /\ 0 < str_w /\
  0 < M /\ 0 < P /\ 0 < Q.

(** The shape tuples of the descriptor agree with its sizes, and no size is
    negative. *)
Definition conv_shapes (conv : ConvLayer) : Prop :=
  let '(D, H, W) := DHW conv in
  let '(T, R, S_) := TRS conv in
  let '(M, P, Q) := MPQ conv in
  dimI conv = [conv_C conv; D; H; W; conv_N conv] /\
  dimF conv = [conv_C conv; T; R; S_; conv_K conv] /\
  dimO conv = [conv_K conv; M; P; Q; conv_N conv] /\
  0 <= conv_N conv /\ 0 <= conv_C conv /\ 0 <= conv_K conv /\
  0 <= D /\ 0 <= H /\ 0 <= W /\ 0 <= T /\ 0 <= R /\ 0 <= S_ /\
  0 <= M /\ 0 <= P /\ 0 <= Q.

(** [pixel_indices(conv, mt, pr, qs)] *)
Definition pixel_indices (conv : ConvLayer) (mt pr qs : Z) : list Z :=
  let '(T, R, S_) := TRS conv in
  let '(D, H, W) := DHW conv in
  let C := conv_C conv in
  let HW := H * W in
  let DHW := D * H * W in
  let imax := C * DHW in
  for_ (range C) (fun c idx =>
    let ci := c * DHW in
    for_ (range T) (fun t idx =>
      let z := mt + t in
      let zi := ci + z * HW in
      let zb := (z >=? 0) && (z <? D) in
      for_ (range R) (fun r idx =>
        let y := pr + r in
        let yi := zi + y * W in
        let yb := zb && (y >=? 0) && (y <? H) in
        for_ (range S_) (fun s idx =>
          let x := qs + s in
          let xi := if yb && (x >=? 0) && (x <? W) then yi + x
                    else imax (* out of bounds *) in
          idx ++ [xi]) idx) idx) idx) [].

Section Reference.
Context {A : Type} {NA : Numeric A}.

(** One pass of the body of the three window loops of [test_conv_layer]
    (lines 180-186), on the state (cpuO, cpuB, cpuU). *)
Definition conv_window (conv : ConvLayer) (cpuI cpuF cpuE : list (list A))
    (m p q : Z) (st : list (list A) * list (list A) * list (list A)) :
    option (list (list A) * list (list A) * list (list A)) :=
  let '(cpuO, cpuB, cpuU) := st in
  let '(pad_d, pad_h, pad_w) := padding conv in
  let '(str_d, str_h, str_w) := strides conv in
  let mt := m * str_d - pad_d in
  let pr := p * str_h - pad_h in
  let qs := q * str_w - pad_w in
  let idx := pixel_indices conv mt pr qs in
  g ← take_rows cpuI idx;
  cpuO ← set_slice (conv_K conv) (MPQ conv) cpuO m p q
           (dot_tn (conv_K conv) (conv_N conv) cpuF g);
  e ← get_slice (conv_K conv) (MPQ conv) cpuE m p q;
  cpuB ← iadd_rows cpuB idx (dot_nn (conv_N conv) cpuF e);
  Some (cpuO, cpuB, iadd cpuU (dot_nt g e)).

(** The numpy part of [test_conv_layer]: [cpuI0], [cpuF] and [cpuE] are the
    random arrays of shapes slicable(dimI, 1), slicable(dimF) and dimO; the
    result is (cpuO, cpuB, cpuU) after the window loops. *)
Definition conv_numpy (conv : ConvLayer) (cpuI0 cpuF cpuE : list (list A)) :
    option (list (list A) * list (list A) * list (list A)) :=
  (* zero pad the last row of cpu input for the sake of numpy *)
  cpuI ← fill_row cpuI0 (-1) zero;
  let cpuO := zeros (sliceable (dimO conv) 0) in
  let cpuB := zeros (sliceable (dimI conv) 1) in
  let cpuU := zeros (sliceable (dimF conv) 0) in
  let '(M, P, Q) := MPQ conv in
  for_each (range M) (fun m st =>
    for_each (range P) (fun p st =>
      for_each (range Q) (fun q st =>
        conv_window conv cpuI cpuF cpuE m p q st) st) st)
    (cpuO, cpuB, cpuU).

(** The arrays compared with the backends: cpuO, cpuB[:-1, :] and cpuU. *)
Definition conv_reference (conv : ConvLayer) (cpuI0 cpuF cpuE : list (list A)) :
    option (list (list A) * list (list A) * list (list A)) :=
  st ← conv_numpy conv cpuI0 cpuF cpuE;
  let '(cpuO, cpuB, cpuU) := st in
  Some (cpuO, but_last cpuB, cpuU).

End Reference.

End Conv.

(** ** Pooling: descriptor, window indices and the numpy reference *)

Module Pool.
Import Py.

Inductive pool_op := op_max | op_avg | op_l2.

(** The attributes of a pooling layer that the test reads. *)
Record PoolLayer := {
  op : pool_op;
  pool_N : Z; pool_C : Z; pool_K : Z;
  DHW : Z * Z * Z;
  JTRS : Z * Z * Z * Z;
  MPQ : Z * Z * Z;
  padding : Z * Z * Z * Z;
  strides : Z * Z * Z * Z;
  dimI : list Z;
  dimO : list Z
}.

(** Modelled from the spec: the layer class behind [pool_layer] is not among
    the sources; the spec derives (K,M,P,Q) by the formula of the
    convolution descriptor, K counting the channel-window positions, with
    dimI = (C,D,H,W,N) and dimO = (K,M,P,Q,N). *)
Definition pool_layer (o : pool_op) (N C D H W J T R S_
    pad_j pad_d pad_h pad_w str_j str_d str_h str_w : Z) : PoolLayer :=
  let K := (C + 2 * pad_j - J) / str_j + 1 in
  let M := (D + 2 * pad_d - T) / str_d + 1 in
  let P := (H + 2 * pad_h - R) / str_h + 1 in
  let Q := (W + 2 * pad_w - S_) / str_w + 1 in
  {| op := o; pool_N := N; pool_C := C; pool_K := K;
     DHW := (D, H, W);
     JTRS := (J, T, R, S_);
     MPQ := (M, P, Q);
     padding := (pad_j, pad_d, pad_h, pad_w);
     strides := (str_j, str_d, str_h, str_w);
     dimI := [C; D; H; W; N];
     dimO := [K; M; P; Q; N] |}.

(** how many times to repeat the fprop and bprop *)
Definition repeat : Z := 5.

(** The shape tuples of the descriptor agree with its sizes, and no size is
    negative. *)
Definition pool_shapes (pool : PoolLayer) : Prop :=
  let '(D, H, W) := DHW pool in
  let '(J, T, R, S_) := JTRS pool in
  let '(M, P, Q) := MPQ pool in
  dimI pool = [pool_C pool; D; H; W; pool_N pool] /\
  dimO pool = [pool_K pool; M; P; Q; pool_N pool] /\
  0 <= pool_N pool /\ 0 <= pool_C pool /\ 0 <= pool_K pool /\
  0 <= D /\ 0 <= H /\ 0 <= W /\ 0 <= J /\ 0 <= T /\ 0 <= R /\ 0 <= S_ /\
  0 <= M /\ 0 <= P /\ 0 <= Q.

(** The window has at least one tap. *)
Definition pool_window_positive (pool : PoolLayer) : Prop :=
  let '(J, T, R, S_) := JTRS pool in 0 < J /\ 0 < T /\ 0 < R /\ 0 < S_.

(** [pixel_indices(pool, kj, mt, pr, qs)] *)
Definition pixel_indices (pool : PoolLayer) (kj mt pr qs : Z) : list Z :=
  let C := pool_C pool in
  let '(J, T, R, S_) := JTRS pool in
  let '(D, H, W) := DHW pool in
  let HW := H * W in
  let DHW := D * H * W in
  let imax := C * D * H * W in
  for_ (range J) (fun j idx =>
    let c := kj + j in
    let ci := c * DHW in
    let cb := (c >=? 0) && (c <? C) in
    for_ (range T) (fun t idx =>
      let z := mt + t in
      let zi := ci + z * HW in
      let zb := cb && (z >=? 0) && (z <? D) in
      for_ (range R) (fun r idx =>
        let y := pr + r in
        let yi := zi + y * W in
        let yb := zb && (y >=? 0) && (y <? H) in
        for_ (range S_) (fun s idx =>
          let x := qs + s in
          let xi := if yb && (x >=? 0) && (x <? W) then yi + x
                    else imax (* out of bounds *) in
          idx ++ [xi]) idx) idx) idx) [].

Section Reference.
Context {A : Type} {NA : Numeric A}.

(** The body of the loop over the batch in the max branch (line 125):
    [cpuB[idx[b_idx[n]], n] += cpuE[k, m, p, q, n]]. *)
Definition max_scatter (idx b_idx : list Z) (e : list A) (n : Z)
    (cpuB : list (list A)) : option (list (list A)) :=
  b ← item b_idx n;
  i ← item idx b;
  en ← item e n;
  iadd_at cpuB i n en.

(** One pass of the body of the four window loops of [run_numpy_pool]
    (lines 119-131), on the state (cpuO, cpuB). *)
Definition pool_window (be_layer : PoolLayer) (cpuI cpuE : list (list A))
    (k m p q : Z) (st : list (list A) * list (list A)) :
    option (list (list A) * list (list A)) :=
  let '(cpuO, cpuB) := st in
  let N := pool_N be_layer in
  let '(pad_j, pad_d, pad_h, pad_w) := padding be_layer in
  let '(str_j, str_d, str_h, str_w) := strides be_layer in
  let kj := k * str_j - pad_j in
  let mt := m * str_d - pad_d in
  let pr := p * str_h - pad_h in
  let qs := q * str_w - pad_w in
  let idx := pixel_indices be_layer kj mt pr qs in
  let kmpq := row5 (MPQ be_layer) k m p q in
  match op be_layer with
  | op_max =>
      g ← take_rows cpuI idx;
      v ← max_axis0 N g;
      cpuO ← setitem cpuO kmpq v;
      b_idx ← argmax_axis0 N g;
      e ← item cpuE kmpq;
      cpuB ← for_each (range N) (max_scatter idx b_idx e) cpuB;
      Some (cpuO, cpuB)
  | op_avg =>
      g ← take_rows cpuI idx;
      cpuO ← setitem cpuO kmpq (mean_axis0 N g);
      e ← item cpuE kmpq;
      (* 1.0/len(idx) raises ZeroDivisionError for an empty idx *)
      w ← (if Z.of_nat (length idx) =? 0 then None
           else Some (div one (of_int (Z.of_nat (length idx)))));
      cpuB ← iadd_rows_bcast cpuB idx (map (fun x => mul x w) e);
      Some (cpuO, cpuB)
  | op_l2 =>
      g ← take_rows cpuI idx;
      cpuO ← setitem cpuO kmpq (l2_axis0 N g);
      Some (cpuO, cpuB)
  end.

(** One iteration of the repeat loop (lines 106-131). *)
Definition pool_pass (be_layer : PoolLayer) (cpuI cpuE : list (list A))
    (st : list (list A) * list (list A)) : option (list (list A) * list (list A)) :=
  let '(cpuO, cpuB) := st in
  let cpuB := fill cpuB zero in
  let '(M, P, Q) := MPQ be_layer in
  for_each (range (pool_K be_layer)) (fun k st =>
    for_each (range M) (fun m st =>
      for_each (range P) (fun p st =>
        for_each (range Q) (fun q st =>
          pool_window be_layer cpuI cpuE k m p q st) st) st) st)
    (cpuO, cpuB).

(** [run_numpy_pool] with the number of repetitions as a parameter;
    [empty] is the uninitialised content of [np.empty(dimO)], and the
    argument [op_arg] is overwritten by the layer's own [op]. *)
Definition run_numpy_pool_n (rep : Z) (op_arg : pool_op) (cpuI cpuE : list (list A))
    (be_layer : PoolLayer) (empty : list (list A)) :
    option (list (list A) * list (list A)) :=
  let cpuO := empty in
  let cpuB := zeros (sliceable (dimI be_layer) 1) in
  for_each (range rep) (fun i st => pool_pass be_layer cpuI cpuE st) (cpuO, cpuB).

Definition run_numpy_pool := run_numpy_pool_n repeat.

(** The numpy part of [test_pool_layer]: the last row of the input is set
    to the smallest float for max and to 0 otherwise, and the arrays compared
    with the backends are cpuO and cpuB[:-1, :]. *)
Definition pool_reference_n (rep : Z) (pool : PoolLayer) (cpuI0 cpuE empty : list (list A)) :
    option (list (list A) * list (list A)) :=
  cpuI ← fill_row cpuI0 (-1) (match op pool with op_max => fmin | _ => zero end);
  st ← run_numpy_pool_n rep (op pool) cpuI cpuE pool empty;
  Some (fst st, but_last (snd st)).

Definition pool_reference := pool_reference_n repeat.

End Reference.

End Pool.

(** ** Windows: taps, bounds and the rows they read *)

Module Window.
Import Py.

(** The taps (c,t,r,s) of a window of extents a, b, c, d, in the order the
    four nested loops of [pixel_indices] visit them. *)
Definition taps4 (a b c d : Z) : list (Z * Z * Z * Z) :=
  i ← range a; j ← range b; k ← range c; l ← range d; [(i, j, k, l)].

(** Position of the tap (i,j,k,l) in that order. *)
Definition tap_pos (b c d : Z) (tap : Z * Z * Z * Z) : Z :=
  let '(i, j, k, l) := tap in ((i * b + j) * c + k) * d + l.

(** The input position (c,z,y,x) lies in [0,C)x[0,D)x[0,H)x[0,W). *)
Definition in_bounds (C D H W : Z) (c z y x : Z) : bool :=
  (0 <=? c) && (c <? C) && (0 <=? z) && (z <? D) &&
  (0 <=? y) && (y <? H) && (0 <=? x) && (x <? W).

(** Row of the input position (c,z,y,x) in the row-major view of an array
    of shape (C,D,H,W,N). *)
Definition flat_index (D H W : Z) (c z y x : Z) : Z :=
  ((c * D + z) * H + y) * W + x.

(** The sentinel row, one past the last input row. *)
Definition sentinel (C D H W : Z) : Z := C * D * H * W.

(** The row a tap reads: its input position when that is in bounds, the
    sentinel otherwise. *)
Definition window_index (C D H W : Z) (c z y x : Z) : Z :=
  if in_bounds C D H W c z y x then flat_index D H W c z y x
  else sentinel C D H W.

(** The rows read by the window with J*T*R*S taps that starts at
    (kj, mt, pr, qs), tap by tap. *)
Definition window_indices (C D H W J T R S_ kj mt pr qs : Z) : list Z :=
  (fun '(j, t, r, s) => window_index C D H W (kj + j) (mt + t) (pr + r) (qs + s))
    <$> taps4 J T R S_.

(** Position of the tap of that window that reads the input position
    (c,z,y,x), if there is one. *)
Definition tap_at (J T R S_ kj mt pr qs : Z) (c z y x : Z) : option Z :=
  let j := c - kj in
  let t := z - mt in
  let r := y - pr in
  let s := x - qs in
  if (0 <=? j) && (j <? J) && (0 <=? t) && (t <? T) &&
     (0 <=? r) && (r <? R) && (0 <=? s) && (s <? S_)
  then Some (tap_pos T R S_ (j, t, r, s)) else None.

(** The window positions (m,p,q) in the order of three nested loops. *)
Definition windows3 (M P Q : Z) : list (Z * Z * Z) :=
  m ← range M; p ← range P; q ← range Q; [(m, p, q)].

Section Safe.
Context {A : Type} {NA : Numeric A}.

(** What it means for [idx] to be a safe index list of the window with
    J*T*R*S taps that starts at (kj, mt, pr, qs) on an input of extents
    (C, D, H, W): one index per tap, each in the closed range up to the
    sentinel, the sentinel exactly for the taps out of bounds, and a gather
    from an array with one row more than the input never fails. *)
Definition indices_safe (C D H W J T R S_ kj mt pr qs : Z) (idx : list Z) : Prop :=
  Z.of_nat (length idx) = J * T * R * S_ /\
  Forall (fun i => 0 <= i <= C * D * H * W) idx /\
  (forall j t r s, 0 <= j < J -> 0 <= t < T -> 0 <= r < R -> 0 <= s < S_ ->
     exists i, item idx (((j * T + t) * R + r) * S_ + s) = Some i /\
       (i = C * D * H * W <->
        in_bounds C D H W (kj + j) (mt + t) (pr + r) (qs + s) = false) /\
       (in_bounds C D H W (kj + j) (mt + t) (pr + r) (qs + s) = true ->
        i = flat_index D H W (kj + j) (mt + t) (pr + r) (qs + s))) /\
  (forall a : list (list A), Z.of_nat (length a) = C * D * H * W + 1 ->
     is_Some (take_rows a idx)).

End Safe.

End Window.

(** ** The formulas the reference is compared with *)

Module Spec.
Import Py Window.

Section Formulas.
Context {A : Type} {NA : Numeric A}.

(** [F[c,t,r,s,k]] for the filter array reshaped to (C,T,R,S,K). *)
Definition F5 (cpuF : list (list A)) (T R S_ : Z) (c t r s k : Z) : A :=
  at2 cpuF (tap_pos T R S_ (c, t, r, s)) k.

(** [I[c,z,y,x,n]] for the input array reshaped to (C,D,H,W,N). *)
Definition I5 (cpuI : list (list A)) (D H W : Z) (c z y x n : Z) : A :=
  at2 cpuI (flat_index D H W c z y x) n.

(** [E[k,m,p,q,n]] for an array of shape (K,M,P,Q,N). *)
Definition E5 (cpuE : list (list A)) (mpq : Z * Z * Z) (k m p q n : Z) : A :=
  at2 cpuE (row5 mpq k m p q) n.

(** The value a tap reads: the input element when the position is in
    bounds, the padding value otherwise. *)
Definition tap_value (cpuI : list (list A)) (pad : A) (C D H W : Z) (c z y x n : Z) : A :=
  if in_bounds C D H W c z y x then I5 cpuI D H W c z y x n else pad.

(** Forward convolution: the sum over (c,t,r,s) of F[c,t,r,s,k] times the
    input element at (c, m*str_d-pad_d+t, p*str_h-pad_h+r, q*str_w-pad_w+s, n),
    a tap out of bounds contributing 0. *)
Definition conv_fprop_sum (conv : Conv.ConvLayer) (cpuI cpuF : list (list A))
    (k m p q n : Z) : A :=
  let '(T, R, S_) := Conv.TRS conv in
  let '(D, H, W) := Conv.DHW conv in
  let '(pad_d, pad_h, pad_w) := Conv.padding conv in
  let '(str_d, str_h, str_w) := Conv.strides conv in
  sumA ((fun '(c, t, r, s) =>
           let z := m * str_d - pad_d + t in
           let y := p * str_h - pad_h + r in
           let x := q * str_w - pad_w + s in
           if in_bounds (Conv.conv_C conv) D H W c z y x
           then mul (F5 cpuF T R S_ c t r s k) (I5 cpuI D H W c z y x n)
           else zero) <$> taps4 (Conv.conv_C conv) T R S_).

(** Every tap of the window (m,p,q) is out of bounds. *)
Definition conv_window_outside (conv : Conv.ConvLayer) (m p q : Z) : Prop :=
  let '(T, R, S_) := Conv.TRS conv in
  let '(D, H, W) := Conv.DHW conv in
  let '(pad_d, pad_h, pad_w) := Conv.padding conv in
  let '(str_d, str_h, str_w) := Conv.strides conv in
  forall c t r s, 0 <= c < Conv.conv_C conv -> 0 <= t < T -> 0 <= r < R -> 0 <= s < S_ ->
    in_bounds (Conv.conv_C conv) D H W c
      (m * str_d - pad_d + t) (p * str_h - pad_h + r) (q * str_w - pad_w + s) = false.

(** Backward convolution at the input position (c,z,y,x): window after
    window, in the order of the loops, the window whose tap (t,r,s) lies on
    the position adds the sum over k of F[c,t,r,s,k] * E[k,m,p,q,n]; a
    window without such a tap adds nothing. *)
Definition conv_bprop_sum (conv : Conv.ConvLayer) (cpuF cpuE : list (list A))
    (c z y x n : Z) : A :=
  let '(T, R, S_) := Conv.TRS conv in
  let '(pad_d, pad_h, pad_w) := Conv.padding conv in
  let '(str_d, str_h, str_w) := Conv.strides conv in
  fold_left (fun acc '(m, p, q) =>
      let t := z - (m * str_d - pad_d) in
      let r := y - (p * str_h - pad_h) in
      let s := x - (q * str_w - pad_w) in
      if (0 <=? t) && (t <? T) && (0 <=? r) && (r <? R) && (0 <=? s) && (s <? S_)
      then add acc (sumA ((fun k => mul (F5 cpuF T R S_ c t r s k)
                                        (E5 cpuE (Conv.MPQ conv) k m p q n))
                            <$> range (Conv.conv_K conv)))
      else acc)
    (let '(M, P, Q) := Conv.MPQ conv in windows3 M P Q) zero.

(** [b] is the position of the first occurrence of the maximum of [vals]:
    no value is larger than the one at [b], and every value before [b] is
    smaller. *)
Definition first_max (vals : list A) (b : Z) : Prop :=
  0 <= b /\
  exists v, vals !! Z.to_nat b = Some v /\
    (forall u, u ∈ vals -> ltb v u = false) /\
    (forall (j : nat) u, (j < Z.to_nat b)%nat -> vals !! j = Some u -> ltb u v = true).

(** Where the window (k,m,p,q) of a pooling layer starts. *)
Definition pool_start (pool : Pool.PoolLayer) (k m p q : Z) : Z * Z * Z * Z :=
  let '(pad_j, pad_d, pad_h, pad_w) := Pool.padding pool in
  let '(str_j, str_d, str_h, str_w) := Pool.strides pool in
  (k * str_j - pad_j, m * str_d - pad_d, p * str_h - pad_h, q * str_w - pad_w).

(** The values of the taps of the window (k,m,p,q) for the batch item n,
    in the order channel-window, depth, row, column; a tap out of bounds
    has the value [pad]. *)
Definition pool_window_values (pool : Pool.PoolLayer) (cpuI : list (list A)) (pad : A)
    (k m p q n : Z) : list A :=
  let '(J, T, R, S_) := Pool.JTRS pool in
  let '(D, H, W) := Pool.DHW pool in
  let '(kj, mt, pr, qs) := pool_start pool k m p q in
  (fun '(j, t, r, s) =>
     tap_value cpuI pad (Pool.pool_C pool) D H W (kj + j) (mt + t) (pr + r) (qs + s) n)
    <$> taps4 J T R S_.

(** Every tap of the window (k,m,p,q) is out of bounds. *)
Definition pool_window_outside (pool : Pool.PoolLayer) (k m p q : Z) : Prop :=
  let '(J, T, R, S_) := Pool.JTRS pool in
  let '(D, H, W) := Pool.DHW pool in
  let '(kj, mt, pr, qs) := pool_start pool k m p q in
  forall j t r s, 0 <= j < J -> 0 <= t < T -> 0 <= r < R -> 0 <= s < S_ ->
    in_bounds (Pool.pool_C pool) D H W (kj + j) (mt + t) (pr + r) (qs + s) = false.

(** Position of the tap of the window (k,m,p,q) that lies on the input
    position (c,z,y,x), if there is one. *)
Definition pool_tap_at (pool : Pool.PoolLayer) (k m p q : Z) (c z y x : Z) : option Z :=
  let '(J, T, R, S_) := Pool.JTRS pool in
  let '(kj, mt, pr, qs) := pool_start pool k m p q in
  tap_at J T R S_ kj mt pr qs c z y x.

(** Average pooling forward: the sum of the window, a tap out of bounds
    counting as 0, divided by the window size J*T*R*S. *)
Definition pool_avg_out (pool : Pool.PoolLayer) (cpuI : list (list A)) (k m p q n : Z) : A :=
  let '(J, T, R, S_) := Pool.JTRS pool in
  div (sumA (pool_window_values pool cpuI zero k m p q n)) (of_int (J * T * R * S_)).

(** Average pooling backward at the input position (c,z,y,x): window after
    window, in the order of the loops, every window with a tap on the
    position adds E[k,m,p,q,n] * (1.0/(J*T*R*S)). *)
Definition pool_avg_bprop_sum (pool : Pool.PoolLayer) (cpuE : list (list A))
    (c z y x n : Z) : A :=
  let '(J, T, R, S_) := Pool.JTRS pool in
  let '(M, P, Q) := Pool.MPQ pool in
  fold_left (fun acc '(k, m, p, q) =>
      match pool_tap_at pool k m p q c z y x with
      | Some _ => add acc (mul (E5 cpuE (M, P, Q) k m p q n)
                               (div one (of_int (J * T * R * S_))))
      | None => acc
      end)
    (taps4 (Pool.pool_K pool) M P Q) zero.

(** Max pooling backward at the input position (c,z,y,x): window after
    window, the window adds E[k,m,p,q,n] when its tap on the position is
    the one [vargmax] finds among the values of the window. *)
Definition pool_max_bprop_sum (pool : Pool.PoolLayer) (cpuI cpuE : list (list A))
    (c z y x n : Z) : A :=
  let '(M, P, Q) := Pool.MPQ pool in
  fold_left (fun acc '(k, m, p, q) =>
      match pool_tap_at pool k m p q c z y x with
      | Some pos =>
          if decide (vargmax (pool_window_values pool cpuI fmin k m p q n) = Some pos)
          then add acc (E5 cpuE (M, P, Q) k m p q n) else acc
      | None => acc
      end)
    (taps4 (Pool.pool_K pool) M P Q) zero.

End Formulas.

End Spec.

(** ** Text datasets: [neon/data/text.py] *)

Module Text.
Import Py.

(** A Python 2 [str] is a sequence of bytes; iterating over it gives its
    characters, which are [str]s of length one. *)
Abbreviation str := (list ascii).

(** Files by path: [open(path).read()] raises an IOError for a path that
    is not there. *)
Abbreviation files := (gmap (list ascii) (list ascii)).

(** Position of the cut of [l[:k]] and [l[k:]]: a negative [k] counts from
    the end, and the cut is clamped to the sequence. *)
Definition slice_index (len : nat) (k : Z) : nat :=
  if k <? 0 then Z.to_nat (Z.max 0 (Z.of_nat len + k))
  else Z.to_nat (Z.min k (Z.of_nat len)).

(** [l[:k]] *)
Definition slice_to {X : Type} (l : list X) (k : Z) : list X :=
  take (slice_index (length l) k) l.

(** [l[k:]] *)
Definition slice_from {X : Type} (l : list X) (k : Z) : list X :=
  drop (slice_index (length l) k) l.

(** [Text.create_valid_file(path, valid_split)]: the file system goes in
    and comes out.  [os.path.splitext] is library code, and [valid_split]
    is used in the floating-point product int(len(text) * (1 - valid_split))
    only; both are parameters: [splitext], and [train_split_of], which
    gives that integer for len(text).  Writing a file is taken to succeed. *)
Definition create_valid_file (splitext : str -> str * str) (train_split_of : Z -> Z)
    (fs : files) (path : str) : option (files * (str * str)) :=
  text ← fs !! path;
  (* create train and valid paths *)
  let '(filename, ext) := splitext path in
  let train_path := filename ++ list_ascii_of_string "_train" ++ ext in
  let valid_path := filename ++ list_ascii_of_string "_valid" ++ ext in
  (* split data *)
  let train_split := train_split_of (Z.of_nat (length text)) in
  let train_text := slice_to text train_split in
  let valid_text := slice_from text train_split in
  (* write train file *)
  let fs := <[train_path := train_text]> fs in
  (* write valid file *)
  let fs := <[valid_path := valid_text]> fs in
  Some (fs, (train_path, valid_path)).

(** [Text.get_tokens(string, tokenizer)]: if tokenizer is None, we have a
    list of characters. *)
Definition get_tokens (string : str) (tokenizer : option (str -> list str)) : list str :=
  match tokenizer with
  | None => (fun c => [c]) <$> string
  | Some tokenizer => tokenizer string
  end.

(** [Text.get_vocab(tokens, vocab)]: if vocab is not None, we check that it
    contains all tokens; [None] is the AssertionError. *)
Definition get_vocab (tokens : list str) (vocab : option (list str)) : option (gset str) :=
  match vocab with
  | None => Some (list_to_set tokens)
  | Some vocab =>
      let vocab : gset str := list_to_set vocab in
      if decide (list_to_set tokens ⊆ vocab) then Some vocab else None
  end.

(** The order of Python 2 on [str]: byte by byte, a proper prefix first. *)
Fixpoint str_leb (s t : str) : bool :=
  match s, t with
  | [], _ => true
  | _ :: _, [] => false
  | a :: s', b :: t' =>
      if (N_of_ascii a <? N_of_ascii b)%N then true
      else if (N_of_ascii a =? N_of_ascii b)%N then str_leb s' t'
      else false
  end.

Definition str_le (s t : str) : Prop := str_leb s t = true.

#[export] Instance str_le_dec : RelDecision str_le.
Proof. intros s t. unfold str_le. apply _. Defined.

(** [sorted(s)] for a set of [str]s: the elements of the set, whatever the
    order in which the set gives them, in increasing order. *)
Definition sorted (s : gset str) : list str := merge_sort str_le (elements s).

(** [enumerate(l)] *)
Definition enumerate {X : Type} (l : list X) : list (Z * X) :=
  zip (range (Z.of_nat (length l))) l.

(** [dict(pairs)]: a later pair replaces an earlier one with the same key. *)
Definition dict {K V : Type} `{Countable K} (pairs : list (K * V)) : gmap K V :=
  fold_left (fun d kv => <[fst kv := snd kv]> d) pairs ∅.

(** Conversion of a non-negative integer to [np.uint8]: numpy (of the
    time of the code) keeps the low eight bits. *)
Definition uint8 (i : Z) : Z := i mod 256.

(** [k] consecutive pieces of length [n] of [l]. *)
Fixpoint chunks {X : Type} (k n : nat) (l : list X) : list (list X) :=
  match k with
  | O => []
  | S k' => take n l :: chunks k' n (drop n l)
  end.

(** The extents [a.reshape(d0, d1, d2)] uses for [a] of [size] elements:
    one negative extent is unknown and is computed from the others; a
    second one, or extents that do not fit the size, raise a ValueError. *)
Definition reshape_dims (size : Z) (dims : list Z) : option (list Z) :=
  let known := fold_left Z.mul (filter (fun d => 0 <= d) dims) 1 in
  match length (filter (fun d => d < 0) dims) with
  | O => if size =? known then Some dims else None
  | S O =>
      if (known =? 0) || negb (size mod known =? 0) then None
      else Some ((fun d => if d <? 0 then size / known else d) <$> dims)
  | _ => None
  end.

(** [a.reshape(d0, d1, d2)] for a 1-D array, in row-major order. *)
Definition reshape3 {X : Type} (a : list X) (d0 d1 d2 : Z) : option (list (list (list X))) :=
  dims ← reshape_dims (Z.of_nat (length a)) [d0; d1; d2];
  match dims with
  | [e0; e1; e2] =>
      Some (chunks (Z.to_nat e1) (Z.to_nat e2)
              <$> chunks (Z.to_nat e0) (Z.to_nat (e1 * e2)) a)
  | _ => None
  end.

(** The attributes [Text.__init__] sets, apart from the device buffers
    (dev_X, dev_y, dev_lbl, dev_lblflat), which belong to the backend. *)
Record Text := {
  seq_length : Z;
  batch_index : Z;
  nbatches : Z;
  ndata : Z;
  vocab : list str;
  nclass : Z;
  token_to_index : gmap str Z;
  index_to_token : gmap Z str;
  X : list (list (list Z));
  y : list (list (list Z))
}.

(** The tokens [Text.__init__] keeps: a multiple of bsz * time_steps of
    them; a modulo by zero is a ZeroDivisionError. *)
Definition trim_tokens (bsz time_steps : Z) (tokens : list str) : option (list str) :=
  if bsz * time_steps =? 0 then None
  else
    let extra_tokens := Z.of_nat (length tokens) mod (bsz * time_steps) in
    Some (if extra_tokens =? 0 then tokens else slice_to tokens (- extra_tokens)).

(** [Text.__init__(time_steps, path, vocab, tokenizer)], [bsz] being
    self.be.bsz, the batch size of the backend. *)
Definition init (bsz : Z) (fs : files) (time_steps : Z) (path : str)
    (vocab : option (list str)) (tokenizer : option (str -> list str)) : option Text :=
  text ← fs !! path;
  let tokens := get_tokens text tokenizer in
  tokens ← trim_tokens bsz time_steps tokens;
  let nbatches := Z.of_nat (length tokens) / (bsz * time_steps) in
  let ndata := nbatches * bsz in
  vs ← get_vocab tokens vocab;
  let vocab := sorted vs in
  let nclass := Z.of_nat (length vocab) in
  (* vocab dicts *)
  let token_to_index := dict ((fun it => (snd it, fst it)) <$> enumerate vocab) in
  let index_to_token := dict (enumerate vocab) in
  (* map tokens to indices *)
  X ← mapM (fun t => uint8 <$> token_to_index !! t) tokens;
  let y := slice_from X 1 ++ slice_to X 1 in
  (* reshape to preserve sentence continuity across batches *)
  X ← reshape3 X bsz nbatches time_steps;
  y ← reshape3 y bsz nbatches time_steps;
  Some {| seq_length := time_steps; batch_index := 0;
          nbatches := nbatches; ndata := ndata;
          vocab := vocab; nclass := nclass;
          token_to_index := token_to_index; index_to_token := index_to_token;
          X := X; y := y |}.

End Text.

(** ** Small layers and arrays to run the model on *)

Module Examples.

(** One channel, three pixels in a row, a filter of width 2, padding 1:
    four output pixels, the first and the last with one tap in the
    padding; two batch items. *)
Definition conv1 : Conv.ConvLayer :=
  Conv.conv_layer Conv.float32 2 1 1 1 1 3 1 1 2 0 0 1 1 1 1.
Definition conv1_I : list (list Z) := [[1; 2]; [3; 4]; [5; 6]; [9; 9]].
Definition conv1_F : list (list Z) := [[2]; [3]].
Definition conv1_E : list (list Z) := [[1; 0]; [0; 1]; [1; 1]; [2; 1]].

(** Two channels of one pixel, a window over two channels, channel
    padding 1: three windows, the first and the last with one tap in the
    padding; one batch item. *)
Definition pool1 (o : Pool.pool_op) : Pool.PoolLayer :=
  Pool.pool_layer o 1 2 1 1 1 2 1 1 1 1 0 0 0 1 1 1 1.
Definition pool1_I : list (list Z) := [[3]; [5]; [9]].
Definition pool1_E : list (list Z) := [[4]; [6]; [8]].
Definition pool1_empty : list (list Z) := [[7]; [7]; [7]].

(** A file of eleven characters; for bsz = 2 and time_steps = 3 the six
    tokens h, e, l, l, o and the blank are kept. *)
Definition text1_path : list ascii := list_ascii_of_string "a.txt".
Definition text1_text : list ascii := list_ascii_of_string "hello world".
Definition text1_fs : gmap (list ascii) (list ascii) := {[ text1_path := text1_text ]}.

End Examples.

(** * Properties *)

Import Py Window Spec.

(** ** Loops and row-major enumeration *)

Section ForLoops.
Context {X Y : Type}.

Lemma for_append (f : X -> list Y) (body : X -> list Y -> list Y) (l : list X) :
  (forall x, x ∈ l -> forall acc, body x acc = acc ++ f x) ->
  forall acc, for_ l body acc = acc ++ (l ≫= f).
Proof.
  unfold for_. induction l as [|x l IH]; intros Hb acc.
  - simpl. by rewrite app_nil_r.
  - rewrite bind_cons. cbn [fold_left].
    rewrite IH by (intros; apply Hb; by right).
    rewrite Hb by left. by rewrite <- app_assoc.
Qed.

Lemma fmap_bind {Z' : Type} (g : Y -> Z') (f : X -> list Y) (l : list X) :
  g <$> (l ≫= f) = l ≫= (fun x => g <$> f x).
Proof.
  induction l as [|x l IH]; [done|].
  by rewrite !bind_cons, fmap_app, IH.
Qed.

End ForLoops.

Lemma elem_of_range n i : i ∈ range n <-> 0 <= i < n.
Proof. unfold range. rewrite elem_of_seqZ. lia. Qed.

Lemma length_range n : length (range n) = Z.to_nat n.
Proof. apply length_seqZ. Qed.

Lemma conv_pixel_indices_taps conv mt pr qs :
  Conv.pixel_indices conv mt pr qs =
  let '(T, R, S_) := Conv.TRS conv in
  let '(D, H, W) := Conv.DHW conv in
  window_indices (Conv.conv_C conv) D H W (Conv.conv_C conv) T R S_ 0 mt pr qs.
Proof.
  unfold Conv.pixel_indices, window_indices, taps4.
  destruct (Conv.TRS conv) as [[T R] S_]. destruct (Conv.DHW conv) as [[D H] W].
  set (C := Conv.conv_C conv).
  rewrite (for_append (fun c => t ← range T; r ← range R; s ← range S_;
     [window_index C D H W (0 + c) (mt + t) (pr + r) (qs + s)])).
  2:{ intros c Hc acc. apply elem_of_range in Hc.
      apply for_append. intros t _ acc'.
      apply for_append. intros r _ acc''.
      apply for_append. intros s _ acc3. do 2 f_equal.
      unfold window_index, in_bounds, flat_index, sentinel.
      replace (0 <=? 0 + c) with true by lia. replace (0 + c <? C) with true by lia.
      rewrite !Z.geb_leb. simpl.
      case_match; lia. }
  simpl. rewrite !fmap_bind.
  apply list_bind_ext; [|done]. intros c. rewrite !fmap_bind.
  apply list_bind_ext; [|done]. intros t. rewrite !fmap_bind.
  apply list_bind_ext; [|done]. intros r. rewrite !fmap_bind.
  apply list_bind_ext; [|done]. intros s. done.
Qed.

Lemma pool_pixel_indices_taps pool kj mt pr qs :
  Pool.pixel_indices pool kj mt pr qs =
  let '(J, T, R, S_) := Pool.JTRS pool in
  let '(D, H, W) := Pool.DHW pool in
  window_indices (Pool.pool_C pool) D H W J T R S_ kj mt pr qs.
Proof.
  unfold Pool.pixel_indices, window_indices, taps4.
  destruct (Pool.JTRS pool) as [[[J T] R] S_]. destruct (Pool.DHW pool) as [[D H] W].
  set (C := Pool.pool_C pool).
  rewrite (for_append (fun j => t ← range T; r ← range R; s ← range S_;
     [window_index C D H W (kj + j) (mt + t) (pr + r) (qs + s)])).
  2:{ intros c Hc acc. 
      apply for_append. intros t _ acc'.
      apply for_append. intros r _ acc''.
      apply for_append. intros s _ acc3. do 2 f_equal.
      unfold window_index, in_bounds, flat_index, sentinel.
      rewrite !Z.geb_leb. 
      case_match; lia. }
  simpl. rewrite !fmap_bind. 
  apply list_bind_ext; [|done]. intros c. rewrite !fmap_bind. 
  apply list_bind_ext; [|done]. intros t. rewrite !fmap_bind. 
  apply list_bind_ext; [|done]. intros r. rewrite !fmap_bind. 
  apply list_bind_ext; [|done]. intros s. done.
Qed.

(** Row-major enumeration *)
Lemma range_S n : 0 <= n -> range (n + 1) = range n ++ [n].
Proof.
  intros Hn. unfold range. rewrite seqZ_app by lia.
  rewrite (seqZ_cons (0 + n)) by lia. rewrite (seqZ_nil _ (Z.pred 1)) by lia. done.
Qed.

Lemma range_nil n : n <= 0 -> range n = [].
Proof. apply seqZ_nil. Qed.

Lemma seqZ_shift o n : seqZ o n = Z.add o <$> range n.
Proof. unfold range. rewrite (fmap_add_seqZ o 0 n). f_equal. lia. Qed.

Lemma range_bind_rowmajor (o a b : Z) :
  0 <= a -> 0 <= b ->
  (x ← range a; (fun y => (o + x) * b + y) <$> range b) =
  (fun n => o * b + n) <$> range (a * b).
Proof.
  intros Ha Hb. pattern a. apply natlike_ind; [|clear a Ha|done].
  - rewrite Z.mul_0_l. by rewrite !(range_nil 0).
  - intros a Ha IH. rewrite <- Z.add_1_r, range_S, bind_app, IH by lia.
    rewrite bind_singleton.
    replace ((a + 1) * b) with (a * b + b) by lia.
    unfold range at 3. rewrite seqZ_app, fmap_app by nia. f_equal.
    rewrite Z.add_0_l, seqZ_shift, <- list_fmap_compose.
    apply list_fmap_ext. intros _ y _. simpl. lia.
Qed.

Lemma tap_pos_taps4 a b c d :
  0 <= a -> 0 <= b -> 0 <= c -> 0 <= d ->
  tap_pos b c d <$> taps4 a b c d = range (a * b * c * d).
Proof.
  intros Ha Hb Hc Hd. unfold taps4. rewrite fmap_bind.
  transitivity (i ← range a; (fun y => (0 + i) * (b * c * d) + y) <$> range (b * c * d)).
  2:{ rewrite range_bind_rowmajor by lia. rewrite <- (list_fmap_id (range (a * b * c * d))).
      replace (a * (b * c * d)) with (a * b * c * d) by lia.
      apply list_fmap_ext. intros _ y _. simpl. lia. }
  apply list_bind_ext; [|done]. intros i. rewrite fmap_bind.
  transitivity (j ← range b; (fun y => (i * b + j) * (c * d) + y) <$> range (c * d)).
  2:{ rewrite range_bind_rowmajor by lia. 
      replace (b * (c * d)) with (b * c * d) by lia.
      apply list_fmap_ext. intros _ y _. simpl. lia. }
  apply list_bind_ext; [|done]. intros j. rewrite fmap_bind.
  transitivity (k ← range c; (fun y => ((i * b + j) * c + k) * d + y) <$> range d).
  2:{ rewrite range_bind_rowmajor by lia. 
      apply list_fmap_ext. intros _ y _. simpl. lia. }
  apply list_bind_ext; [|done]. intros k. rewrite fmap_bind.
  clear. induction (range d) as [|l ls IH]; [done|].
  by rewrite bind_cons, fmap_cons, IH.
Qed.

Lemma elem_of_taps4 a b c d i j k l :
  (i, j, k, l) ∈ taps4 a b c d <->
  0 <= i < a /\ 0 <= j < b /\ 0 <= k < c /\ 0 <= l < d.
Proof.
  unfold taps4. split.
  - intros Hin.
    apply list_elem_of_bind in Hin as (i' & Hin & Hi).
    apply list_elem_of_bind in Hin as (j' & Hin & Hj).
    apply list_elem_of_bind in Hin as (k' & Hin & Hk).
    apply list_elem_of_bind in Hin as (l' & Hin & Hl).
    apply list_elem_of_singleton in Hin. simplify_eq.
    by rewrite <- !elem_of_range.
  - rewrite <- !elem_of_range. intros (Hi & Hj & Hk & Hl).
    apply list_elem_of_bind. exists i. split; [|done].
    apply list_elem_of_bind. exists j. split; [|done].
    apply list_elem_of_bind. exists k. split; [|done].
    apply list_elem_of_bind. exists l. split; [|done].
    by apply list_elem_of_singleton.
Qed.

Lemma length_taps4 a b c d :
  0 <= a -> 0 <= b -> 0 <= c -> 0 <= d ->
  Z.of_nat (length (taps4 a b c d)) = a * b * c * d.
Proof.
  intros. rewrite <- (length_fmap (tap_pos b c d)), tap_pos_taps4, length_range by done.
  nia.
Qed.

Lemma lookup_taps4 a b c d n tap :
  0 <= a -> 0 <= b -> 0 <= c -> 0 <= d ->
  taps4 a b c d !! n = Some tap <->
  tap ∈ taps4 a b c d /\ Z.of_nat n = tap_pos b c d tap.
Proof.
  intros Ha Hb Hc Hd.
  assert (Hpos : forall n tap, taps4 a b c d !! n = Some tap -> Z.of_nat n = tap_pos b c d tap).
  { intros n' tap' Hn.
    assert (Hm : (tap_pos b c d <$> taps4 a b c d) !! n' = Some (tap_pos b c d tap'))
      by (by rewrite list_lookup_fmap, Hn).
    rewrite tap_pos_taps4 in Hm by done. apply lookup_seqZ in Hm. lia. }
  split.
  - intros Hn. split; [by eapply list_elem_of_lookup_2 | by apply Hpos].
  - intros [Hin Hn]. apply list_elem_of_lookup in Hin as [n' Hn'].
    pose proof (Hpos _ _ Hn'). by replace n with n' by lia.
Qed.

(** Indexing *)
Lemma norm_index_nonneg len i :
  0 <= i < Z.of_nat len -> norm_index len i = Some (Z.to_nat i).
Proof.
  intros Hi. unfold norm_index.
  replace (0 <=? i) with true by lia. by replace (i <? Z.of_nat len) with true by lia.
Qed.

Lemma item_nonneg {X} (l : list X) i :
  0 <= i < Z.of_nat (length l) -> item l i = l !! Z.to_nat i.
Proof. intros Hi. unfold item. by rewrite norm_index_nonneg. Qed.

Lemma item_nonneg_Some {X} (l : list X) i x :
  0 <= i -> item l i = Some x <-> l !! Z.to_nat i = Some x.
Proof.
  intros Hi. destruct (decide (i < Z.of_nat (length l))).
  - by rewrite item_nonneg by lia.
  - unfold item, norm_index.
    replace (i <? Z.of_nat (length l)) with false by lia.
    replace (i <? 0) with false by lia. rewrite !andb_false_r. simpl.
    split; [done|]. intros Hl%lookup_lt_Some. lia.
Qed.

Lemma setitem_nonneg {X} (l : list X) i x :
  0 <= i < Z.of_nat (length l) -> setitem l i x = Some (<[Z.to_nat i := x]> l).
Proof. intros Hi. unfold setitem. by rewrite norm_index_nonneg. Qed.

Lemma item_last {X} (l : list X) :
  l <> [] -> item l (-1) = l !! (length l - 1)%nat.
Proof.
  intros Hl. unfold item, norm_index. simpl.
  assert (0 < length l)%nat by (destruct l; [done | simpl; lia]).
  replace (- Z.of_nat (length l) <=? -1) with true by lia. simpl.
  f_equal. lia.
Qed.

Lemma flat_index_bounds C D H W c z y x :
  in_bounds C D H W c z y x = true ->
  0 <= flat_index D H W c z y x < sentinel C D H W.
Proof.
  unfold in_bounds, flat_index, sentinel. intros Hb.
  assert (0 <= c < C /\ 0 <= z < D /\ 0 <= y < H /\ 0 <= x < W) as (Hc & Hz & Hy & Hx) by lia.
  assert (0 <= c * D + z <= C * D - 1) by nia.
  assert (0 <= (c * D + z) * H + y <= C * D * H - 1) by nia.
  nia.
Qed.

Lemma flat_index_inj D H W c z y x c' z' y' x' :
  0 <= z < D -> 0 <= y < H -> 0 <= x < W ->
  0 <= z' < D -> 0 <= y' < H -> 0 <= x' < W ->
  flat_index D H W c z y x = flat_index D H W c' z' y' x' ->
  c = c' /\ z = z' /\ y = y' /\ x = x'.
Proof.
  unfold flat_index. intros Hz Hy Hx Hz' Hy' Hx' Heq.
  assert (Hd : forall a b a' b' n, 0 <= b < n -> 0 <= b' < n -> a * n + b = a' * n + b' ->
            a = a' /\ b = b').
  { intros a b a' b' n Hb Hb' Hab.
    assert (a = a') as ->; [|lia].
    destruct (Z.lt_trichotomy a a') as [Hlt|[?|Hlt]]; [exfalso|done|exfalso].
    - assert (n <= (a' - a) * n) by nia. lia.
    - assert (n <= (a - a') * n) by nia. lia. }
  apply Hd in Heq as [Heq ->]; [|done..].
  apply Hd in Heq as [Heq ->]; [|done..].
  apply Hd in Heq as [-> ->]; done.
Qed.

Lemma window_index_bounds C D H W c z y x :
  0 <= C -> 0 <= D -> 0 <= H -> 0 <= W ->
  0 <= window_index C D H W c z y x <= sentinel C D H W.
Proof.
  intros. unfold window_index. destruct (in_bounds C D H W c z y x) eqn:Hb.
  - apply flat_index_bounds in Hb. lia.
  - unfold sentinel. nia.
Qed.

Lemma window_index_sentinel C D H W c z y x :
  window_index C D H W c z y x = sentinel C D H W <->
  in_bounds C D H W c z y x = false.
Proof.
  unfold window_index. destruct (in_bounds C D H W c z y x) eqn:Hb; [|done].
  apply flat_index_bounds in Hb. split; [lia|done].
Qed.

(** ** Safe window indices *)

Section Safe.
Context {A : Type} {NA : Numeric A}.

Lemma take_rows_Some (a : list (list A)) (idx : list Z) :
  Forall (fun i => 0 <= i < Z.of_nat (length a)) idx ->
  take_rows a idx = Some ((fun i => a !!! Z.to_nat i) <$> idx).
Proof.
  intros Hidx. unfold take_rows. apply mapM_Some.
  induction Hidx as [|i idx Hi _ IH]; [constructor|].
  rewrite fmap_cons. constructor; [|done].
  rewrite item_nonneg by done. apply list_lookup_lookup_total_lt. lia.
Qed.

Lemma window_indices_safe C D H W J T R S_ kj mt pr qs :
  0 <= C -> 0 <= D -> 0 <= H -> 0 <= W ->
  0 <= J -> 0 <= T -> 0 <= R -> 0 <= S_ ->
  indices_safe (A:=A) C D H W J T R S_ kj mt pr qs
    (window_indices C D H W J T R S_ kj mt pr qs).
Proof.
  intros HC HD HH HW HJ HT HR HS. unfold window_indices.
  set (f := fun '(j, t, r, s) => window_index C D H W (kj + j) (mt + t) (pr + r) (qs + s)).
  assert (Hall : Forall (fun i => 0 <= i <= C * D * H * W) (f <$> taps4 J T R S_)).
  { apply Forall_fmap, Forall_forall. intros [[[j t] r] s] _. simpl.
    apply window_index_bounds; done. }
  split; [|split; [done|split]].
  - by rewrite length_fmap, length_taps4.
  - intros j t r s Hj Ht Hr Hs.
    assert (Hin : (j, t, r, s) ∈ taps4 J T R S_) by (by apply elem_of_taps4).
    apply list_elem_of_lookup in Hin as [n Hn].
    pose proof Hn as Hpos. apply lookup_taps4 in Hpos as [_ Hpos]; [|done..].
    simpl in Hpos. exists (f (j, t, r, s)). split; [|split].
    + apply item_nonneg_Some; [lia|]. rewrite <- Hpos, Nat2Z.id.
      by rewrite list_lookup_fmap, Hn.
    + apply window_index_sentinel.
    + intros Hb. simpl. unfold window_index. by rewrite Hb.
  - intros a Ha. rewrite take_rows_Some; [done|].
    eapply Forall_impl; [exact Hall|]. simpl. lia.
Qed.

End Safe.


(** ** Loops that may fail, and storing rows *)

Section ForEach.
Context {X S : Type}.

Lemma for_each_app (l1 l2 : list X) (body : X -> S -> option S) s :
  for_each (l1 ++ l2) body s = s' ← for_each l1 body s; for_each l2 body s'.
Proof.
  revert s. induction l1 as [|x l1 IH]; intros s; simpl; [done|].
  destruct (body x s); simpl; [apply IH|done].
Qed.

(** A loop nested in a loop is one loop over the pairs. *)
Lemma for_each_bind {Y} (l : list Y) (f : Y -> list X) (body : X -> S -> option S) s :
  for_each l (fun y s => for_each (f y) body s) s = for_each (l ≫= f) body s.
Proof.
  revert s. induction l as [|y l IH]; intros s; [done|].
  rewrite bind_cons, for_each_app. cbn [for_each].
  destruct (for_each (f y) body s); simpl; [apply IH|done].
Qed.

Lemma for_each_ext (l : list X) (body body' : X -> S -> option S) s :
  (forall x s, x ∈ l -> body x s = body' x s) ->
  for_each l body s = for_each l body' s.
Proof.
  revert s. induction l as [|x l IH]; intros s Hb; [done|]. simpl.
  rewrite <- Hb by left. destruct (body x s); [|done].
  apply IH. intros. apply Hb. by right.
Qed.

(** Invariant rule: [Inv d s] relates the elements [d] already visited to
    the state reached. *)
Lemma for_each_inv (Inv : list X -> S -> Prop) (body : X -> S -> option S) (l : list X) :
  forall d s,
  Inv d s ->
  (forall d x s, x ∈ l -> Inv d s -> exists s', body x s = Some s' /\ Inv (d ++ [x]) s') ->
  exists s', for_each l body s = Some s' /\ Inv (d ++ l) s'.
Proof.
  induction l as [|x l IH]; intros d s Hd Hstep.
  - exists s. by rewrite app_nil_r.
  - destruct (Hstep d x s) as (s1 & Hs1 & Hinv); [left|done|].
    destruct (IH (d ++ [x]) s1) as (s' & Hs' & Hinv'); [done| |].
    { intros. apply Hstep; [by right|done]. }
    exists s'. simpl. rewrite Hs1. by rewrite <- app_assoc in Hinv'.
Qed.

End ForEach.

Section Rows.
Context {A : Type} {NA : Numeric A}.

Lemma length_zeros r c : length (zeros (A:=A) (r, c)) = Z.to_nat r.
Proof. unfold zeros. by rewrite length_replicate. Qed.

Lemma lookup_zeros r c i :
  (i < Z.to_nat r)%nat -> zeros (A:=A) (r, c) !! i = Some (replicate (Z.to_nat c) zero).
Proof. intros. unfold zeros. by apply lookup_replicate_2. Qed.

(** Storing rows: a row that is no target stays, a row that is the target
    of one position only takes the row stored there. *)
Lemma put_rows_spec (idx : list Z) : forall (a v : list (list A)),
  Forall (fun i => 0 <= i < Z.of_nat (length a)) idx ->
  length v = length idx ->
  exists a', put_rows a idx v = Some a' /\ length a' = length a /\
    (forall i : nat, Z.of_nat i ∉ idx -> a' !! i = a !! i) /\
    (forall (i j : nat), idx !! j = Some (Z.of_nat i) ->
       (forall j', idx !! j' = Some (Z.of_nat i) -> j' = j) -> a' !! i = v !! j).
Proof.
  unfold put_rows. induction idx as [|i0 idx IH]; intros a v Hidx Hlen.
  - exists a. destruct v; [|done]. simpl. by repeat split.
  - destruct v as [|v0 v]; [done|]. simpl in Hlen.
    apply Forall_cons in Hidx as [Hi0 Hidx]. simpl.
    rewrite setitem_nonneg by done.
    destruct (IH (<[Z.to_nat i0 := v0]> a) v) as (a' & Ha' & Hl & Hout & Hin).
    { by rewrite length_insert. } { lia. }
    exists a'. split; [done|]. rewrite length_insert in Hl. split; [done|]. split.
    + intros i Hni. apply not_elem_of_cons in Hni as [Hne Hni].
      rewrite Hout by done. apply list_lookup_insert_ne. lia.
    + intros i j Hj Huniq. destruct j as [|j]; simpl in *.
      * injection Hj as ->. rewrite Hout.
        -- rewrite Nat2Z.id. apply list_lookup_insert_eq. lia.
        -- intros [j' Hj']%list_elem_of_lookup. by specialize (Huniq (S j') Hj').
      * apply Hin; [done|]. intros j' Hj'. specialize (Huniq (S j') Hj'). lia.
Qed.

End Rows.

(** ** The tap that reads an input position *)

Lemma length_window_indices C D H W J T R S_ kj mt pr qs :
  0 <= J -> 0 <= T -> 0 <= R -> 0 <= S_ ->
  Z.of_nat (length (window_indices C D H W J T R S_ kj mt pr qs)) = J * T * R * S_.
Proof. intros. unfold window_indices. by rewrite length_fmap, length_taps4. Qed.

Lemma lookup_window_indices C D H W J T R S_ kj mt pr qs (n : nat) i :
  0 <= J -> 0 <= T -> 0 <= R -> 0 <= S_ ->
  window_indices C D H W J T R S_ kj mt pr qs !! n = Some i <->
  exists j t r s, 0 <= j < J /\ 0 <= t < T /\ 0 <= r < R /\ 0 <= s < S_ /\
    Z.of_nat n = tap_pos T R S_ (j, t, r, s) /\
    i = window_index C D H W (kj + j) (mt + t) (pr + r) (qs + s).
Proof.
  intros HJ HT HR HS. unfold window_indices. rewrite list_lookup_fmap. split.
  - intros Hn. destruct (taps4 J T R S_ !! n) as [[[[j t] r] s]|] eqn:Htap; [|done].
    simpl in Hn. injection Hn as <-.
    apply lookup_taps4 in Htap as [Hin Hpos]; [|done..].
    apply elem_of_taps4 in Hin as (Hj & Ht & Hr & Hs). by exists j, t, r, s.
  - intros (j & t & r & s & Hj & Ht & Hr & Hs & Hn & ->).
    assert (Htap : taps4 J T R S_ !! n = Some (j, t, r, s)).
    { apply lookup_taps4; [done..|]. split; [|done]. by apply elem_of_taps4. }
    by rewrite Htap.
Qed.

(** The tap that reads an input position in bounds is the one [tap_at]
    names, and no other tap reads it. *)
Lemma window_indices_hit C D H W J T R S_ kj mt pr qs c z y x (n : nat) :
  0 <= J -> 0 <= T -> 0 <= R -> 0 <= S_ ->
  in_bounds C D H W c z y x = true ->
  window_indices C D H W J T R S_ kj mt pr qs !! n = Some (flat_index D H W c z y x) <->
  tap_at J T R S_ kj mt pr qs c z y x = Some (Z.of_nat n).
Proof.
  intros HJ HT HR HS Hb. rewrite lookup_window_indices by done.
  pose proof (flat_index_bounds _ _ _ _ _ _ _ _ Hb) as Hfb.
  unfold tap_at. split.
  - intros (j & t & r & s & Hj & Ht & Hr & Hs & Hn & Hi).
    unfold window_index in Hi.
    destruct (in_bounds C D H W (kj + j) (mt + t) (pr + r) (qs + s)) eqn:Hb'; [|lia].
    apply flat_index_inj in Hi as (-> & -> & -> & ->);
      [|unfold in_bounds in Hb, Hb'; lia..].
    replace (kj + j - kj) with j by lia. replace (mt + t - mt) with t by lia.
    replace (pr + r - pr) with r by lia. replace (qs + s - qs) with s by lia.
    rewrite Hn. case_match; [done|lia].
  - case_match eqn:Hr'; [|done]. intros [= Hn].
    exists (c - kj), (z - mt), (y - pr), (x - qs).
    repeat (split; [lia|]). split; [done|].
    unfold window_index.
    replace (kj + (c - kj)) with c by lia. replace (mt + (z - mt)) with z by lia.
    replace (pr + (y - pr)) with y by lia. replace (qs + (x - qs)) with x by lia.
    by rewrite Hb.
Qed.

Lemma tap_at_bounds J T R S_ kj mt pr qs c z y x pos :
  0 <= J -> 0 <= T -> 0 <= R -> 0 <= S_ ->
  tap_at J T R S_ kj mt pr qs c z y x = Some pos -> 0 <= pos < J * T * R * S_.
Proof.
  intros HJ HT HR HS. unfold tap_at. case_match eqn:Hr'; [|done]. intros [= <-].
  simpl.
  assert (0 <= c - kj < J /\ 0 <= z - mt < T /\ 0 <= y - pr < R /\ 0 <= x - qs < S_)
    as (Hj & Ht & Hr & Hs) by lia.
  pose proof (flat_index_bounds J T R S_ (c - kj) (z - mt) (y - pr) (x - qs)) as Hfb.
  unfold flat_index, sentinel, in_bounds in Hfb. apply Hfb. lia.
Qed.

Section MoreRows.
Context {A : Type} {NA : Numeric A}.

Lemma length_take_rows (a g : list (list A)) idx :
  take_rows a idx = Some g -> length g = length idx.
Proof. intros Hg. symmetry. by eapply length_mapM. Qed.

(** [a[idx, :] += x] row by row, for a target that one tap reads. *)
Lemma iadd_rows_spec (a x : list (list A)) (idx : list Z) :
  Forall (fun i => 0 <= i < Z.of_nat (length a)) idx ->
  length x = length idx ->
  exists a', iadd_rows a idx x = Some a' /\ length a' = length a /\
    (forall i : nat, Z.of_nat i ∉ idx -> a' !! i = a !! i) /\
    (forall (i j : nat), idx !! j = Some (Z.of_nat i) ->
       (forall j', idx !! j' = Some (Z.of_nat i) -> j' = j) ->
       a' !! i = Some (vadd (a !!! i) (x !!! j))).
Proof.
  intros Hidx Hlen. unfold iadd_rows. rewrite take_rows_Some by done. simpl.
  destruct (put_rows_spec idx a
    (zip_with vadd ((fun i => a !!! Z.to_nat i) <$> idx) x)) as (a' & Ha' & Hl & Hout & Hin).
  { done. } { rewrite length_zip_with, length_fmap. lia. }
  exists a'. repeat split; [done..|].
  intros i j Hj Hu. rewrite (Hin i j Hj Hu), lookup_zip_with, list_lookup_fmap, Hj.
  simpl. rewrite Nat2Z.id.
  assert (Hx : is_Some (x !! j)).
  { apply lookup_lt_is_Some. rewrite Hlen. by eapply lookup_lt_Some. }
  destruct Hx as [xj Hxj]. rewrite Hxj. simpl.
  by rewrite (list_lookup_total_correct _ _ _ Hxj).
Qed.

Lemma iadd_rows_bcast_spec (a : list (list A)) (v : list A) (idx : list Z) :
  Forall (fun i => 0 <= i < Z.of_nat (length a)) idx ->
  exists a', iadd_rows_bcast a idx v = Some a' /\ length a' = length a /\
    (forall i : nat, Z.of_nat i ∉ idx -> a' !! i = a !! i) /\
    (forall (i j : nat), idx !! j = Some (Z.of_nat i) ->
       (forall j', idx !! j' = Some (Z.of_nat i) -> j' = j) ->
       a' !! i = Some (vadd (a !!! i) v)).
Proof.
  intros Hidx. unfold iadd_rows_bcast. rewrite take_rows_Some by done. simpl.
  destruct (put_rows_spec idx a
    ((fun r => vadd r v) <$> ((fun i => a !!! Z.to_nat i) <$> idx)))
    as (a' & Ha' & Hl & Hout & Hin).
  { done. } { by rewrite !length_fmap. }
  exists a'. repeat split; [done..|].
  intros i j Hj Hu. rewrite (Hin i j Hj Hu), !list_lookup_fmap, Hj.
  simpl. by rewrite Nat2Z.id.
Qed.

Lemma fill_row_last (a : list (list A)) (x : A) (n : Z) :
  Z.of_nat (length a) = n + 1 -> 0 <= n ->
  fill_row a (-1) x =
  Some (<[Z.to_nat n := (fun _ => x) <$> (a !!! Z.to_nat n)]> a).
Proof.
  intros Hlen Hn. unfold fill_row.
  assert (Hne : a <> []) by (intros ->; simpl in Hlen; lia).
  rewrite item_last by done.
  replace (length a - 1)%nat with (Z.to_nat n) by lia.
  assert (Hl : is_Some (a !! Z.to_nat n)) by (apply lookup_lt_is_Some; lia).
  destruct Hl as [r Hr]. rewrite Hr. simpl.
  rewrite (list_lookup_total_correct _ _ _ Hr).
  unfold setitem, norm_index. simpl.
  replace (- Z.of_nat (length a) <=? -1) with true by lia. simpl.
  do 2 f_equal. lia.
Qed.

End MoreRows.

(** ** Nested window loops *)

Section ForEach2.
Context {X Y S : Type}.

Lemma for_each_fmap (g : X -> Y) (l : list X) (body : Y -> S -> option S) s :
  for_each (g <$> l) body s = for_each l (fun x => body (g x)) s.
Proof.
  revert s. induction l as [|x l IH]; intros s; [done|]. simpl.
  destruct (body (g x) s); [apply IH|done].
Qed.

End ForEach2.

Lemma for_each_windows3 {S} (M P Q : Z) (body : Z -> Z -> Z -> S -> option S) s :
  for_each (range M) (fun m st =>
    for_each (range P) (fun p st =>
      for_each (range Q) (fun q st => body m p q st) st) st) s =
  for_each (windows3 M P Q) (fun '(m, p, q) => body m p q) s.
Proof.
  unfold windows3. rewrite <- for_each_bind. apply for_each_ext. intros m st _.
  rewrite <- for_each_bind. apply for_each_ext. intros p st' _.
  rewrite <- for_each_bind. apply for_each_ext. intros q st'' _. simpl.
  by destruct (body m p q st'').
Qed.

Lemma for_each_windows4 {S} (K M P Q : Z) (body : Z -> Z -> Z -> Z -> S -> option S) s :
  for_each (range K) (fun k st =>
    for_each (range M) (fun m st =>
      for_each (range P) (fun p st =>
        for_each (range Q) (fun q st => body k m p q st) st) st) st) s =
  for_each (taps4 K M P Q) (fun '(k, m, p, q) => body k m p q) s.
Proof.
  unfold taps4. rewrite <- for_each_bind. apply for_each_ext. intros k st0 _.
  rewrite <- for_each_bind. apply for_each_ext. intros m st _.
  rewrite <- for_each_bind. apply for_each_ext. intros p st' _.
  rewrite <- for_each_bind. apply for_each_ext. intros q st'' _. simpl.
  by destruct (body k m p q st'').
Qed.

Lemma elem_of_windows3 M P Q m p q :
  (m, p, q) ∈ windows3 M P Q <-> 0 <= m < M /\ 0 <= p < P /\ 0 <= q < Q.
Proof.
  unfold windows3. split.
  - intros Hin.
    apply list_elem_of_bind in Hin as (m' & Hin & Hm).
    apply list_elem_of_bind in Hin as (p' & Hin & Hp).
    apply list_elem_of_bind in Hin as (q' & Hin & Hq).
    apply list_elem_of_singleton in Hin. simplify_eq.
    by rewrite <- !elem_of_range.
  - rewrite <- !elem_of_range. intros (Hm & Hp & Hq).
    apply list_elem_of_bind. exists m. split; [|done].
    apply list_elem_of_bind. exists p. split; [|done].
    apply list_elem_of_bind. exists q. split; [|done].
    by apply list_elem_of_singleton.
Qed.

(** ** Slices of a 5-D array *)

Section SliceRows.
Context {A : Type} {NA : Numeric A}.

Lemma row5_flat_index M P Q k m p q : row5 (M, P, Q) k m p q = flat_index M P Q k m p q.
Proof. done. Qed.

Lemma row5_bounds K M P Q k m p q :
  0 <= k < K -> 0 <= m < M -> 0 <= p < P -> 0 <= q < Q ->
  0 <= row5 (M, P, Q) k m p q < K * M * P * Q.
Proof.
  intros. rewrite row5_flat_index.
  apply (flat_index_bounds K M P Q). unfold in_bounds. lia.
Qed.

Lemma row5_inj M P Q k m p q k' m' p' q' :
  0 <= m < M -> 0 <= p < P -> 0 <= q < Q ->
  0 <= m' < M -> 0 <= p' < P -> 0 <= q' < Q ->
  row5 (M, P, Q) k m p q = row5 (M, P, Q) k' m' p' q' ->
  k = k' /\ m = m' /\ p = p' /\ q = q'.
Proof. rewrite !row5_flat_index. apply flat_index_inj. Qed.

Lemma lookup_range n (i : nat) k : range n !! i = Some k <-> k = Z.of_nat i /\ Z.of_nat i < n.
Proof. unfold range. rewrite lookup_seqZ. lia. Qed.

(** [a[:, m, p, q, :] = x]: the K rows of the slice take the rows of [x],
    the slices of the other windows stay. *)
Lemma set_slice_spec K M P Q (a x : list (list A)) m p q :
  0 <= K -> 0 <= m < M -> 0 <= p < P -> 0 <= q < Q ->
  Z.of_nat (length a) = K * M * P * Q ->
  Z.of_nat (length x) = K ->
  exists a', set_slice K (M, P, Q) a m p q x = Some a' /\ length a' = length a /\
    (forall k, 0 <= k < K ->
       a' !! Z.to_nat (row5 (M, P, Q) k m p q) = x !! Z.to_nat k) /\
    (forall k m' p' q', 0 <= k < K -> 0 <= m' < M -> 0 <= p' < P -> 0 <= q' < Q ->
       (m', p', q') <> (m, p, q) ->
       a' !! Z.to_nat (row5 (M, P, Q) k m' p' q') = a !! Z.to_nat (row5 (M, P, Q) k m' p' q')).
Proof.
  intros HK Hm Hp Hq Ha Hx. unfold set_slice.
  destruct (put_rows_spec ((fun k => row5 (M, P, Q) k m p q) <$> range K) a x)
    as (a' & Ha' & Hl & Hout & Hin).
  { apply Forall_fmap, Forall_forall. intros k Hk%elem_of_range. simpl.
    rewrite Ha. by apply row5_bounds. }
  { rewrite length_fmap, length_range. lia. }
  exists a'. split; [done|]. split; [done|]. split.
  - intros k Hk.
    pose proof (row5_bounds K M P Q k m p q Hk Hm Hp Hq) as Hb.
    rewrite (Hin (Z.to_nat (row5 (M, P, Q) k m p q)) (Z.to_nat k)); [done| |].
    + rewrite Z2Nat.id by lia. rewrite list_lookup_fmap.
      by rewrite (proj2 (lookup_range K (Z.to_nat k) k)) by lia.
    + intros j'. rewrite Z2Nat.id by lia. rewrite list_lookup_fmap.
      destruct (range K !! j') as [k'|] eqn:Hk'; [|done].
      apply lookup_range in Hk' as [-> Hk']. intros [= Heq].
      apply row5_inj in Heq as (Heq & _); [lia|done..].
  - intros k m' p' q' Hk Hm' Hp' Hq' Hne. apply Hout.
    pose proof (row5_bounds K M P Q k m' p' q' Hk Hm' Hp' Hq') as Hb.
    rewrite Z2Nat.id by lia.
    intros Hin'%list_elem_of_fmap. destruct Hin' as (k' & Heq & Hk'%elem_of_range).
    apply row5_inj in Heq as (_ & -> & -> & ->); done.
Qed.

Lemma get_slice_spec K M P Q (a : list (list A)) m p q :
  0 <= K -> 0 <= m < M -> 0 <= p < P -> 0 <= q < Q ->
  Z.of_nat (length a) = K * M * P * Q ->
  get_slice K (M, P, Q) a m p q =
  Some ((fun k => a !!! Z.to_nat (row5 (M, P, Q) k m p q)) <$> range K).
Proof.
  intros HK Hm Hp Hq Ha. unfold get_slice. rewrite take_rows_Some.
  - by rewrite <- list_fmap_compose.
  - apply Forall_fmap, Forall_forall. intros k Hk%elem_of_range. simpl.
    rewrite Ha. by apply row5_bounds.
Qed.

End SliceRows.

(** ** Elements of rows and sums *)

Section Elements.
Context {A : Type} {NA : Numeric A}.

Lemma list_as_range {X} `{Inhabited X} (l : list X) :
  l = (fun i => l !!! Z.to_nat i) <$> range (Z.of_nat (length l)).
Proof.
  apply list_eq. intros i. rewrite list_lookup_fmap.
  destruct (decide (i < length l)%nat) as [Hi|Hi].
  - rewrite (proj2 (lookup_range _ i (Z.of_nat i))) by lia. simpl.
    rewrite Nat2Z.id. by apply list_lookup_lookup_total_lt.
  - rewrite lookup_ge_None_2 by lia.
    destruct (range (Z.of_nat (length l)) !! i) as [k|] eqn:Hk; [|done].
    apply lookup_range in Hk. lia.
Qed.

Lemma zip_with_fmap_same {X Y Z' W'} (f : Y -> Z' -> W') (g : X -> Y) (h : X -> Z') l :
  zip_with f (g <$> l) (h <$> l) = (fun x => f (g x) (h x)) <$> l.
Proof. induction l as [|x l IH]; [done|]. rewrite !fmap_cons. simpl. by f_equal. Qed.

Lemma at2_row (a : list (list A)) i n :
  0 <= i < Z.of_nat (length a) ->
  at2 a i n = default zero (item (a !!! Z.to_nat i) n).
Proof.
  intros Hi. unfold at2. rewrite item_nonneg by done.
  rewrite (list_lookup_lookup_total_lt a (Z.to_nat i)) by lia. done.
Qed.

Lemma at2_lookup (a : list (list A)) (r : list A) i n x :
  0 <= i -> 0 <= n ->
  a !! Z.to_nat i = Some r -> r !! Z.to_nat n = Some x -> at2 a i n = x.
Proof.
  intros Hi Hn Hr Hx. unfold at2.
  rewrite (proj2 (item_nonneg_Some a i r Hi) Hr). simpl.
  by rewrite (proj2 (item_nonneg_Some r n x Hn) Hx).
Qed.

Lemma col_fmap {X} (f : X -> list A) (l : list X) n :
  col n (f <$> l) = (fun x => default zero (item (f x) n)) <$> l.
Proof. unfold col. by rewrite <- list_fmap_compose. Qed.

Lemma item_const_row {X} (r : list X) (x : A) n y :
  item ((fun _ => x) <$> r) n = Some y -> y = x.
Proof.
  unfold item. destruct (norm_index _ n) as [i|]; [|done]. simpl.
  rewrite list_lookup_fmap. destruct (r !! i); [|done]. by intros [= <-].
Qed.

Lemma default_item_const_row {X} (r : list X) n :
  default zero (item ((fun _ => zero) <$> r) n) = zero.
Proof.
  destruct (item ((fun _ => zero) <$> r) n) as [y|] eqn:Hy; [|done].
  simpl. by eapply item_const_row.
Qed.

(** A sum all of whose terms are 0. *)
Lemma sumA_zero (l : list A) :
  add zero zero = zero -> Forall (fun x => x = zero) l -> sumA l = zero.
Proof.
  intros H0 Hl. induction Hl as [|x l -> _ IH]; [done|].
  unfold sumA in *. simpl. by rewrite IH.
Qed.

Lemma lookup_vadd (u v : list A) (n : nat) a b :
  u !! n = Some a -> v !! n = Some b -> vadd u v !! n = Some (add a b).
Proof. intros Hu Hv. unfold vadd. by rewrite lookup_zip_with, Hu, Hv. Qed.

Lemma length_vadd (u v : list A) :
  length u = length v -> length (vadd u v) = length u.
Proof. intros Hl. unfold vadd. rewrite length_zip_with. lia. Qed.

End Elements.

(** ** The reference convolution *)

(** Every row below a*b*c*d is the row of a position in bounds. *)
Lemma flat_index_surj a b c d i :
  0 <= a -> 0 <= b -> 0 <= c -> 0 <= d -> 0 <= i < a * b * c * d ->
  exists k m p q, in_bounds a b c d k m p q = true /\ flat_index b c d k m p q = i.
Proof.
  intros Ha Hb Hc Hd Hi.
  assert (Hin : i ∈ range (a * b * c * d)) by (by apply elem_of_range).
  rewrite <- (tap_pos_taps4 a b c d) in Hin by done.
  apply list_elem_of_fmap in Hin as ([[[k m] p] q] & -> & Hin).
  apply elem_of_taps4 in Hin. exists k, m, p, q. split; [|done].
  unfold in_bounds. lia.
Qed.

Section ConvReference.
Context {A : Type} {NA : Numeric A}.
Variables (N C K D H W T R S_ M P Q : Z).
Variables (pad_d pad_h pad_w str_d str_h str_w : Z).
Hypotheses (HN : 0 <= N) (HC : 0 <= C) (HK : 0 <= K).
Hypotheses (HD : 0 <= D) (HH : 0 <= H) (HW : 0 <= W).
Hypotheses (HT : 0 <= T) (HR : 0 <= R) (HS : 0 <= S_).
Hypotheses (HM : 0 <= M) (HP : 0 <= P) (HQ : 0 <= Q).

Local Abbreviation conv :=
  (Conv.Build_ConvLayer N C K (D, H, W) (T, R, S_) (M, P, Q)
     (pad_d, pad_h, pad_w) (str_d, str_h, str_w)
     [C; D; H; W; N] [C; T; R; S_; K] [K; M; P; Q; N]).

Variables (cpuI cpuF cpuE : list (list A)).
Hypothesis HlenI : Z.of_nat (length cpuI) = C * D * H * W + 1.
Hypothesis HlenF : Z.of_nat (length cpuF) = C * T * R * S_.
Hypothesis HlenE : Z.of_nat (length cpuE) = K * M * P * Q.

(** The rows the window (m,p,q) reads, the rows gathered for it, its
    output slice, its slice of the gradient, and the rows it adds. *)
Definition conv_idx (m p q : Z) : list Z :=
  window_indices C D H W C T R S_ 0
    (m * str_d - pad_d) (p * str_h - pad_h) (q * str_w - pad_w).
Definition conv_gather (m p q : Z) : list (list A) :=
  (fun i => cpuI !!! Z.to_nat i) <$> conv_idx m p q.
Definition conv_eslice (m p q : Z) : list (list A) :=
  (fun k => cpuE !!! Z.to_nat (row5 (M, P, Q) k m p q)) <$> range K.
Definition conv_out (m p q : Z) : list (list A) :=
  dot_tn K N cpuF (conv_gather m p q).
Definition conv_back (m p q : Z) : list (list A) :=
  dot_nn N cpuF (conv_eslice m p q).

(** What one window adds to the row of the input position (c,z,y,x). *)
Definition conv_back_row (c z y x : Z) (acc : list A) (w : Z * Z * Z) : list A :=
  let '(m, p, q) := w in
  match tap_at C T R S_ 0 (m * str_d - pad_d) (p * str_h - pad_h) (q * str_w - pad_w)
          c z y x with
  | Some pos => vadd acc (conv_back m p q !!! Z.to_nat pos)
  | None => acc
  end.

Lemma conv_idx_bounds m p q :
  Forall (fun i => 0 <= i < Z.of_nat (length cpuI)) (conv_idx m p q).
Proof.
  destruct (window_indices_safe (A:=A) C D H W C T R S_ 0
    (m * str_d - pad_d) (p * str_h - pad_h) (q * str_w - pad_w))
    as (_ & Hall & _); [done..|].
  eapply Forall_impl; [exact Hall|]. simpl. lia.
Qed.

Lemma length_conv_idx m p q : Z.of_nat (length (conv_idx m p q)) = C * T * R * S_.
Proof. by apply length_window_indices. Qed.

Lemma conv_window_step m p q (cpuO cpuB cpuU : list (list A)) :
  0 <= m < M -> 0 <= p < P -> 0 <= q < Q ->
  Z.of_nat (length cpuO) = K * M * P * Q ->
  Z.of_nat (length cpuB) = C * D * H * W + 1 ->
  exists cpuO' cpuB' cpuU',
    Conv.conv_window conv cpuI cpuF cpuE m p q (cpuO, cpuB, cpuU) =
      Some (cpuO', cpuB', cpuU') /\
    length cpuO' = length cpuO /\ length cpuB' = length cpuB /\
    (forall k, 0 <= k < K ->
       cpuO' !! Z.to_nat (row5 (M, P, Q) k m p q) = conv_out m p q !! Z.to_nat k) /\
    (forall k m' p' q', 0 <= k < K -> 0 <= m' < M -> 0 <= p' < P -> 0 <= q' < Q ->
       (m', p', q') <> (m, p, q) ->
       cpuO' !! Z.to_nat (row5 (M, P, Q) k m' p' q') =
       cpuO !! Z.to_nat (row5 (M, P, Q) k m' p' q')) /\
    (forall c z y x, in_bounds C D H W c z y x = true ->
       cpuB' !! Z.to_nat (flat_index D H W c z y x) =
       Some (conv_back_row c z y x (cpuB !!! Z.to_nat (flat_index D H W c z y x)) (m, p, q))).
Proof.
  intros Hm Hp Hq HlenO HlenB. unfold Conv.conv_window.
  cbn [Conv.padding Conv.strides Conv.conv_K Conv.conv_N Conv.MPQ].
  rewrite conv_pixel_indices_taps.
  cbn [Conv.TRS Conv.DHW Conv.conv_C]. fold (conv_idx m p q).
  rewrite take_rows_Some by apply conv_idx_bounds. fold (conv_gather m p q).
  cbn [mbind option_bind]. fold (conv_out m p q).
  destruct (set_slice_spec K M P Q cpuO (conv_out m p q) m p q)
    as (cpuO' & HO' & HlO & HOin & HOout); [done..| |].
  { unfold conv_out, dot_tn. rewrite length_fmap, length_range. lia. }
  rewrite HO'. cbn [mbind option_bind].
  rewrite get_slice_spec by done. fold (conv_eslice m p q). cbn [mbind option_bind].
  fold (conv_back m p q).
  destruct (iadd_rows_spec cpuB (conv_back m p q) (conv_idx m p q))
    as (cpuB' & HB' & HlB & HBout & HBin).
  { eapply Forall_impl; [apply conv_idx_bounds|]. simpl. lia. }
  { unfold conv_back, dot_nn. rewrite length_fmap.
    pose proof (length_conv_idx m p q). lia. }
  rewrite HB'. cbn [mbind option_bind].
  eexists _, _, _. split; [done|]. split; [done|]. split; [done|].
  split; [done|]. split; [done|].
  intros c z y x Hb.
  pose proof (flat_index_bounds _ _ _ _ _ _ _ _ Hb) as Hfb. unfold sentinel in Hfb.
  pose proof (window_indices_hit C D H W C T R S_ 0
    (m * str_d - pad_d) (p * str_h - pad_h) (q * str_w - pad_w) c z y x) as Hhit.
  unfold conv_back_row.
  destruct (tap_at C T R S_ 0 (m * str_d - pad_d) (p * str_h - pad_h)
              (q * str_w - pad_w) c z y x) as [pos|] eqn:Htap.
  - pose proof (tap_at_bounds _ _ _ _ _ _ _ _ _ _ _ _ _ HC HT HR HS Htap) as Hpos.
    apply HBin.
    + rewrite Z2Nat.id by lia. apply Hhit; [done..|]. f_equal. lia.
    + intros j'. rewrite Z2Nat.id by lia. intros Hj'.
      apply Hhit in Hj'; [|done..]. injection Hj' as Hj'. lia.
  - rewrite HBout.
    + apply list_lookup_lookup_total_lt. lia.
    + rewrite Z2Nat.id by lia. intros [j' Hj']%list_elem_of_lookup.
      apply Hhit in Hj'; [|done..]. done.
Qed.

(** The three window loops, from any state of the right sizes. *)
Lemma conv_loops (cpuO0 cpuB0 cpuU0 : list (list A)) :
  Z.of_nat (length cpuO0) = K * M * P * Q ->
  Z.of_nat (length cpuB0) = C * D * H * W + 1 ->
  exists cpuO cpuB cpuU,
    for_each (range M) (fun m st =>
      for_each (range P) (fun p st =>
        for_each (range Q) (fun q st =>
          Conv.conv_window conv cpuI cpuF cpuE m p q st) st) st)
      (cpuO0, cpuB0, cpuU0) = Some (cpuO, cpuB, cpuU) /\
    length cpuO = length cpuO0 /\ length cpuB = length cpuB0 /\
    (forall k m p q, 0 <= k < K -> 0 <= m < M -> 0 <= p < P -> 0 <= q < Q ->
       cpuO !! Z.to_nat (row5 (M, P, Q) k m p q) = conv_out m p q !! Z.to_nat k) /\
    (forall c z y x, in_bounds C D H W c z y x = true ->
       cpuB !! Z.to_nat (flat_index D H W c z y x) =
       Some (fold_left (conv_back_row c z y x) (windows3 M P Q)
               (cpuB0 !!! Z.to_nat (flat_index D H W c z y x)))).
Proof.
  intros HlenO HlenB.
  rewrite (for_each_windows3 M P Q
    (fun m p q st => Conv.conv_window conv cpuI cpuF cpuE m p q st)).
  set (Inv := fun (d : list (Z * Z * Z)) (st : list (list A) * list (list A) * list (list A)) =>
    let '(cpuO, cpuB, cpuU) := st in
    length cpuO = length cpuO0 /\ length cpuB = length cpuB0 /\
    (forall k m p q, 0 <= k < K -> 0 <= m < M -> 0 <= p < P -> 0 <= q < Q ->
       (m, p, q) ∈ d ->
       cpuO !! Z.to_nat (row5 (M, P, Q) k m p q) = conv_out m p q !! Z.to_nat k) /\
    (forall c z y x, in_bounds C D H W c z y x = true ->
       cpuB !! Z.to_nat (flat_index D H W c z y x) =
       Some (fold_left (conv_back_row c z y x) d
               (cpuB0 !!! Z.to_nat (flat_index D H W c z y x))))).
  destruct (for_each_inv Inv (fun '(m, p, q) => Conv.conv_window conv cpuI cpuF cpuE m p q)
              (windows3 M P Q) [] (cpuO0, cpuB0, cpuU0))
    as ([[cpuO cpuB] cpuU] & Hrun & HO & HB & HOv & HBv).
  - repeat split; [intros; by exfalso; eapply not_elem_of_nil|].
    intros c z y x Hb. simpl. apply list_lookup_lookup_total_lt.
    apply flat_index_bounds in Hb. unfold sentinel in Hb. lia.
  - intros d [[m p] q] [[cpuO cpuB] cpuU] Hin (HO & HB & HOv & HBv).
    apply elem_of_windows3 in Hin as (Hm & Hp & Hq).
    destruct (conv_window_step m p q cpuO cpuB cpuU)
      as (cpuO' & cpuB' & cpuU' & Hstep & HlO & HlB & HOin & HOout & HBrow);
      [done..|lia|lia|].
    exists (cpuO', cpuB', cpuU'). split; [done|].
    split; [lia|]. split; [lia|]. split.
    + intros k m' p' q' Hk Hm' Hp' Hq' Hin.
      destruct (decide ((m', p', q') = (m, p, q))) as [[= -> -> ->]|Hne].
      * by apply HOin.
      * rewrite HOout by done. apply HOv; [done..|].
        apply elem_of_app in Hin as [Hin|Hin%list_elem_of_singleton]; done.
    + intros c z y x Hb. rewrite HBrow by done.
      rewrite fold_left_app. cbn [fold_left].
      by rewrite (list_lookup_total_correct _ _ _ (HBv c z y x Hb)).
  - exists cpuO, cpuB, cpuU. split; [done|]. split; [done|]. split; [done|].
    split; [|done]. intros k m p q Hk Hm Hp Hq. apply HOv; [done..|].
    by apply elem_of_windows3.
Qed.

(** Elements of the output slice of a window. *)
Lemma conv_out_elem k m p q n :
  0 <= k < K -> 0 <= n < N ->
  exists row, conv_out m p q !! Z.to_nat k = Some row /\
    row !! Z.to_nat n = Some (vdot (col k cpuF) (col n (conv_gather m p q))).
Proof.
  intros Hk Hn. unfold conv_out, dot_tn. eexists. split.
  - rewrite list_lookup_fmap.
    by rewrite (proj2 (lookup_range K (Z.to_nat k) k)) by lia.
  - rewrite list_lookup_fmap.
    by rewrite (proj2 (lookup_range N (Z.to_nat n) n)) by lia.
Qed.

Lemma cpuF_as_taps :
  cpuF = (fun tap => cpuF !!! Z.to_nat (tap_pos T R S_ tap)) <$> taps4 C T R S_.
Proof.
  rewrite (list_as_range cpuF) at 1. rewrite HlenF.
  rewrite <- (tap_pos_taps4 C T R S_) by done.
  by rewrite <- list_fmap_compose.
Qed.

Lemma vdot_conv_gather k m p q n :
  0 <= k ->
  vdot (col k cpuF) (col n (conv_gather m p q)) =
  sumA ((fun '(c, t, r, s) =>
           mul (F5 cpuF T R S_ c t r s k)
             (default zero (item (cpuI !!! Z.to_nat
                (window_index C D H W (0 + c) (m * str_d - pad_d + t)
                   (p * str_h - pad_h + r) (q * str_w - pad_w + s))) n)))
        <$> taps4 C T R S_).
Proof.
  intros Hk. unfold vdot. f_equal.
  rewrite cpuF_as_taps at 1. unfold conv_gather, conv_idx, window_indices.
  rewrite <- list_fmap_compose, !col_fmap, zip_with_fmap_same.
  apply list_fmap_ext. intros _ [[[c t] r] s] Hin%list_elem_of_lookup_2.
  simpl. f_equal. unfold F5. symmetry. apply at2_row.
  apply elem_of_taps4 in Hin as (Hc & Ht & Hr & Hs).
  rewrite HlenF.
  apply (flat_index_bounds C T R S_ c t r s). unfold in_bounds. lia.
Qed.

Variable cpuI0 : list (list A).
Hypothesis HcpuI :
  cpuI = <[Z.to_nat (C * D * H * W) :=
            (fun _ => zero) <$> (cpuI0 !!! Z.to_nat (C * D * H * W))]> cpuI0.

Lemma length_cpuI0 : Z.of_nat (length cpuI0) = C * D * H * W + 1.
Proof. rewrite <- HlenI, HcpuI. by rewrite length_insert. Qed.

(** What a gathered row holds: the input row for a tap in bounds, zeros
    for a tap out of bounds. *)
Lemma gathered_value c z y x n :
  default zero (item (cpuI !!! Z.to_nat (window_index C D H W c z y x)) n) =
  tap_value cpuI0 zero C D H W c z y x n.
Proof.
  pose proof length_cpuI0 as Hl0.
  unfold window_index, tap_value. destruct (in_bounds C D H W c z y x) eqn:Hb.
  - apply flat_index_bounds in Hb. unfold sentinel in Hb.
    unfold I5. rewrite at2_row by lia. rewrite HcpuI.
    rewrite list_lookup_total_insert_ne by lia. done.
  - unfold sentinel. rewrite HcpuI.
    rewrite list_lookup_total_insert_eq by nia.
    apply default_item_const_row.
Qed.

Lemma conv_fprop_elem k m p q n :
  (forall x : A, mul x zero = zero) ->
  0 <= k ->
  vdot (col k cpuF) (col n (conv_gather m p q)) =
  conv_fprop_sum conv cpuI0 cpuF k m p q n.
Proof.
  intros Hmul0 Hk. rewrite vdot_conv_gather by done. unfold conv_fprop_sum.
  cbn [Conv.TRS Conv.DHW Conv.padding Conv.strides Conv.conv_C]. f_equal.
  apply list_fmap_ext. intros _ [[[c t] r] s] _. cbn zeta beta iota.
  rewrite gathered_value, Z.add_0_l. unfold tap_value.
  case_match; [done|apply Hmul0].
Qed.

Lemma conv_fprop_outside k m p q n :
  (forall x : A, mul x zero = zero) -> add zero zero = zero ->
  conv_window_outside conv m p q ->
  conv_fprop_sum conv cpuI0 cpuF k m p q n = zero.
Proof.
  intros Hmul0 Hadd0 Hout. unfold conv_fprop_sum, conv_window_outside in *.
  cbn [Conv.TRS Conv.DHW Conv.padding Conv.strides Conv.conv_C] in *.
  apply sumA_zero; [done|]. apply Forall_fmap, Forall_forall.
  intros [[[c t] r] s] (Hc & Ht & Hr & Hs)%elem_of_taps4. simpl.
  by rewrite Hout.
Qed.

Hypothesis HrowF : Forall (fun r => Z.of_nat (length r) = K) cpuF.

(** One row of what a window adds, element by element. *)
Lemma conv_back_elem m p q pos n :
  0 <= m < M -> 0 <= p < P -> 0 <= q < Q ->
  0 <= pos < C * T * R * S_ -> 0 <= n < N ->
  exists row, conv_back m p q !! Z.to_nat pos = Some row /\
    length row = Z.to_nat N /\
    row !! Z.to_nat n =
    Some (sumA ((fun k => mul (at2 cpuF pos k) (E5 cpuE (M, P, Q) k m p q n)) <$> range K)).
Proof.
  intros Hm Hp Hq Hpos Hn. unfold conv_back, dot_nn.
  assert (Hfr : cpuF !! Z.to_nat pos = Some (cpuF !!! Z.to_nat pos))
    by (apply list_lookup_lookup_total_lt; lia).
  set (fr := cpuF !!! Z.to_nat pos) in *.
  assert (Hlfr : Z.of_nat (length fr) = K)
    by (by eapply (proj1 (Forall_lookup _ _) HrowF)).
  eexists. split; [by rewrite list_lookup_fmap, Hfr|].
  split; [by rewrite length_fmap, length_range|].
  rewrite list_lookup_fmap.
  rewrite (proj2 (lookup_range N (Z.to_nat n) n)) by lia. simpl. f_equal.
  unfold vdot. f_equal. unfold conv_eslice. rewrite col_fmap.
  rewrite (list_as_range fr) at 1. rewrite Hlfr, zip_with_fmap_same.
  apply list_fmap_ext. intros _ k Hk%list_elem_of_lookup_2%elem_of_range.
  f_equal.
  - unfold at2. rewrite item_nonneg by lia. rewrite Hfr. simpl.
    rewrite item_nonneg by lia.
    by rewrite (list_lookup_lookup_total_lt fr (Z.to_nat k)) by lia.
  - unfold E5. symmetry. apply at2_row. rewrite HlenE. by apply row5_bounds.
Qed.

(** The rows added to an input position, element by element. *)
Lemma conv_back_row_elem c z y x n (ws : list (Z * Z * Z)) :
  in_bounds C D H W c z y x = true -> 0 <= n < N ->
  Forall (fun '(m, p, q) => 0 <= m < M /\ 0 <= p < P /\ 0 <= q < Q) ws ->
  forall (acc : list A) (a : A),
  length acc = Z.to_nat N -> acc !! Z.to_nat n = Some a ->
  length (fold_left (conv_back_row c z y x) ws acc) = Z.to_nat N /\
  fold_left (conv_back_row c z y x) ws acc !! Z.to_nat n =
  Some (fold_left (fun acc '(m, p, q) =>
      let t := z - (m * str_d - pad_d) in
      let r := y - (p * str_h - pad_h) in
      let s := x - (q * str_w - pad_w) in
      if (0 <=? t) && (t <? T) && (0 <=? r) && (r <? R) && (0 <=? s) && (s <? S_)
      then add acc (sumA ((fun k => mul (F5 cpuF T R S_ c t r s k)
                                        (E5 cpuE (M, P, Q) k m p q n))
                            <$> range K))
      else acc) ws a).
Proof.
  intros Hb Hn Hws. induction Hws as [|[[m p] q] ws (Hm & Hp & Hq) _ IH];
    intros acc a Hlen Ha; [done|].
  cbn [fold_left]. cbn zeta beta iota.
  assert (Hc : 0 <= c < C) by (unfold in_bounds in Hb; lia).
  unfold conv_back_row at 2 4. unfold tap_at.
  replace (0 <=? c - 0) with true by lia. replace (c - 0 <? C) with true by lia.
  rewrite !andb_true_l, Z.sub_0_r.
  set (t := z - (m * str_d - pad_d)). set (r := y - (p * str_h - pad_h)).
  set (s := x - (q * str_w - pad_w)).
  destruct ((0 <=? t) && (t <? T) && (0 <=? r) && (r <? R) && (0 <=? s) && (s <? S_))
    eqn:Hcond; [|by apply IH].
  assert (Hpos : 0 <= tap_pos T R S_ (c, t, r, s) < C * T * R * S_).
  { apply (flat_index_bounds C T R S_ c t r s). unfold in_bounds. lia. }
  destruct (conv_back_elem m p q _ n Hm Hp Hq Hpos Hn) as (row & Hrow & Hlrow & Hrn).
  rewrite (list_lookup_total_correct _ _ _ Hrow).
  apply IH.
  - rewrite length_vadd; lia.
  - by apply lookup_vadd.
Qed.

(** The whole numpy computation of [test_conv_layer]. *)
Lemma conv_numpy_result :
  exists cpuO cpuB cpuU,
    Conv.conv_numpy conv cpuI0 cpuF cpuE = Some (cpuO, cpuB, cpuU) /\
    Z.of_nat (length cpuB) = C * D * H * W + 1 /\
    (forall k m p q n, 0 <= k < K -> 0 <= m < M -> 0 <= p < P -> 0 <= q < Q ->
       0 <= n < N ->
       E5 cpuO (M, P, Q) k m p q n =
       vdot (col k cpuF) (col n (conv_gather m p q))) /\
    (forall c z y x n, in_bounds C D H W c z y x = true -> 0 <= n < N ->
       I5 cpuB D H W c z y x n = conv_bprop_sum conv cpuF cpuE c z y x n).
Proof.
  pose proof length_cpuI0 as Hl0.
  unfold Conv.conv_numpy.
  rewrite (fill_row_last cpuI0 zero (C * D * H * W)) by (done || nia).
  rewrite <- HcpuI. cbn [mbind option_bind].
  cbn [Conv.dimO Conv.dimI Conv.dimF Conv.MPQ].
  set (cpuO0 := zeros (sliceable [K; M; P; Q; N] 0)).
  set (cpuB0 := zeros (sliceable [C; D; H; W; N] 1)).
  set (cpuU0 := zeros (sliceable [C; T; R; S_; K] 0)).
  assert (HlO : Z.of_nat (length cpuO0) = K * M * P * Q).
  { unfold cpuO0, sliceable. cbn. rewrite length_zeros. nia. }
  assert (HlB : Z.of_nat (length cpuB0) = C * D * H * W + 1).
  { unfold cpuB0, sliceable. cbn. rewrite length_zeros. nia. }
  destruct (conv_loops cpuO0 cpuB0 cpuU0 HlO HlB)
    as (cpuO & cpuB & cpuU & Hrun & HO & HB & HOv & HBv).
  exists cpuO, cpuB, cpuU. split; [done|]. split; [lia|]. split.
  - intros k m p q n Hk Hm Hp Hq Hn.
    destruct (conv_out_elem k m p q n Hk Hn) as (row & Hrow & Hrn).
    pose proof (row5_bounds K M P Q k m p q Hk Hm Hp Hq) as Hb.
    unfold E5. eapply at2_lookup; [lia|lia| |done].
    rewrite HOv by done. done.
  - intros c z y x n Hb Hn.
    pose proof (flat_index_bounds _ _ _ _ _ _ _ _ Hb) as Hfb. unfold sentinel in Hfb.
    assert (Hz : cpuB0 !!! Z.to_nat (flat_index D H W c z y x) =
                 replicate (Z.to_nat N) (zero (A:=A))).
    { apply list_lookup_total_correct. unfold cpuB0, sliceable. cbn.
      apply lookup_zeros. lia. }
    destruct (conv_back_row_elem c z y x n (windows3 M P Q) Hb Hn) with
      (acc := cpuB0 !!! Z.to_nat (flat_index D H W c z y x)) (a := zero (A:=A))
      as [_ Hres].
    + apply Forall_forall. intros [[m p] q]. apply elem_of_windows3.
    + by rewrite Hz, length_replicate.
    + rewrite Hz. apply lookup_replicate_2. lia.
    + unfold I5, conv_bprop_sum.
      cbn [Conv.TRS Conv.padding Conv.strides Conv.MPQ Conv.conv_K].
      eapply at2_lookup; [lia|lia|by apply HBv|done].
Qed.

(** *** The filter gradient [cpuU] *)

Hypothesis HrowI0 : Forall (fun r => Z.of_nat (length r) = N) cpuI0.
Hypothesis HrowE : Forall (fun r => Z.of_nat (length r) = N) cpuE.

(** What the window (m,p,q) adds to cpuU. *)
Definition conv_upd (m p q : Z) : list (list A) :=
  dot_nt (conv_gather m p q) (conv_eslice m p q).

Lemma conv_window_U m p q cpuO cpuB cpuU cpuO' cpuB' cpuU' :
  0 <= m < M -> 0 <= p < P -> 0 <= q < Q ->
  Conv.conv_window conv cpuI cpuF cpuE m p q (cpuO, cpuB, cpuU) =
    Some (cpuO', cpuB', cpuU') ->
  cpuU' = iadd cpuU (conv_upd m p q).
Proof.
  intros Hm Hp Hq. unfold Conv.conv_window.
  cbn [Conv.padding Conv.strides Conv.conv_K Conv.conv_N Conv.MPQ].
  rewrite conv_pixel_indices_taps.
  cbn [Conv.TRS Conv.DHW Conv.conv_C]. fold (conv_idx m p q).
  rewrite take_rows_Some by apply conv_idx_bounds. fold (conv_gather m p q).
  cbn [mbind option_bind].
  destruct (set_slice K (M, P, Q) cpuO m p q _) as [cpuO1|]; [|done].
  cbn [mbind option_bind].
  rewrite get_slice_spec by done. fold (conv_eslice m p q). cbn [mbind option_bind].
  destruct (iadd_rows cpuB (conv_idx m p q) _) as [cpuB1|]; [|done].
  cbn [mbind option_bind]. by intros [= _ _ <-].
Qed.

Lemma conv_loops_U (ws : list (Z * Z * Z)) :
  Forall (fun '(m, p, q) => 0 <= m < M /\ 0 <= p < P /\ 0 <= q < Q) ws ->
  forall st st',
  for_each ws (fun '(m, p, q) => Conv.conv_window conv cpuI cpuF cpuE m p q) st = Some st' ->
  st'.2 = fold_left (fun cpuU '(m, p, q) => iadd cpuU (conv_upd m p q)) ws st.2.
Proof.
  induction 1 as [|[[m p] q] ws (Hm & Hp & Hq) _ IH]; intros st st' Hrun.
  - by injection Hrun as <-.
  - cbn [for_each] in Hrun.
    destruct (Conv.conv_window conv cpuI cpuF cpuE m p q st) as [st1|] eqn:Hstep; [|done].
    destruct st as [[cpuO cpuB] cpuU], st1 as [[cpuO1 cpuB1] cpuU1].
    apply conv_window_U in Hstep; [|done..]. subst cpuU1.
    by rewrite (IH _ _ Hrun).
Qed.

Lemma zip_with_as_range {Y} (f : A -> A -> Y) (u v : list A) n :
  Z.of_nat (length u) = n -> Z.of_nat (length v) = n ->
  zip_with f u v =
  (fun i => f (default zero (item u i)) (default zero (item v i))) <$> range n.
Proof.
  intros Hu Hv.
  rewrite (list_as_range u) at 1. rewrite (list_as_range v) at 1.
  rewrite Hu, Hv, zip_with_fmap_same.
  apply list_fmap_ext. intros _ i Hi%list_elem_of_lookup_2%elem_of_range.
  rewrite !item_nonneg by lia.
  by rewrite (list_lookup_lookup_total_lt u), (list_lookup_lookup_total_lt v) by lia.
Qed.

Lemma cpuI_rows : Forall (fun r => Z.of_nat (length r) = N) cpuI.
Proof.
  rewrite HcpuI. apply Forall_insert; [done|].
  rewrite length_fmap.
  pose proof length_cpuI0 as Hl0.
  eapply (proj1 (Forall_lookup _ _) HrowI0).
  apply list_lookup_lookup_total_lt. nia.
Qed.

(** The term the window (m,p,q) adds to cpuU[c,t,r,s,k]. *)
Definition conv_upd_term (c t r s k m p q : Z) : A :=
  sumA ((fun n => mul (tap_value cpuI0 zero C D H W c (m * str_d - pad_d + t)
                         (p * str_h - pad_h + r) (q * str_w - pad_w + s) n)
                      (E5 cpuE (M, P, Q) k m p q n)) <$> range N).

Lemma conv_upd_elem m p q c t r s k :
  0 <= m < M -> 0 <= p < P -> 0 <= q < Q ->
  0 <= c < C -> 0 <= t < T -> 0 <= r < R -> 0 <= s < S_ -> 0 <= k < K ->
  exists row, conv_upd m p q !! Z.to_nat (tap_pos T R S_ (c, t, r, s)) = Some row /\
    Z.of_nat (length row) = K /\
    row !! Z.to_nat k = Some (conv_upd_term c t r s k m p q).
Proof.
  intros Hm Hp Hq Hc Ht Hr Hs Hk.
  assert (Hpos : 0 <= tap_pos T R S_ (c, t, r, s) < C * T * R * S_).
  { apply (flat_index_bounds C T R S_ c t r s). unfold in_bounds. lia. }
  set (i := window_index C D H W (0 + c) (m * str_d - pad_d + t)
              (p * str_h - pad_h + r) (q * str_w - pad_w + s)).
  assert (Hidx : conv_idx m p q !! Z.to_nat (tap_pos T R S_ (c, t, r, s)) = Some i).
  { apply lookup_window_indices; [done..|].
    exists c, t, r, s. repeat split; try lia. }
  assert (Hi : 0 <= i < Z.of_nat (length cpuI)).
  { pose proof (conv_idx_bounds m p q) as Hall.
    by eapply (proj1 (Forall_lookup _ _) Hall). }
  assert (Hgr : Z.of_nat (length (cpuI !!! Z.to_nat i)) = N).
  { eapply (proj1 (Forall_lookup _ _) cpuI_rows).
    apply list_lookup_lookup_total_lt. lia. }
  pose proof (row5_bounds K M P Q k m p q Hk Hm Hp Hq) as Hrow5.
  assert (Her : Z.of_nat (length (cpuE !!! Z.to_nat (row5 (M, P, Q) k m p q))) = N).
  { eapply (proj1 (Forall_lookup _ _) HrowE).
    apply list_lookup_lookup_total_lt. lia. }
  unfold conv_upd, dot_nt, conv_gather.
  rewrite list_lookup_fmap, list_lookup_fmap, Hidx. cbn [fmap option_fmap option_map].
  eexists. split; [done|]. split.
  { unfold conv_eslice. by rewrite !length_fmap, length_range; lia. }
  unfold conv_eslice. rewrite <- list_fmap_compose, list_lookup_fmap.
  rewrite (proj2 (lookup_range K (Z.to_nat k) k)) by lia.
  cbn [fmap option_fmap option_map compose]. f_equal.
  unfold vdot, conv_upd_term. f_equal.
  rewrite (zip_with_as_range mul _ _ N Hgr Her).
  apply list_fmap_ext. intros _ n _. f_equal.
  - subst i. rewrite gathered_value. by rewrite Z.add_0_l.
  - unfold E5. symmetry. apply at2_row. lia.
Qed.

Lemma length_conv_upd m p q :
  Z.of_nat (length (conv_upd m p q)) = C * T * R * S_.
Proof.
  unfold conv_upd, dot_nt, conv_gather. rewrite !length_fmap. apply length_conv_idx.
Qed.

Lemma conv_upd_rows m p q :
  Forall (fun r => Z.of_nat (length r) = K) (conv_upd m p q).
Proof.
  unfold conv_upd, dot_nt. apply Forall_fmap, Forall_forall. intros gr _. simpl.
  unfold conv_eslice. rewrite !length_fmap, length_range. lia.
Qed.

(** The accumulated cpuU keeps its shape. *)
Lemma conv_U_shape (ws : list (Z * Z * Z)) (cpuU : list (list A)) :
  has_shape cpuU (C * T * R * S_, K) ->
  has_shape (fold_left (fun cpuU '(m, p, q) => iadd cpuU (conv_upd m p q)) ws cpuU)
    (C * T * R * S_, K).
Proof.
  revert cpuU. induction ws as [|[[m p] q] ws IH]; intros cpuU HU; [done|].
  cbn [fold_left]. apply IH. destruct HU as [HlU HrU]. cbn [fst snd] in *.
  split; cbn [fst snd].
  - unfold iadd. rewrite length_zip_with. pose proof (length_conv_upd m p q). lia.
  - unfold iadd. apply Forall_lookup. intros j row Hj.
    apply lookup_zip_with_Some in Hj as (u & x & -> & Hu & Hx).
    pose proof (proj1 (Forall_lookup _ _) HrU _ _ Hu) as Hlu.
    pose proof (proj1 (Forall_lookup _ _) (conv_upd_rows m p q) _ _ Hx) as Hlx.
    cbn beta in Hlu, Hlx. rewrite length_vadd; lia.
Qed.

(** The accumulated cpuU, element by element. *)
Lemma conv_U_elem c t r s k (ws : list (Z * Z * Z)) :
  0 <= c < C -> 0 <= t < T -> 0 <= r < R -> 0 <= s < S_ -> 0 <= k < K ->
  Forall (fun '(m, p, q) => 0 <= m < M /\ 0 <= p < P /\ 0 <= q < Q) ws ->
  forall (cpuU : list (list A)) (row : list A) (a : A),
  cpuU !! Z.to_nat (tap_pos T R S_ (c, t, r, s)) = Some row ->
  row !! Z.to_nat k = Some a ->
  exists row',
    fold_left (fun cpuU '(m, p, q) => iadd cpuU (conv_upd m p q)) ws cpuU
      !! Z.to_nat (tap_pos T R S_ (c, t, r, s)) = Some row' /\
    row' !! Z.to_nat k =
    Some (fold_left (fun acc '(m, p, q) => add acc (conv_upd_term c t r s k m p q)) ws a).
Proof.
  intros Hc Ht Hr Hs Hk Hws.
  induction Hws as [|[[m p] q] ws (Hm & Hp & Hq) _ IH]; intros cpuU row a Hrow Ha.
  - by exists row.
  - cbn [fold_left].
    destruct (conv_upd_elem m p q c t r s k) as (x & Hx & _ & Hxk); [done..|].
    eapply IH.
    + unfold iadd. rewrite lookup_zip_with, Hrow, Hx. done.
    + by apply lookup_vadd.
Qed.

(** The filter gradient of the numpy computation of [test_conv_layer]. *)
Lemma conv_numpy_U cpuO cpuB cpuU :
  Conv.conv_numpy conv cpuI0 cpuF cpuE = Some (cpuO, cpuB, cpuU) ->
  has_shape cpuU (C * T * R * S_, K) /\
  forall c t r s k,
    0 <= c < C -> 0 <= t < T -> 0 <= r < R -> 0 <= s < S_ -> 0 <= k < K ->
    F5 cpuU T R S_ c t r s k =
    fold_left (fun acc '(m, p, q) => add acc (conv_upd_term c t r s k m p q))
      (windows3 M P Q) zero.
Proof.
  pose proof length_cpuI0 as Hl0.
  unfold Conv.conv_numpy.
  rewrite (fill_row_last cpuI0 zero (C * D * H * W)) by (done || nia).
  rewrite <- HcpuI. cbn [mbind option_bind].
  cbn [Conv.dimO Conv.dimI Conv.dimF Conv.MPQ].
  rewrite (for_each_windows3 M P Q
    (fun m p q st => Conv.conv_window conv cpuI cpuF cpuE m p q st)).
  intros Hrun.
  assert (Hws : Forall (fun '(m, p, q) => 0 <= m < M /\ 0 <= p < P /\ 0 <= q < Q)
                  (windows3 M P Q)).
  { apply Forall_forall. intros [[m p] q]. apply elem_of_windows3. }
  assert (Hrun' : for_each (windows3 M P Q)
            (fun '(m, p, q) => Conv.conv_window conv cpuI cpuF cpuE m p q)
            (zeros (sliceable [K; M; P; Q; N] 0), zeros (sliceable [C; D; H; W; N] 1),
             zeros (sliceable [C; T; R; S_; K] 0)) = Some (cpuO, cpuB, cpuU)).
  { etrans; [|exact Hrun]. apply for_each_ext. by intros [[m p] q] st _. }
  apply (conv_loops_U _ Hws) in Hrun'. cbn [snd] in Hrun'. subst cpuU.
  assert (HsU : sliceable [C; T; R; S_; K] 0 = (C * T * R * S_, K))
    by (unfold sliceable; cbn; f_equal; lia).
  rewrite HsU.
  assert (HU0 : has_shape (A:=A) (zeros (C * T * R * S_, K)) (C * T * R * S_, K)).
  { split; cbn [fst snd].
    - rewrite length_zeros. nia.
    - unfold zeros. cbn [fst snd]. apply Forall_replicate.
      rewrite length_replicate. lia. }
  split; [by apply conv_U_shape|].
  intros c t r s k Hc Ht Hr Hs Hk.
  assert (Hpos : 0 <= tap_pos T R S_ (c, t, r, s) < C * T * R * S_).
  { apply (flat_index_bounds C T R S_ c t r s). unfold in_bounds. lia. }
  assert (Hrow : zeros (A:=A) (C * T * R * S_, K)
                  !! Z.to_nat (tap_pos T R S_ (c, t, r, s)) =
                Some (replicate (Z.to_nat K) zero))
    by (apply lookup_zeros; lia).
  assert (Ha : replicate (Z.to_nat K) (zero (A:=A)) !! Z.to_nat k = Some zero)
    by (apply lookup_replicate_2; lia).
  destruct (conv_U_elem c t r s k (windows3 M P Q) Hc Ht Hr Hs Hk Hws _ _ _ Hrow Ha)
    as (row' & Hrow' & Ha').
  unfold F5. eapply at2_lookup; [lia|lia|exact Hrow'|exact Ha'].
Qed.

(** *** Shapes of cpuO and cpuB *)

Lemma length_conv_out_row m p q row :
  row ∈ conv_out m p q -> Z.of_nat (length row) = N.
Proof.
  unfold conv_out, dot_tn. intros (k & -> & _)%list_elem_of_fmap.
  rewrite length_fmap, length_range. lia.
Qed.

Lemma conv_back_row_length c z y x (ws : list (Z * Z * Z)) :
  in_bounds C D H W c z y x = true ->
  forall acc : list A, Z.of_nat (length acc) = N ->
  Z.of_nat (length (fold_left (conv_back_row c z y x) ws acc)) = N.
Proof.
  intros Hb. induction ws as [|[[m p] q] ws IH]; intros acc Hacc; [done|].
  cbn [fold_left]. apply IH. unfold conv_back_row.
  destruct (tap_at C T R S_ 0 (m * str_d - pad_d) (p * str_h - pad_h)
              (q * str_w - pad_w) c z y x) as [pos|] eqn:Htap; [|done].
  pose proof (tap_at_bounds _ _ _ _ _ _ _ _ _ _ _ _ _ HC HT HR HS Htap) as Hpos.
  assert (Hrow : Z.of_nat (length (conv_back m p q !!! Z.to_nat pos)) = N).
  { unfold conv_back, dot_nn.
    destruct (lookup_lt_is_Some_2 cpuF (Z.to_nat pos)) as [fr Hfr]; [lia|].
    rewrite (list_lookup_total_correct _ _ (map (fun nn => vdot fr (col nn (conv_eslice m p q)))
                                               (range N)))
      by (by rewrite list_lookup_fmap, Hfr).
    rewrite length_map, length_range. lia. }
  rewrite length_vadd; lia.
Qed.

Lemma conv_numpy_shapes cpuO cpuB cpuU :
  Conv.conv_numpy conv cpuI0 cpuF cpuE = Some (cpuO, cpuB, cpuU) ->
  has_shape cpuO (K * M * P * Q, N) /\
  has_shape (but_last cpuB) (C * D * H * W, N).
Proof.
  pose proof length_cpuI0 as Hl0.
  unfold Conv.conv_numpy.
  rewrite (fill_row_last cpuI0 zero (C * D * H * W)) by (done || nia).
  rewrite <- HcpuI. cbn [mbind option_bind].
  cbn [Conv.dimO Conv.dimI Conv.dimF Conv.MPQ].
  set (cpuO0 := zeros (sliceable [K; M; P; Q; N] 0)).
  set (cpuB0 := zeros (sliceable [C; D; H; W; N] 1)).
  set (cpuU0 := zeros (sliceable [C; T; R; S_; K] 0)).
  assert (HlO : Z.of_nat (length cpuO0) = K * M * P * Q).
  { unfold cpuO0, sliceable. cbn. rewrite length_zeros. nia. }
  assert (HlB : Z.of_nat (length cpuB0) = C * D * H * W + 1).
  { unfold cpuB0, sliceable. cbn. rewrite length_zeros. nia. }
  destruct (conv_loops cpuO0 cpuB0 cpuU0 HlO HlB)
    as (cpuO' & cpuB' & cpuU' & Hrun & HO & HB & HOv & HBv).
  rewrite Hrun. intros [= <- <- <-].
  assert (Hnn : 0 <= C * D * H * W) by nia.
  split; split; cbn [fst snd].
  - lia.
  - apply Forall_lookup. intros i row Hrow.
    pose proof (lookup_lt_Some _ _ _ Hrow) as Hi.
    destruct (flat_index_surj K M P Q (Z.of_nat i)) as (k & m & p & q & Hb & Hfl);
      [done..|lia|].
    unfold in_bounds in Hb. rewrite <- row5_flat_index in Hfl.
    specialize (HOv k m p q ltac:(lia) ltac:(lia) ltac:(lia) ltac:(lia)).
    rewrite Hfl, Nat2Z.id, Hrow in HOv.
    apply (length_conv_out_row m p q). by eapply list_elem_of_lookup_2.
  - unfold but_last. rewrite length_take_le by lia. lia.
  - apply Forall_lookup. intros i row Hrow. unfold but_last in Hrow.
    pose proof (lookup_lt_Some _ _ _ Hrow) as Hi. rewrite length_take in Hi.
    rewrite lookup_take_lt in Hrow by lia.
    destruct (flat_index_surj C D H W (Z.of_nat i)) as (c & z & y & x & Hb & Hfl);
      [done..|lia|].
    specialize (HBv c z y x Hb). rewrite Hfl, Nat2Z.id, Hrow in HBv.
    injection HBv as ->. apply conv_back_row_length; [done|].
    assert (Hz : cpuB0 !! i = Some (replicate (Z.to_nat N) (zero (A:=A)))).
    { unfold cpuB0, sliceable. cbn. apply lookup_zeros. lia. }
    rewrite (list_lookup_total_correct _ _ _ Hz), length_replicate. lia.
Qed.

End ConvReference.

Section ConvTheorems.
Context {A : Type} {NA : Numeric A}.

Lemma at2_but_last (a : list (list A)) i n :
  0 <= i < Z.of_nat (length a) - 1 -> at2 (but_last a) i n = at2 a i n.
Proof.
  intros Hi. unfold at2, but_last.
  rewrite !item_nonneg by (rewrite ?length_take; lia).
  by rewrite lookup_take_lt by lia.
Qed.

Lemma sliceable5 (a b c d e pad : Z) :
  sliceable [a; b; c; d; e] pad = (a * b * c * d + pad, e).
Proof. unfold sliceable. cbn. f_equal. lia. Qed.

Lemma has_shape_length (a : list (list A)) r c :
  has_shape a (r, c) -> Z.of_nat (length a) = r.
Proof. by intros [Hl _]. Qed.

Lemma has_shape_rows (a : list (list A)) r c :
  has_shape a (r, c) -> Forall (fun row => Z.of_nat (length row) = c) a.
Proof. by intros [_ Hr]. Qed.

(** The numpy computation of [test_conv_layer] returns, with the
    forward result as a sum over the gathered window and the backward
    result in closed form. *)
Lemma conv_reference_result (conv : Conv.ConvLayer) (cpuI0 cpuF cpuE : list (list A)) :
  Conv.conv_shapes conv ->
  has_shape cpuI0 (sliceable (Conv.dimI conv) 1) ->
  has_shape cpuF (sliceable (Conv.dimF conv) 0) ->
  has_shape cpuE (sliceable (Conv.dimO conv) 0) ->
  let '(D, H, W) := Conv.DHW conv in
  let '(M, P, Q) := Conv.MPQ conv in
  let C := Conv.conv_C conv in
  exists cpuI cpuO cpuB cpuU,
    fill_row cpuI0 (-1) zero = Some cpuI /\
    (forall n, at2 cpuI (C * D * H * W) n = zero) /\
    Conv.conv_numpy conv cpuI0 cpuF cpuE = Some (cpuO, cpuB, cpuU) /\
    Z.of_nat (length cpuB) = C * D * H * W + 1 /\ 0 <= C * D * H * W /\
    (forall k m p q n, 0 <= k < Conv.conv_K conv -> 0 <= m < M -> 0 <= p < P ->
       0 <= q < Q -> 0 <= n < Conv.conv_N conv ->
       (forall x : A, mul x zero = zero) ->
       E5 cpuO (M, P, Q) k m p q n = conv_fprop_sum conv cpuI0 cpuF k m p q n) /\
    (forall c z y x n, in_bounds C D H W c z y x = true -> 0 <= n < Conv.conv_N conv ->
       I5 cpuB D H W c z y x n = conv_bprop_sum conv cpuF cpuE c z y x n).
Proof.
  destruct conv as [N C K [[D H] W] [[T R] S_] [[M P] Q] [[pad_d pad_h] pad_w]
                      [[str_d str_h] str_w] dI dF dO].
  unfold Conv.conv_shapes.
  cbn [Conv.conv_N Conv.conv_C Conv.conv_K Conv.DHW Conv.TRS Conv.MPQ
       Conv.dimI Conv.dimF Conv.dimO].
  intros (-> & -> & -> & HN & HC & HK & HD & HH & HW & HT & HR & HS & HM & HP & HQ).
  rewrite !sliceable5, !Z.add_0_r.
  intros HsI HsF HsE.
  pose proof (has_shape_length _ _ _ HsI) as HlI.
  pose proof (has_shape_length _ _ _ HsF) as HlF.
  pose proof (has_shape_length _ _ _ HsE) as HlE.
  pose proof (has_shape_rows _ _ _ HsF) as HrF.
  set (cpuI := <[Z.to_nat (C * D * H * W) :=
                  (fun _ => zero) <$> (cpuI0 !!! Z.to_nat (C * D * H * W))]> cpuI0).
  assert (HlI' : Z.of_nat (length cpuI) = C * D * H * W + 1)
    by (unfold cpuI; by rewrite length_insert).
  destruct (conv_numpy_result N C K D H W T R S_ M P Q pad_d pad_h pad_w
              str_d str_h str_w HC HK HD HH HW HT HR HS cpuI cpuF cpuE
              HlI' HlF HlE cpuI0 eq_refl HrF)
    as (cpuO & cpuB & cpuU & Hrun & HlB & HOv & HBv).
  exists cpuI, cpuO, cpuB, cpuU.
  split; [apply fill_row_last; [done|nia]|].
  split.
  { intros n. rewrite at2_row by nia. unfold cpuI.
    rewrite list_lookup_total_insert_eq by nia. apply default_item_const_row. }
  split; [exact Hrun|]. split; [exact HlB|]. split; [nia|]. split; [|exact HBv].
  intros k m p q n Hk Hm Hp Hq Hn Hmul0. rewrite HOv by done.
  eapply conv_fprop_elem; try done; lia.
Qed.

End ConvTheorems.

(** C2. The reference forward convolution of [test_conv_layer]: for every
    output position (k,m,p,q,n), O[k,m,p,q,n] is the sum over (c,t,r,s) of
    F[c,t,r,s,k] times the input element at
    (c, m*str_d-pad_d+t, p*str_h-pad_h+r, q*str_w-pad_w+s, n), where a tap
    out of bounds contributes exactly 0 (the last row of cpuI, the row of
    the sentinel index C*D*H*W, is filled with zeros before the loops), and
    a window all of whose taps are out of bounds yields 0.  The laws
    x * 0 = 0 and 0 + 0 = 0 are what "contributes zero" asks of the
    element arithmetic. *)
Theorem conv_fprop_reference {A : Type} {NA : Numeric A}
    (conv : Conv.ConvLayer) (cpuI0 cpuF cpuE : list (list A)) :
  Conv.conv_shapes conv ->
  has_shape cpuI0 (sliceable (Conv.dimI conv) 1) ->
  has_shape cpuF (sliceable (Conv.dimF conv) 0) ->
  has_shape cpuE (sliceable (Conv.dimO conv) 0) ->
  (forall x : A, mul x zero = zero) ->
  add (zero (A:=A)) zero = zero ->
  let '(D, H, W) := Conv.DHW conv in
  let '(M, P, Q) := Conv.MPQ conv in
  exists cpuI cpuO cpuB cpuU,
    fill_row cpuI0 (-1) zero = Some cpuI /\
    (forall n, at2 cpuI (Conv.conv_C conv * D * H * W) n = zero) /\
    Conv.conv_reference conv cpuI0 cpuF cpuE = Some (cpuO, cpuB, cpuU) /\
    forall k m p q n,
      0 <= k < Conv.conv_K conv -> 0 <= m < M -> 0 <= p < P -> 0 <= q < Q ->
      0 <= n < Conv.conv_N conv ->
      E5 cpuO (M, P, Q) k m p q n = conv_fprop_sum conv cpuI0 cpuF k m p q n /\
      (conv_window_outside conv m p q -> E5 cpuO (M, P, Q) k m p q n = zero).
Proof.
  intros Hconv HsI HsF HsE Hmul0 Hadd0.
  pose proof (conv_reference_result conv cpuI0 cpuF cpuE Hconv HsI HsF HsE) as Hres.
  destruct (Conv.DHW conv) as [[D H] W] eqn:HDHW.
  destruct (Conv.MPQ conv) as [[M P] Q] eqn:HMPQ.
  destruct Hres as (cpuI & cpuO & cpuB & cpuU & HI & Hz & Hrun & _ & _ & HOv & _).
  exists cpuI, cpuO, (but_last cpuB), cpuU.
  split; [done|]. split; [done|]. split.
  { unfold Conv.conv_reference. by rewrite Hrun. }
  intros k m p q n Hk Hm Hp Hq Hn. rewrite HOv by done. split; [done|].
  intros Hout. revert Hout Hconv. clear -Hmul0 Hadd0.
  unfold conv_fprop_sum, conv_window_outside.
  destruct (Conv.TRS conv) as [[T R] S_], (Conv.DHW conv) as [[D H] W],
    (Conv.padding conv) as [[pad_d pad_h] pad_w],
    (Conv.strides conv) as [[str_d str_h] str_w].
  intros Hout _. apply sumA_zero; [done|]. apply Forall_fmap, Forall_forall.
  intros [[[c t] r] s] (Hc & Ht & Hr & Hs)%elem_of_taps4. simpl.
  by rewrite Hout.
Qed.

(** C6. The reference backward convolution of [test_conv_layer]: the
    result cpuB[:-1] has one row per input position, and at the position
    (c,z,y,x,n) it holds what the windows add in the order of the loops,
    each window whose tap (t,r,s) reads that position (the position fprop
    gathers for that tap) adding the sum over k of
    F[c,t,r,s,k] * E[k,m,p,q,n].  The taps out of bounds do not occur in
    it: what they add goes to the sentinel row, the last row of cpuB, which
    the result drops. *)
Theorem conv_bprop_reference {A : Type} {NA : Numeric A}
    (conv : Conv.ConvLayer) (cpuI0 cpuF cpuE : list (list A)) :
  Conv.conv_shapes conv ->
  has_shape cpuI0 (sliceable (Conv.dimI conv) 1) ->
  has_shape cpuF (sliceable (Conv.dimF conv) 0) ->
  has_shape cpuE (sliceable (Conv.dimO conv) 0) ->
  let '(D, H, W) := Conv.DHW conv in
  exists cpuO cpuB cpuU cpuB1,
    Conv.conv_numpy conv cpuI0 cpuF cpuE = Some (cpuO, cpuB1, cpuU) /\
    Conv.conv_reference conv cpuI0 cpuF cpuE = Some (cpuO, cpuB, cpuU) /\
    cpuB = but_last cpuB1 /\
    Z.of_nat (length cpuB1) = Conv.conv_C conv * D * H * W + 1 /\
    Z.of_nat (length cpuB) = Conv.conv_C conv * D * H * W /\
    forall c z y x n,
      in_bounds (Conv.conv_C conv) D H W c z y x = true ->
      0 <= n < Conv.conv_N conv ->
      I5 cpuB D H W c z y x n = conv_bprop_sum conv cpuF cpuE c z y x n.
Proof.
  intros Hconv HsI HsF HsE.
  pose proof (conv_reference_result conv cpuI0 cpuF cpuE Hconv HsI HsF HsE) as Hres.
  destruct (Conv.DHW conv) as [[D H] W] eqn:HDHW.
  destruct (Conv.MPQ conv) as [[M P] Q] eqn:HMPQ.
  destruct Hres as (cpuI & cpuO & cpuB & cpuU & HI & Hz & Hrun & HlB & Hnn & _ & HBv).
  exists cpuO, (but_last cpuB), cpuU, cpuB.
  split; [done|]. split.
  { unfold Conv.conv_reference. by rewrite Hrun. }
  split; [done|]. split; [done|]. split.
  { unfold but_last. rewrite length_take_le by lia. lia. }
  intros c z y x n Hb Hn. rewrite <- HBv by done.
  apply flat_index_bounds in Hb. unfold sentinel in Hb.
  unfold I5. apply at2_but_last. lia.
Qed.

(** ** More on indexing, and the scan for the maximum *)

Lemma item_nonneg' {X} (l : list X) i : 0 <= i -> item l i = l !! Z.to_nat i.
Proof.
  intros Hi. destruct (l !! Z.to_nat i) as [x|] eqn:Hx.
  - by apply item_nonneg_Some.
  - destruct (item l i) as [x|] eqn:Hx'; [|done].
    apply item_nonneg_Some in Hx'; [congruence|done].
Qed.

Section Maximum.
Context {A : Type} {NA : Numeric A}.

Lemma at2_nonneg (a : list (list A)) i n :
  0 <= i -> 0 <= n ->
  at2 a i n = default zero (r ← a !! Z.to_nat i; r !! Z.to_nat n).
Proof.
  intros Hi Hn. unfold at2. rewrite item_nonneg' by done.
  destruct (a !! Z.to_nat i) as [r|]; [|done]. simpl. by rewrite item_nonneg' by done.
Qed.

Hypothesis ltb_irrefl : forall x : A, ltb x x = false.
Hypothesis ltb_asym : forall x y : A, ltb x y = true -> ltb y x = false.
Hypothesis ltb_negtrans :
  forall x y z : A, ltb x z = true -> ltb x y = true \/ ltb y z = true.

Lemma argmax_from_spec (l : list A) : forall (pre : list A) (b : Z) (m : A),
  first_max pre b -> pre !! Z.to_nat b = Some m ->
  let b' := argmax_from l b m (Z.of_nat (length pre)) in
  first_max (pre ++ l) b' /\
  (pre ++ l) !! Z.to_nat b' = Some (fold_left (fun m y => if ltb m y then y else m) l m).
Proof.
  induction l as [|y l IH]; intros pre b m Hfm Hm; cbn zeta.
  - rewrite app_nil_r. done.
  - cbn [argmax_from fold_left].
    replace (pre ++ y :: l) with ((pre ++ [y]) ++ l) by (by rewrite <- app_assoc).
    replace (Z.of_nat (length pre) + 1) with (Z.of_nat (length (pre ++ [y])))
      by (rewrite length_app; simpl; lia).
    destruct Hfm as (Hb & v & Hv & Hmax & Hfirst).
    assert (v = m) as -> by congruence.
    assert (Hlt : (Z.to_nat b < length pre)%nat) by (by eapply lookup_lt_Some).
    destruct (ltb m y) eqn:Hmy.
    + assert (Hall : forall u, u ∈ pre -> ltb u y = true).
      { intros u Hu. destruct (ltb_negtrans m u y Hmy) as [Hmu|Huy]; [|done].
        rewrite (Hmax u Hu) in Hmu. done. }
      apply IH.
      * split; [lia|]. exists y. rewrite Nat2Z.id.
        split; [by rewrite lookup_app_r, Nat.sub_diag by lia|]. split.
        -- intros u [Hu|Hu%list_elem_of_singleton]%elem_of_app.
           ++ by apply ltb_asym, Hall.
           ++ subst. apply ltb_irrefl.
        -- intros j u Hj Hju. rewrite lookup_app_l in Hju by done.
           apply Hall. by eapply list_elem_of_lookup_2.
      * rewrite Nat2Z.id. by rewrite lookup_app_r, Nat.sub_diag by lia.
    + apply IH.
      * split; [done|]. exists m. split; [by rewrite lookup_app_l|]. split.
        -- intros u [Hu|Hu%list_elem_of_singleton]%elem_of_app; [by apply Hmax|by subst].
        -- intros j u Hj Hju. rewrite lookup_app_l in Hju by lia. by eapply Hfirst.
      * by rewrite lookup_app_l.
Qed.

(** On a non-empty list, [vargmax] finds the first position of the maximum
    and [vmax] the value there. *)
Lemma vargmax_spec (vals : list A) :
  vals <> [] ->
  exists b v, vargmax vals = Some b /\ vmax vals = Some v /\
    first_max vals b /\ vals !! Z.to_nat b = Some v.
Proof.
  destruct vals as [|x l]; [done|]. intros _.
  destruct (argmax_from_spec l [x] 0 x) as [Hfm Hv].
  - split; [done|]. exists x. split; [done|]. split.
    + intros u ->%list_elem_of_singleton. apply ltb_irrefl.
    + intros j u Hj. simpl in Hj. lia.
  - done.
  - eexists _, _. split; [done|]. split; [done|]. split; [exact Hfm|exact Hv].
Qed.

End Maximum.

Section ForEachInv.
Context {X S : Type}.

(** Invariant rule that also tells where in the list the loop is. *)
Lemma for_each_inv_at (Inv : list X -> S -> Prop) (body : X -> S -> option S) (l : list X) :
  forall d s,
  Inv d s ->
  (forall d1 x l2 s, d ++ l = d1 ++ x :: l2 -> Inv d1 s ->
     exists s', body x s = Some s' /\ Inv (d1 ++ [x]) s') ->
  exists s', for_each l body s = Some s' /\ Inv (d ++ l) s'.
Proof.
  induction l as [|x l IH]; intros d s Hd Hstep.
  - exists s. by rewrite app_nil_r.
  - destruct (Hstep d x l s eq_refl Hd) as (s1 & Hs1 & Hinv).
    destruct (IH (d ++ [x]) s1) as (s' & Hs' & Hinv'); [done| |].
    { intros d1 x' l2 s2 Heq. apply (Hstep d1 x' l2). by rewrite <- Heq, <- app_assoc. }
    exists s'. simpl. rewrite Hs1. by rewrite <- app_assoc in Hinv'.
Qed.

End ForEachInv.

(** ** Shapes kept by the updates *)

Section Shapes.
Context {A : Type} {NA : Numeric A}.

Lemma put_rows_Forall (P : list A -> Prop) (idx : list Z) :
  forall (a v a' : list (list A)),
  put_rows a idx v = Some a' -> Forall P a -> Forall P v -> Forall P a'.
Proof.
  unfold put_rows. induction idx as [|i idx IH]; intros a v a' Hput Ha Hv.
  - simpl in Hput. by injection Hput as <-.
  - destruct v as [|v0 v]; [simpl in Hput; by injection Hput as <-|].
    simpl in Hput. unfold setitem in Hput at 1.
    destruct (norm_index (length a) i) as [n|]; [|done]. simpl in Hput.
    apply Forall_cons in Hv as [Hv0 Hv].
    eapply IH; [exact Hput| |done]. by apply Forall_insert.
Qed.

Lemma length_put_rows (idx : list Z) :
  forall (a v a' : list (list A)), put_rows a idx v = Some a' -> length a' = length a.
Proof.
  unfold put_rows. induction idx as [|i idx IH]; intros a v a' Hput.
  - simpl in Hput. by injection Hput as <-.
  - destruct v as [|v0 v]; [simpl in Hput; by injection Hput as <-|].
    simpl in Hput. unfold setitem in Hput at 1.
    destruct (norm_index (length a) i) as [n|]; [|done]. simpl in Hput.
    rewrite (IH _ _ _ Hput). by rewrite length_insert.
Qed.

Lemma has_shape_zeros r c : 0 <= r -> 0 <= c -> has_shape (A:=A) (zeros (r, c)) (r, c).
Proof.
  intros Hr Hc. split; simpl.
  - rewrite length_zeros. lia.
  - unfold zeros. simpl. apply Forall_replicate. rewrite length_replicate. lia.
Qed.

(** Filling an array with 0 gives the array of zeros of its shape. *)
Lemma fill_has_shape (a : list (list A)) r c :
  has_shape a (r, c) -> fill a zero = zeros (r, c).
Proof.
  intros [Hl Hr]. simpl in *. unfold fill, zeros. simpl.
  rewrite <- Hl, Nat2Z.id. clear Hl.
  induction Hr as [|row a Hrow _ IH]; [done|]. simpl. f_equal; [|done].
  rewrite <- Hrow, Nat2Z.id. clear. induction row; [done|]. simpl. by f_equal.
Qed.

Lemma at2_has_shape (a : list (list A)) r c i n :
  has_shape a (r, c) -> 0 <= i < r -> 0 <= n < c ->
  exists row x, a !! Z.to_nat i = Some row /\ row !! Z.to_nat n = Some x /\
    Z.of_nat (length row) = c /\ at2 a i n = x.
Proof.
  intros [Hl Hr] Hi Hn. simpl in *.
  destruct (lookup_lt_is_Some_2 a (Z.to_nat i)) as [row Hrow]; [lia|].
  pose proof (proj1 (Forall_lookup _ _) Hr _ _ Hrow) as Hlr. simpl in Hlr.
  destruct (lookup_lt_is_Some_2 row (Z.to_nat n)) as [x Hx]; [lia|].
  exists row, x. repeat split; [done..|]. by eapply at2_lookup; [lia|lia|..].
Qed.

(** [a[i, n] += e] changes that one element. *)
Lemma iadd_at_spec (a : list (list A)) r c i n e :
  has_shape a (r, c) -> 0 <= i < r -> 0 <= n < c ->
  exists a', iadd_at a i n e = Some a' /\ has_shape a' (r, c) /\
    forall i' n', 0 <= i' -> 0 <= n' ->
      at2 a' i' n' = if decide (i' = i /\ n' = n) then add (at2 a i n) e else at2 a i' n'.
Proof.
  intros Hs Hi Hn.
  destruct (at2_has_shape a r c i n Hs Hi Hn) as (row & x & Hrow & Hx & Hlr & Hat).
  destruct Hs as [Hl Hr]. simpl in *.
  unfold iadd_at. rewrite item_nonneg by lia. rewrite Hrow. simpl.
  rewrite item_nonneg by lia. rewrite Hx. simpl.
  rewrite setitem_nonneg by lia. simpl. rewrite setitem_nonneg by lia.
  eexists. split; [done|]. split.
  - split; simpl; [by rewrite length_insert|].
    apply Forall_insert; [done|]. by rewrite length_insert.
  - intros i' n' Hi' Hn'. rewrite Hat.
    destruct (decide (i' = i /\ n' = n)) as [[-> ->]|Hne]; rewrite !at2_nonneg by lia.
    + rewrite list_lookup_insert_eq by lia. simpl.
      rewrite list_lookup_insert_eq by lia. done.
    + destruct (decide (i' = i)) as [->|Hi''] .
      * rewrite list_lookup_insert_eq by lia. simpl. rewrite Hrow. simpl.
        rewrite list_lookup_insert_ne by lia. done.
      * rewrite list_lookup_insert_ne by lia. done.
Qed.

End Shapes.

(** ** The updates of the pooling reference *)

Section PoolUpdates.
Context {A : Type} {NA : Numeric A}.

Lemma argmax_from_range (l : list A) : forall b m i,
  0 <= b < i ->
  0 <= argmax_from l b m i < i + Z.of_nat (length l).
Proof.
  induction l as [|y l IH]; intros b m i Hb; simpl; [lia|].
  destruct (ltb m y).
  - specialize (IH i y (i + 1)). lia.
  - specialize (IH b m (i + 1)). lia.
Qed.

Lemma vargmax_range (l : list A) :
  l <> [] -> exists b, vargmax l = Some b /\ 0 <= b < Z.of_nat (length l).
Proof.
  destruct l as [|x l]; [done|]. intros _. eexists. split; [done|].
  pose proof (argmax_from_range l 0 x 1). simpl length. lia.
Qed.

Lemma vmax_is_Some (l : list A) : l <> [] -> is_Some (vmax l).
Proof. destruct l; [done|]. by eexists. Qed.

Lemma mapM_default {X Y} (f : X -> option Y) (d : Y) (l : list X) :
  (forall x, x ∈ l -> is_Some (f x)) ->
  mapM f l = Some ((fun x => default d (f x)) <$> l).
Proof.
  intros Hf. apply mapM_Some. induction l as [|x l IH]; [constructor|].
  rewrite fmap_cons. constructor.
  - destruct (Hf x) as [y Hy]; [left|]. by rewrite Hy.
  - apply IH. intros y Hy. apply Hf. by right.
Qed.

Lemma col_nonempty (g : list (list A)) n : g <> [] -> col n g <> [].
Proof. destruct g; [done|]. done. Qed.

Lemma length_col (g : list (list A)) n : length (col n g) = length g.
Proof. unfold col. by rewrite length_fmap. Qed.

Lemma max_axis0_Some N (g : list (list A)) :
  g <> [] ->
  max_axis0 N g = Some ((fun nn => default zero (vmax (col nn g))) <$> range N).
Proof. intros Hg. apply mapM_default. intros n _. by apply vmax_is_Some, col_nonempty. Qed.

Lemma argmax_axis0_Some N (g : list (list A)) :
  g <> [] ->
  argmax_axis0 N g = Some ((fun nn => default 0 (vargmax (col nn g))) <$> range N).
Proof.
  intros Hg. apply mapM_default. intros n _.
  destruct (vargmax_range (col n g)) as (b & Hb & _); [by apply col_nonempty|]. by eexists.
Qed.

(** The row a batch item's gradient goes to. *)
Definition scatter_target (idx b_idx : list Z) (n : Z) : option Z :=
  b ← item b_idx n; item idx b.

(** The loop over the batch of the max branch. *)
Lemma max_scatter_loop (idx b_idx : list Z) (e : list A) r N (ns : list Z) :
  NoDup ns ->
  Forall (fun n => 0 <= n < N) ns ->
  Z.of_nat (length e) = N ->
  (forall n, 0 <= n < N -> exists i, scatter_target idx b_idx n = Some i /\ 0 <= i < r) ->
  forall cpuB : list (list A),
  has_shape cpuB (r, N) ->
  exists cpuB', for_each ns (Pool.max_scatter idx b_idx e) cpuB = Some cpuB' /\
    has_shape cpuB' (r, N) /\
    forall i' n', 0 <= i' -> 0 <= n' ->
      at2 cpuB' i' n' =
      if decide (n' ∈ ns /\ scatter_target idx b_idx n' = Some i')
      then add (at2 cpuB i' n') (default zero (item e n'))
      else at2 cpuB i' n'.
Proof.
  intros Hnd Hns He Htgt. induction Hns as [|n ns Hn Hns IH]; intros cpuB Hs.
  - exists cpuB. split; [done|]. split; [done|]. intros i' n' _ _.
    case_decide as Hd; [|done]. destruct Hd as [Hin _]. by apply elem_of_nil in Hin.
  - apply NoDup_cons in Hnd as [Hnin Hnd].
    destruct (Htgt n Hn) as (i & Hi & Hir).
    assert (Hen : is_Some (item e n)).
    { rewrite item_nonneg by lia. apply lookup_lt_is_Some. lia. }
    destruct Hen as [en Hen].
    destruct (iadd_at_spec cpuB r N i n en Hs Hir Hn) as (cpuB1 & H1 & Hs1 & Hat1).
    destruct (IH Hnd cpuB1 Hs1) as (cpuB' & Hrun & Hs' & Hat').
    exists cpuB'. split.
    { cbn [for_each]. unfold Pool.max_scatter at 1. unfold scatter_target in Hi.
      destruct (item b_idx n) as [b|]; [|done]. simpl in Hi. simpl.
      rewrite Hi. simpl. rewrite Hen. simpl. by rewrite H1. }
    split; [done|]. intros i' n' Hi' Hn'. rewrite Hat' by done. rewrite !Hat1 by done.
    destruct (decide (n' = n)) as [->|Hne].
    + rewrite (decide_False (P := n ∈ ns /\ _)) by (by intros [? _]).
      destruct (decide (i' = i)) as [->|Hne].
      * rewrite !decide_True; [|split; [left|done]|done]. by rewrite Hen.
      * rewrite !decide_False; [done| |by intros [? _]].
        intros [_ Heq]. rewrite Hi in Heq. by injection Heq as ->.
    + rewrite (decide_False (P := i' = i /\ n' = n)) by (by intros [_ ?]).
      destruct (decide (n' ∈ ns /\ scatter_target idx b_idx n' = Some i')) as [[Hin Ht]|Hno].
      * rewrite decide_True; [done|]. split; [by right|done].
      * rewrite decide_False; [done|]. intros [Hin Ht]. apply Hno. split; [|done].
        apply elem_of_cons in Hin as [?|?]; done.
Qed.

End PoolUpdates.

(** ** The reference pooling *)

Section PoolReference.
Context {A : Type} {NA : Numeric A}.
Variables (o : Pool.pool_op) (N C K D H W J T R S_ M P Q : Z).
Variables (pad_j pad_d pad_h pad_w str_j str_d str_h str_w : Z).
Hypotheses (HN : 0 <= N) (HC : 0 <= C) (HK : 0 <= K).
Hypotheses (HD : 0 <= D) (HH : 0 <= H) (HW : 0 <= W).
Hypotheses (HJ : 0 < J) (HT : 0 < T) (HR : 0 < R) (HS : 0 < S_).
Hypotheses (HM : 0 <= M) (HP : 0 <= P) (HQ : 0 <= Q).

Local Abbreviation pool :=
  (Pool.Build_PoolLayer o N C K (D, H, W) (J, T, R, S_) (M, P, Q)
     (pad_j, pad_d, pad_h, pad_w) (str_j, str_d, str_h, str_w)
     [C; D; H; W; N] [K; M; P; Q; N]).

Variables (cpuI cpuE : list (list A)).
Hypothesis HlenI : Z.of_nat (length cpuI) = C * D * H * W + 1.
Hypothesis HsE : has_shape cpuE (K * M * P * Q, N).

(** The rows the window (k,m,p,q) reads, the rows gathered for it and its
    output row. *)
Definition pool_idx (k m p q : Z) : list Z :=
  window_indices C D H W J T R S_
    (k * str_j - pad_j) (m * str_d - pad_d) (p * str_h - pad_h) (q * str_w - pad_w).
Definition pool_gather (k m p q : Z) : list (list A) :=
  (fun i => cpuI !!! Z.to_nat i) <$> pool_idx k m p q.
Definition pool_out (k m p q : Z) : list A :=
  match o with
  | Pool.op_max => (fun nn => default zero (vmax (col nn (pool_gather k m p q)))) <$> range N
  | Pool.op_avg => mean_axis0 N (pool_gather k m p q)
  | Pool.op_l2 => l2_axis0 N (pool_gather k m p q)
  end.

(** What one window adds to the element n of the input position
    (c,z,y,x). *)
Definition pool_back_elem (c z y x n : Z) (a : A) (w : Z * Z * Z * Z) : A :=
  let '(k, m, p, q) := w in
  match tap_at J T R S_ (k * str_j - pad_j) (m * str_d - pad_d) (p * str_h - pad_h)
          (q * str_w - pad_w) c z y x with
  | Some pos =>
      match o with
      | Pool.op_max =>
          if decide (vargmax (col n (pool_gather k m p q)) = Some pos)
          then add a (E5 cpuE (M, P, Q) k m p q n) else a
      | Pool.op_avg =>
          add a (mul (E5 cpuE (M, P, Q) k m p q n) (div one (of_int (J * T * R * S_))))
      | Pool.op_l2 => a
      end
  | None => a
  end.

Lemma pool_idx_bounds k m p q :
  Forall (fun i => 0 <= i < Z.of_nat (length cpuI)) (pool_idx k m p q).
Proof.
  destruct (window_indices_safe (A:=A) C D H W J T R S_
    (k * str_j - pad_j) (m * str_d - pad_d) (p * str_h - pad_h) (q * str_w - pad_w))
    as (_ & Hall & _); [lia..|].
  eapply Forall_impl; [exact Hall|]. simpl. lia.
Qed.

Lemma length_pool_idx k m p q : Z.of_nat (length (pool_idx k m p q)) = J * T * R * S_.
Proof. apply length_window_indices; lia. Qed.

Lemma pool_idx_pos k m p q : 0 < Z.of_nat (length (pool_idx k m p q)).
Proof. rewrite length_pool_idx. nia. Qed.

Lemma pool_gather_nonempty k m p q : pool_gather k m p q <> [].
Proof.
  pose proof (pool_idx_pos k m p q) as Hl. unfold pool_gather.
  destruct (pool_idx k m p q); [simpl in Hl; lia|done].
Qed.

Lemma length_pool_gather k m p q :
  Z.of_nat (length (pool_gather k m p q)) = J * T * R * S_.
Proof. unfold pool_gather. rewrite length_fmap. apply length_pool_idx. Qed.

Lemma cpuE_row k m p q :
  0 <= k < K -> 0 <= m < M -> 0 <= p < P -> 0 <= q < Q ->
  exists e, item cpuE (row5 (M, P, Q) k m p q) = Some e /\
    Z.of_nat (length e) = N /\
    forall n, 0 <= n -> E5 cpuE (M, P, Q) k m p q n = default zero (item e n).
Proof.
  intros Hk Hm Hp Hq. destruct HsE as [Hl Hr]. cbn [fst snd] in Hl, Hr.
  pose proof (row5_bounds K M P Q k m p q Hk Hm Hp Hq) as Hb.
  assert (Hb' : 0 <= row5 (M, P, Q) k m p q < Z.of_nat (length cpuE)) by lia.
  destruct (lookup_lt_is_Some_2 cpuE (Z.to_nat (row5 (M, P, Q) k m p q))) as [e He]; [lia|].
  exists e. split; [by rewrite item_nonneg|]. split.
  - by eapply (proj1 (Forall_lookup _ _) Hr).
  - intros n Hn. unfold E5, at2. rewrite item_nonneg by done. by rewrite He.
Qed.

Lemma iadd_rows_bcast_Forall (Pr : list A -> Prop) (a a' : list (list A)) idx v :
  iadd_rows_bcast a idx v = Some a' ->
  Forall Pr a -> (forall r, Pr r -> Pr (vadd r v)) -> Forall Pr a'.
Proof.
  unfold iadd_rows_bcast. intros Hrun Ha Hv.
  destruct (take_rows a idx) as [g|] eqn:Hg; [|done]. simpl in Hrun.
  eapply put_rows_Forall; [exact Hrun|done|].
  apply Forall_fmap, Forall_forall. intros r Hr. simpl. apply Hv.
  apply mapM_Some in Hg.
  apply list_elem_of_lookup in Hr as [j Hj].
  destruct (Forall2_lookup_r _ _ _ _ _ Hg Hj) as (i & _ & Hi).
  unfold item in Hi. destruct (norm_index (length a) i) as [n|]; [|done]. simpl in Hi.
  eapply (proj1 (Forall_lookup _ _) Ha); done.
Qed.

Lemma scatter_target_max k m p q n :
  0 <= n < N ->
  let g := pool_gather k m p q in
  let b_idx := (fun nn => default 0 (vargmax (col nn g))) <$> range N in
  exists b, vargmax (col n g) = Some b /\ 0 <= b < J * T * R * S_ /\
    scatter_target (pool_idx k m p q) b_idx n = pool_idx k m p q !! Z.to_nat b /\
    exists i, pool_idx k m p q !! Z.to_nat b = Some i /\ 0 <= i < C * D * H * W + 1.
Proof.
  intros Hn g b_idx.
  destruct (vargmax_range (col n g)) as (b & Hb & Hbr);
    [apply col_nonempty, pool_gather_nonempty|].
  rewrite length_col in Hbr. unfold g in Hbr. rewrite length_pool_gather in Hbr.
  exists b. split; [done|]. split; [done|].
  assert (Ht : scatter_target (pool_idx k m p q) b_idx n = pool_idx k m p q !! Z.to_nat b).
  { unfold scatter_target, b_idx. rewrite item_nonneg' by lia.
    rewrite list_lookup_fmap.
    rewrite (proj2 (lookup_range N (Z.to_nat n) n)) by lia. simpl.
    fold g. rewrite Hb. simpl. by rewrite item_nonneg' by lia. }
  split; [done|].
  destruct (lookup_lt_is_Some_2 (pool_idx k m p q) (Z.to_nat b)) as [i Hi].
  { pose proof (length_pool_idx k m p q). lia. }
  exists i. split; [done|].
  pose proof (proj1 (Forall_lookup _ _) (pool_idx_bounds k m p q) _ _ Hi) as Hib.
  simpl in Hib. lia.
Qed.

Lemma pool_window_step k m p q (cpuO cpuB : list (list A)) :
  0 <= k < K -> 0 <= m < M -> 0 <= p < P -> 0 <= q < Q ->
  Z.of_nat (length cpuO) = K * M * P * Q ->
  has_shape cpuB (C * D * H * W + 1, N) ->
  exists cpuB',
    Pool.pool_window pool cpuI cpuE k m p q (cpuO, cpuB) =
      Some (<[Z.to_nat (row5 (M, P, Q) k m p q) := pool_out k m p q]> cpuO, cpuB') /\
    has_shape cpuB' (C * D * H * W + 1, N) /\
    forall c z y x n, in_bounds C D H W c z y x = true -> 0 <= n < N ->
      at2 cpuB' (flat_index D H W c z y x) n =
      pool_back_elem c z y x n (at2 cpuB (flat_index D H W c z y x) n) (k, m, p, q).
Proof.
  intros Hk Hm Hp Hq HlO HsB.
  destruct (cpuE_row k m p q Hk Hm Hp Hq) as (e & He & Hle & HE5).
  pose proof (row5_bounds K M P Q k m p q Hk Hm Hp Hq) as Hrow.
  assert (Hrow' : 0 <= row5 (M, P, Q) k m p q < Z.of_nat (length cpuO)) by lia.
  pose proof (pool_idx_bounds k m p q) as Hidx.
  pose proof (length_pool_idx k m p q) as Hlidx.
  assert (Hhit : forall c z y x (j : nat), in_bounds C D H W c z y x = true ->
    pool_idx k m p q !! j = Some (flat_index D H W c z y x) <->
    tap_at J T R S_ (k * str_j - pad_j) (m * str_d - pad_d) (p * str_h - pad_h)
      (q * str_w - pad_w) c z y x = Some (Z.of_nat j)).
  { intros. apply window_indices_hit; [lia..|done]. }
  unfold Pool.pool_window.
  cbn [Pool.pool_N Pool.padding Pool.strides Pool.MPQ Pool.op].
  rewrite pool_pixel_indices_taps. cbn [Pool.JTRS Pool.DHW Pool.pool_C].
  fold (pool_idx k m p q). unfold pool_out, pool_back_elem.
  rewrite take_rows_Some by done. fold (pool_gather k m p q).
  cbn [mbind option_bind]. destruct o.
  - (* max *)
    rewrite max_axis0_Some by apply pool_gather_nonempty. cbn [mbind option_bind].
    rewrite setitem_nonneg by done. cbn [mbind option_bind].
    rewrite argmax_axis0_Some by apply pool_gather_nonempty. cbn [mbind option_bind].
    rewrite He. cbn [mbind option_bind].
    set (b_idx := (fun nn => default 0 (vargmax (col nn (pool_gather k m p q)))) <$> range N).
    destruct (max_scatter_loop (pool_idx k m p q) b_idx e (C * D * H * W + 1) N (range N))
      with (cpuB := cpuB) as (cpuB' & Hrun & Hs' & Hat).
    { apply NoDup_seqZ. }
    { apply Forall_forall. intros n. apply elem_of_range. }
    { done. }
    { intros n Hn. destruct (scatter_target_max k m p q n Hn) as (b & _ & _ & Ht & i & Hi & Hir).
      exists i. fold b_idx in Ht. by rewrite Ht. }
    { done. }
    rewrite Hrun. cbn [mbind option_bind]. eexists. split; [done|]. split; [done|].
    intros c z y x n Hb Hn.
    pose proof (flat_index_bounds _ _ _ _ _ _ _ _ Hb) as Hfb. unfold sentinel in Hfb.
    rewrite Hat by lia.
    destruct (scatter_target_max k m p q n Hn) as (b & Hvb & Hbr & Ht & _).
    fold b_idx in Ht. rewrite Ht, Hvb, HE5 by lia.
    specialize (Hhit c z y x (Z.to_nat b) Hb). rewrite Z2Nat.id in Hhit by lia.
    destruct (tap_at J T R S_ (k * str_j - pad_j) (m * str_d - pad_d) (p * str_h - pad_h)
                (q * str_w - pad_w) c z y x) as [pos|].
    + destruct (decide (Some b = Some pos)) as [[= ->]|Hne].
      * rewrite decide_True; [done|]. split; [by apply elem_of_range|]. by apply Hhit.
      * rewrite decide_False; [done|]. intros [_ Hh]. apply Hhit in Hh. congruence.
    + rewrite decide_False; [done|]. intros [_ Hh]. by apply Hhit in Hh.
  - (* avg *)
    rewrite setitem_nonneg by done. cbn [mbind option_bind].
    rewrite He. cbn [mbind option_bind].
    replace (Z.of_nat (length (pool_idx k m p q)) =? 0) with false by nia.
    cbn [mbind option_bind]. rewrite Hlidx.
    set (w := div one (of_int (J * T * R * S_))).
    set (v := map (fun x => mul x w) e).
    destruct (iadd_rows_bcast_spec cpuB v (pool_idx k m p q))
      as (cpuB' & Hrun & Hl' & Hout & Hin).
    { destruct HsB as [HlB _]. simpl in HlB.
      eapply Forall_impl; [exact Hidx|]. simpl. lia. }
    rewrite Hrun. cbn [mbind option_bind]. eexists. split; [done|].
    assert (Hlv : Z.of_nat (length v) = N) by (unfold v; by rewrite length_map).
    assert (HsB' : has_shape cpuB' (C * D * H * W + 1, N)).
    { destruct HsB as [HlB HrB]. split; simpl in *; [lia|].
      eapply iadd_rows_bcast_Forall; [exact Hrun|exact HrB|].
      intros r Hr. simpl in *. rewrite length_vadd; lia. }
    split; [done|].
    intros c z y x n Hb Hn.
    pose proof (flat_index_bounds _ _ _ _ _ _ _ _ Hb) as Hfb. unfold sentinel in Hfb.
    destruct (at2_has_shape cpuB _ _ (flat_index D H W c z y x) n HsB) as
      (brow & a & Hbrow & Ha & Hlrow & Hat); [lia..|].
    rewrite Hat, HE5 by lia.
    destruct (tap_at J T R S_ (k * str_j - pad_j) (m * str_d - pad_d) (p * str_h - pad_h)
                (q * str_w - pad_w) c z y x) as [pos|] eqn:Htap.
    + assert (Hposr : 0 <= pos) by (eapply tap_at_bounds in Htap; lia).
      destruct (lookup_lt_is_Some_2 e (Z.to_nat n)) as [en Hen]; [lia|].
      rewrite item_nonneg' by lia. rewrite Hen. simpl.
      eapply at2_lookup; [lia|lia| |].
      * apply (Hin _ (Z.to_nat pos)).
        -- rewrite Z2Nat.id by lia. apply Hhit; [done|]. by rewrite Z2Nat.id by lia.
        -- intros j'. rewrite Z2Nat.id by lia. intros Hj'. apply Hhit in Hj'; [|done].
           rewrite Htap in Hj'. injection Hj' as Hj'. lia.
      * rewrite (list_lookup_total_correct _ _ _ Hbrow).
        apply lookup_vadd; [done|]. unfold v. by rewrite list_lookup_fmap, Hen.
    + rewrite <- Hat. rewrite !at2_nonneg by lia. rewrite Hout; [done|].
      rewrite Z2Nat.id by lia. intros [j' Hj']%list_elem_of_lookup.
      apply Hhit in Hj'; [|done]. by rewrite Htap in Hj'.
  - (* l2 *)
    rewrite setitem_nonneg by done. cbn [mbind option_bind].
    eexists. split; [done|]. split; [done|]. intros c z y x n _ _. by case_match.
Qed.

(** The four window loops, from any state of the right sizes. *)
Lemma pool_loops (cpuO0 cpuB0 : list (list A)) :
  Z.of_nat (length cpuO0) = K * M * P * Q ->
  has_shape cpuB0 (C * D * H * W + 1, N) ->
  exists cpuO cpuB,
    for_each (taps4 K M P Q)
      (fun '(k, m, p, q) => Pool.pool_window pool cpuI cpuE k m p q) (cpuO0, cpuB0) =
      Some (cpuO, cpuB) /\
    length cpuO = length cpuO0 /\
    has_shape cpuB (C * D * H * W + 1, N) /\
    (forall k m p q, 0 <= k < K -> 0 <= m < M -> 0 <= p < P -> 0 <= q < Q ->
       cpuO !! Z.to_nat (row5 (M, P, Q) k m p q) = Some (pool_out k m p q)) /\
    (forall c z y x n, in_bounds C D H W c z y x = true -> 0 <= n < N ->
       at2 cpuB (flat_index D H W c z y x) n =
       fold_left (pool_back_elem c z y x n) (taps4 K M P Q)
         (at2 cpuB0 (flat_index D H W c z y x) n)).
Proof.
  intros HlenO HsB.
  set (Inv := fun (d : list (Z * Z * Z * Z)) (st : list (list A) * list (list A)) =>
    let '(cpuO, cpuB) := st in
    length cpuO = length cpuO0 /\
    has_shape cpuB (C * D * H * W + 1, N) /\
    (forall k m p q, 0 <= k < K -> 0 <= m < M -> 0 <= p < P -> 0 <= q < Q ->
       (k, m, p, q) ∈ d ->
       cpuO !! Z.to_nat (row5 (M, P, Q) k m p q) = Some (pool_out k m p q)) /\
    (forall c z y x n, in_bounds C D H W c z y x = true -> 0 <= n < N ->
       at2 cpuB (flat_index D H W c z y x) n =
       fold_left (pool_back_elem c z y x n) d
         (at2 cpuB0 (flat_index D H W c z y x) n))).
  destruct (for_each_inv Inv
              (fun '(k, m, p, q) => Pool.pool_window pool cpuI cpuE k m p q)
              (taps4 K M P Q) [] (cpuO0, cpuB0))
    as ([cpuO cpuB] & Hrun & HO & HB & HOv & HBv).
  - split; [done|]. split; [done|]. split; [|done].
    intros ? ? ? ? ? ? ? ? Hin. by apply elem_of_nil in Hin.
  - intros d [[[k m] p] q] [cpuO cpuB] Hin (HO & HB & HOv & HBv).
    apply elem_of_taps4 in Hin as (Hk & Hm & Hp & Hq).
    destruct (pool_window_step k m p q cpuO cpuB) as (cpuB' & Hstep & HsB' & Hat);
      [done..|lia|done|].
    eexists (_, cpuB'). split; [exact Hstep|].
    split; [by rewrite length_insert|]. split; [done|]. split.
    + intros k' m' p' q' Hk' Hm' Hp' Hq' Hin.
      pose proof (row5_bounds K M P Q k m p q Hk Hm Hp Hq).
      pose proof (row5_bounds K M P Q k' m' p' q' Hk' Hm' Hp' Hq').
      destruct (decide ((k', m', p', q') = (k, m, p, q))) as [[= -> -> -> ->]|Hne].
      * apply list_lookup_insert_eq. lia.
      * rewrite list_lookup_insert_ne.
        -- apply HOv; [done..|].
           apply elem_of_app in Hin as [Hin|Hin%list_elem_of_singleton]; done.
        -- intros Heq. apply Hne. apply Z2Nat.inj in Heq; [|lia..].
           apply row5_inj in Heq as (-> & -> & -> & ->); done.
    + intros c z y x n Hb Hn. rewrite Hat by done.
      rewrite fold_left_app. cbn [fold_left]. by rewrite HBv.
  - exists cpuO, cpuB. split; [done|]. split; [done|]. split; [done|].
    split; [|done]. intros k m p q Hk Hm Hp Hq. apply HOv; [done..|].
    by apply elem_of_taps4.
Qed.

Variables (cpuI0 : list (list A)) (pad : A).
Hypothesis HsI0 : has_shape cpuI0 (C * D * H * W + 1, N).
Hypothesis HcpuI :
  cpuI = <[Z.to_nat (C * D * H * W) :=
            (fun _ => pad) <$> (cpuI0 !!! Z.to_nat (C * D * H * W))]> cpuI0.

(** What a gathered row holds: the input row for a tap in bounds, the
    padding value for a tap out of bounds. *)
Lemma pool_gathered_value c z y x n :
  0 <= n < N ->
  default zero (item (cpuI !!! Z.to_nat (window_index C D H W c z y x)) n) =
  tap_value cpuI0 pad C D H W c z y x n.
Proof.
  intros Hn. destruct HsI0 as [Hl0 Hr0]. cbn [fst snd] in Hl0, Hr0.
  unfold window_index, tap_value. destruct (in_bounds C D H W c z y x) eqn:Hb.
  - apply flat_index_bounds in Hb. unfold sentinel in Hb.
    unfold I5. rewrite at2_row by lia. rewrite HcpuI.
    rewrite list_lookup_total_insert_ne by lia. done.
  - unfold sentinel. rewrite HcpuI.
    rewrite list_lookup_total_insert_eq by nia.
    destruct (lookup_lt_is_Some_2 cpuI0 (Z.to_nat (C * D * H * W))) as [row Hrow]; [nia|].
    rewrite (list_lookup_total_correct _ _ _ Hrow).
    pose proof (proj1 (Forall_lookup _ _) Hr0 _ _ Hrow) as Hlr. simpl in Hlr.
    rewrite item_nonneg by (rewrite length_fmap; lia).
    rewrite list_lookup_fmap.
    destruct (lookup_lt_is_Some_2 row (Z.to_nat n)) as [x0 Hx0]; [lia|].
    by rewrite Hx0.
Qed.

Lemma col_pool_gather k m p q n :
  0 <= n < N ->
  col n (pool_gather k m p q) = pool_window_values pool cpuI0 pad k m p q n.
Proof.
  intros Hn. unfold pool_gather, pool_idx, window_indices, pool_window_values, pool_start.
  cbn [Pool.JTRS Pool.DHW Pool.padding Pool.strides Pool.pool_C].
  rewrite <- list_fmap_compose, col_fmap.
  apply list_fmap_ext. intros _ [[[j t] r] s] _. simpl.
  by apply pool_gathered_value.
Qed.

Lemma pool_out_elem k m p q n :
  0 <= n < N ->
  pool_out k m p q !! Z.to_nat n =
  Some (match o with
        | Pool.op_max => default zero (vmax (pool_window_values pool cpuI0 pad k m p q n))
        | Pool.op_avg =>
            div (sumA (pool_window_values pool cpuI0 pad k m p q n))
              (of_int (J * T * R * S_))
        | Pool.op_l2 =>
            sqrt (sumA (map (fun x => mul x x) (pool_window_values pool cpuI0 pad k m p q n)))
        end).
Proof.
  intros Hn. unfold pool_out, mean_axis0, l2_axis0.
  destruct o; rewrite list_lookup_fmap;
    rewrite (proj2 (lookup_range N (Z.to_nat n) n)) by lia; simpl;
    rewrite col_pool_gather by done; [done| |done].
  by rewrite length_pool_gather.
Qed.

Lemma pool_back_fold c z y x n (ws : list (Z * Z * Z * Z)) (a : A) :
  0 <= n < N ->
  fold_left (pool_back_elem c z y x n) ws a =
  fold_left (fun acc '(k, m, p, q) =>
      match pool_tap_at pool k m p q c z y x with
      | Some pos =>
          match o with
          | Pool.op_max =>
              if decide (vargmax (pool_window_values pool cpuI0 pad k m p q n) = Some pos)
              then add acc (E5 cpuE (M, P, Q) k m p q n) else acc
          | Pool.op_avg =>
              add acc (mul (E5 cpuE (M, P, Q) k m p q n)
                           (div one (of_int (J * T * R * S_))))
          | Pool.op_l2 => acc
          end
      | None => acc
      end) ws a.
Proof.
  intros Hn. revert a. induction ws as [|[[[k m] p] q] ws IH]; intros a; [done|].
  cbn [fold_left]. rewrite <- IH. f_equal.
  unfold pool_back_elem, pool_tap_at, pool_start.
  cbn [Pool.JTRS Pool.padding Pool.strides].
  by rewrite col_pool_gather.
Qed.

(** A single iteration of the repeat loop of [run_numpy_pool]. *)
Lemma run_numpy_pool_once (op_arg : Pool.pool_op) (empty : list (list A)) :
  Z.of_nat (length empty) = K * M * P * Q ->
  exists cpuO cpuB,
    Pool.run_numpy_pool_n 1 op_arg cpuI cpuE pool empty = Some (cpuO, cpuB) /\
    has_shape cpuB (C * D * H * W + 1, N) /\
    (forall k m p q n, 0 <= k < K -> 0 <= m < M -> 0 <= p < P -> 0 <= q < Q ->
       0 <= n < N ->
       exists row, cpuO !! Z.to_nat (row5 (M, P, Q) k m p q) = Some row /\
         row = pool_out k m p q) /\
    (forall c z y x n, in_bounds C D H W c z y x = true -> 0 <= n < N ->
       at2 cpuB (flat_index D H W c z y x) n =
       fold_left (pool_back_elem c z y x n) (taps4 K M P Q) zero).
Proof.
  intros Hle. unfold Pool.run_numpy_pool_n.
  change (range 1) with [0]. cbn [for_each]. unfold Pool.pool_pass.
  cbn [Pool.MPQ Pool.pool_K Pool.dimI].
  rewrite (for_each_windows4 K M P Q
    (fun k m p q st => Pool.pool_window pool cpuI cpuE k m p q st)).
  rewrite sliceable5.
  assert (Hnn : 0 <= C * D * H * W) by nia.
  pose proof (has_shape_zeros (A:=A) (C * D * H * W + 1) N ltac:(lia) HN) as Hz.
  rewrite (fill_has_shape _ _ _ Hz).
  destruct (pool_loops empty (zeros (C * D * H * W + 1, N)) Hle Hz)
    as (cpuO & cpuB & Hrun & HlO & HsB & HOv & HBv).
  exists cpuO, cpuB. split.
  { etrans; [|exact (f_equal (fun r => match r with Some s => Some s | None => None end) Hrun)].
    by destruct (for_each _ _ _). }
  split; [done|]. split.
  - intros k m p q n Hk Hm Hp Hq Hn. eexists. split; [by apply HOv|done].
  - intros c z y x n Hb Hn. rewrite HBv by done. f_equal.
    pose proof (flat_index_bounds _ _ _ _ _ _ _ _ Hb) as Hfb. unfold sentinel in Hfb.
    destruct (at2_has_shape _ _ _ (flat_index D H W c z y x) n Hz) as
      (row & x0 & Hrow & Hx0 & _ & ->); [lia..|].
    unfold zeros in Hrow. simpl in Hrow.
    apply lookup_replicate_1 in Hrow as [-> _].
    by apply lookup_replicate_1 in Hx0 as [-> _].
Qed.

(** The numpy part of [test_pool_layer] with a single iteration of the
    repeat loop. *)
Lemma pool_reference_once (empty : list (list A)) :
  pad = match o with Pool.op_max => fmin | _ => zero end ->
  Z.of_nat (length empty) = K * M * P * Q ->
  exists cpuO cpuB,
    Pool.pool_reference_n 1 pool cpuI0 cpuE empty = Some (cpuO, cpuB) /\
    Z.of_nat (length cpuB) = C * D * H * W /\
    (forall k m p q n, 0 <= k < K -> 0 <= m < M -> 0 <= p < P -> 0 <= q < Q ->
       0 <= n < N ->
       E5 cpuO (M, P, Q) k m p q n =
       match o with
       | Pool.op_max => default zero (vmax (pool_window_values pool cpuI0 pad k m p q n))
       | Pool.op_avg =>
           div (sumA (pool_window_values pool cpuI0 pad k m p q n))
             (of_int (J * T * R * S_))
       | Pool.op_l2 =>
           sqrt (sumA (map (fun x => mul x x) (pool_window_values pool cpuI0 pad k m p q n)))
       end) /\
    (forall c z y x n, in_bounds C D H W c z y x = true -> 0 <= n < N ->
       I5 cpuB D H W c z y x n =
       fold_left (fun acc '(k, m, p, q) =>
         match pool_tap_at pool k m p q c z y x with
         | Some pos =>
             match o with
             | Pool.op_max =>
                 if decide (vargmax (pool_window_values pool cpuI0 pad k m p q n) = Some pos)
                 then add acc (E5 cpuE (M, P, Q) k m p q n) else acc
             | Pool.op_avg =>
                 add acc (mul (E5 cpuE (M, P, Q) k m p q n)
                              (div one (of_int (J * T * R * S_))))
             | Pool.op_l2 => acc
             end
         | None => acc
         end) (taps4 K M P Q) zero).
Proof.
  intros Hpad Hle. unfold Pool.pool_reference_n. cbn [Pool.op].
  assert (Hnn : 0 <= C * D * H * W) by nia.
  rewrite (fill_row_last cpuI0 _ (C * D * H * W)) by (done || apply HsI0).
  rewrite <- Hpad, <- HcpuI. cbn [mbind option_bind].
  destruct (run_numpy_pool_once o empty Hle) as (cpuO & cpuB & Hrun & HsB & HOv & HBv).
  rewrite Hrun. cbn [mbind option_bind fst snd].
  exists cpuO, (but_last cpuB). split; [done|].
  destruct HsB as [HlB HrB]. cbn [fst snd] in HlB, HrB.
  split; [unfold but_last; rewrite length_take_le by lia; lia|]. split.
  - intros k m p q n Hk Hm Hp Hq Hn.
    destruct (HOv k m p q n Hk Hm Hp Hq Hn) as (row & Hrow & ->).
    pose proof (row5_bounds K M P Q k m p q Hk Hm Hp Hq).
    unfold E5. eapply at2_lookup; [lia|lia|exact Hrow|]. by apply pool_out_elem.
  - intros c z y x n Hb Hn.
    pose proof (flat_index_bounds _ _ _ _ _ _ _ _ Hb) as Hfb. unfold sentinel in Hfb.
    unfold I5. rewrite at2_but_last by lia. rewrite HBv by done.
    by apply pool_back_fold.
Qed.

(** *** Shapes of the results *)

Lemma length_pool_out k m p q : Z.of_nat (length (pool_out k m p q)) = N.
Proof.
  unfold pool_out, mean_axis0, l2_axis0.
  destruct o; rewrite length_fmap, length_range; lia.
Qed.

Lemma run_numpy_pool_once_shape (op_arg : Pool.pool_op) (empty : list (list A)) :
  Z.of_nat (length empty) = K * M * P * Q ->
  exists cpuO cpuB,
    Pool.run_numpy_pool_n 1 op_arg cpuI cpuE pool empty = Some (cpuO, cpuB) /\
    has_shape cpuO (K * M * P * Q, N) /\
    has_shape cpuB (C * D * H * W + 1, N).
Proof.
  intros Hle. unfold Pool.run_numpy_pool_n.
  change (range 1) with [0]. cbn [for_each]. unfold Pool.pool_pass.
  cbn [Pool.MPQ Pool.pool_K Pool.dimI].
  rewrite (for_each_windows4 K M P Q
    (fun k m p q st => Pool.pool_window pool cpuI cpuE k m p q st)).
  rewrite sliceable5.
  assert (Hnn : 0 <= C * D * H * W) by nia.
  pose proof (has_shape_zeros (A:=A) (C * D * H * W + 1) N ltac:(lia) HN) as Hz.
  rewrite (fill_has_shape _ _ _ Hz).
  destruct (pool_loops empty (zeros (C * D * H * W + 1, N)) Hle Hz)
    as (cpuO & cpuB & Hrun & HlO & HsB & HOv & HBv).
  exists cpuO, cpuB. split.
  { etrans; [|exact (f_equal (fun r => match r with Some s => Some s | None => None end) Hrun)].
    by destruct (for_each _ _ _). }
  split; [|done]. split; cbn [fst snd]; [lia|].
  apply Forall_lookup. intros i row Hrow.
  pose proof (lookup_lt_Some _ _ _ Hrow) as Hi.
  destruct (flat_index_surj K M P Q (Z.of_nat i)) as (k & m & p & q & Hb & Hfl);
    [done..|lia|].
  unfold in_bounds in Hb. rewrite <- row5_flat_index in Hfl.
  specialize (HOv k m p q ltac:(lia) ltac:(lia) ltac:(lia) ltac:(lia)).
  rewrite Hfl, Nat2Z.id, Hrow in HOv. injection HOv as ->.
  apply length_pool_out.
Qed.

Lemma pool_reference_once_shape (empty : list (list A)) :
  pad = match o with Pool.op_max => fmin | _ => zero end ->
  Z.of_nat (length empty) = K * M * P * Q ->
  exists cpuO cpuB,
    Pool.pool_reference_n 1 pool cpuI0 cpuE empty = Some (cpuO, cpuB) /\
    has_shape cpuO (K * M * P * Q, N) /\
    has_shape cpuB (C * D * H * W, N).
Proof.
  intros Hpad Hle. unfold Pool.pool_reference_n. cbn [Pool.op].
  assert (Hnn : 0 <= C * D * H * W) by nia.
  rewrite (fill_row_last cpuI0 _ (C * D * H * W)) by (done || apply HsI0).
  rewrite <- Hpad, <- HcpuI. cbn [mbind option_bind].
  destruct (run_numpy_pool_once_shape o empty Hle) as (cpuO & cpuB & Hrun & HsO & HsB).
  rewrite Hrun. cbn [mbind option_bind fst snd].
  exists cpuO, (but_last cpuB). split; [done|]. split; [done|].
  destruct HsB as [HlB HrB]. cbn [fst snd] in HlB, HrB.
  split; cbn [fst snd].
  - unfold but_last. rewrite length_take_le by lia. lia.
  - unfold but_last. by apply Forall_take.
Qed.

End PoolReference.

(** ** Repeating the pooling reference *)

Section Writes.
Context {X V : Type}.

(** A run of stores into a list. *)
Definition writes (ps : list (nat * V)) (l : list V) : list V :=
  fold_left (fun l nv => <[fst nv := snd nv]> l) ps l.

Lemma writes_insert_in (ps : list (nat * V)) : forall l n v,
  n ∈ ps.*1 -> writes ps (<[n := v]> l) = writes ps l.
Proof.
  unfold writes. induction ps as [|[n' v'] ps IH]; intros l n v Hin; cbn [fold_left fst snd].
  - by apply elem_of_nil in Hin.
  - destruct (decide (n' = n)) as [->|Hne].
    + by rewrite list_insert_insert_eq.
    + rewrite list_insert_insert_ne by done. apply IH.
      rewrite fmap_cons in Hin. apply elem_of_cons in Hin as [?|?]; [|done].
      simpl in *. congruence.
Qed.

Lemma writes_insert_notin (ps : list (nat * V)) : forall l n v,
  n ∉ ps.*1 -> writes ps (<[n := v]> l) = <[n := v]> (writes ps l).
Proof.
  unfold writes. induction ps as [|[n' v'] ps IH]; intros l n v Hin; cbn [fold_left fst snd].
  - done.
  - rewrite fmap_cons in Hin. apply not_elem_of_cons in Hin as [Hne Hin]. simpl in Hne.
    rewrite list_insert_insert_ne by done. by apply IH.
Qed.

(** Storing the same run twice is storing it once. *)
Lemma writes_idem (ps : list (nat * V)) : forall l, writes ps (writes ps l) = writes ps l.
Proof.
  induction ps as [|[n v] ps IH]; intros l; [done|].
  assert (Hcons : forall l', writes ((n, v) :: ps) l' = writes ps (<[n := v]> l')) by done.
  rewrite !Hcons.
  destruct (decide (n ∈ ps.*1)) as [Hin|Hnin].
  - rewrite (writes_insert_in ps _ n v Hin). apply IH.
  - rewrite <- (writes_insert_notin ps _ n v Hnin).
    rewrite list_insert_insert_eq. apply IH.
Qed.

(** A store that may be skipped. *)
Definition apply_write (wr : X -> option (nat * V)) (l : list V) (x : X) : list V :=
  match wr x with
  | Some (n, v) => <[n := v]> l
  | None => l
  end.

Lemma apply_writes (wr : X -> option (nat * V)) (ws : list X) : forall l,
  fold_left (apply_write wr) ws l = writes (omap wr ws) l.
Proof.
  induction ws as [|x ws IH]; intros l; [done|]. cbn [fold_left].
  rewrite IH. unfold apply_write. simpl. by destruct (wr x) as [[n v]|].
Qed.

Lemma apply_writes_idem (wr : X -> option (nat * V)) (ws : list X) l :
  fold_left (apply_write wr) ws (fold_left (apply_write wr) ws l) =
  fold_left (apply_write wr) ws l.
Proof. rewrite !apply_writes. apply writes_idem. Qed.

Lemma length_apply_writes (wr : X -> option (nat * V)) (ws : list X) : forall l,
  length (fold_left (apply_write wr) ws l) = length l.
Proof.
  induction ws as [|x ws IH]; intros l; [done|]. cbn [fold_left]. rewrite IH.
  unfold apply_write. destruct (wr x) as [[n v]|]; [|done]. apply length_insert.
Qed.

End Writes.

Section ForEachKeeps.
Context {X S : Type}.

Lemma for_each_keeps (Pk : S -> Prop) (body : X -> S -> option S) (l : list X) :
  (forall x s s', body x s = Some s' -> Pk s -> Pk s') ->
  forall s s', for_each l body s = Some s' -> Pk s -> Pk s'.
Proof.
  intros Hb. induction l as [|x l IH]; intros s s' Hrun Hs; simpl in Hrun.
  - by injection Hrun as <-.
  - destruct (body x s) as [s1|] eqn:H1; [|done]. eapply IH; [done|]. by eapply Hb.
Qed.

End ForEachKeeps.

Section PoolRepeat.
Context {A : Type} {NA : Numeric A}.
Variables (pool : Pool.PoolLayer) (cpuI cpuE : list (list A)).

(** The output row of the window (k,m,p,q), where it can be computed. *)
Definition pool_val (k m p q : Z) : option (list A) :=
  let '(pad_j, pad_d, pad_h, pad_w) := Pool.padding pool in
  let '(str_j, str_d, str_h, str_w) := Pool.strides pool in
  let idx := Pool.pixel_indices pool (k * str_j - pad_j) (m * str_d - pad_d)
               (p * str_h - pad_h) (q * str_w - pad_w) in
  g ← take_rows cpuI idx;
  match Pool.op pool with
  | Pool.op_max => max_axis0 (Pool.pool_N pool) g
  | Pool.op_avg => Some (mean_axis0 (Pool.pool_N pool) g)
  | Pool.op_l2 => Some (l2_axis0 (Pool.pool_N pool) g)
  end.

(** The store of the window (k,m,p,q) into an output array of [len] rows. *)
Definition pool_store (len : nat) (w : Z * Z * Z * Z) : option (nat * list A) :=
  let '(k, m, p, q) := w in
  v ← pool_val k m p q;
  n ← norm_index len (row5 (Pool.MPQ pool) k m p q);
  Some (n, v).

(** What a window does to the output array does not depend on the
    gradient array, and what it does to the gradient array does not
    depend on the output array. *)
Lemma pool_window_det k m p q (cpuO cpuB cpuO1 cpuB1 : list (list A)) :
  Pool.pool_window pool cpuI cpuE k m p q (cpuO, cpuB) = Some (cpuO1, cpuB1) ->
  cpuO1 = apply_write (pool_store (length cpuO)) cpuO (k, m, p, q) /\
  forall cpuO', length cpuO' = length cpuO ->
    Pool.pool_window pool cpuI cpuE k m p q (cpuO', cpuB) =
    Some (apply_write (pool_store (length cpuO)) cpuO' (k, m, p, q), cpuB1).
Proof.
  unfold Pool.pool_window, apply_write, pool_store, pool_val, setitem.
  destruct (Pool.padding pool) as [[[pad_j pad_d] pad_h] pad_w].
  destruct (Pool.strides pool) as [[[str_j str_d] str_h] str_w].
  intros Hrun.
  destruct (Pool.op pool);
    destruct (take_rows cpuI _) as [g|]; try done; cbn [mbind option_bind] in *.
  - destruct (max_axis0 _ g) as [v|]; [|done]. cbn [mbind option_bind] in *.
    destruct (norm_index (length cpuO) _) as [n|] eqn:Hn; [|done].
    cbn [mbind option_bind] in *.
    destruct (argmax_axis0 _ g) as [b_idx|]; [|done]. cbn [mbind option_bind] in *.
    destruct (item cpuE _) as [e|]; [|done]. cbn [mbind option_bind] in *.
    destruct (for_each _ _ cpuB) as [cpuB'|]; [|done]. cbn [mbind option_bind] in *.
    injection Hrun as <- <-. split; [done|]. intros cpuO' ->. by rewrite Hn.
  - destruct (norm_index (length cpuO) _) as [n|] eqn:Hn; [|done].
    cbn [mbind option_bind] in *.
    destruct (item cpuE _) as [e|]; [|done]. cbn [mbind option_bind] in *.
    destruct (Z.of_nat _ =? 0); [done|]. cbn [mbind option_bind] in *.
    destruct (iadd_rows_bcast _ _ _) as [cpuB'|]; [|done]. cbn [mbind option_bind] in *.
    injection Hrun as <- <-. split; [done|]. intros cpuO' ->. by rewrite Hn.
  - destruct (norm_index (length cpuO) _) as [n|] eqn:Hn; [|done].
    cbn [mbind option_bind] in *.
    injection Hrun as <- <-. split; [done|]. intros cpuO' ->. by rewrite Hn.
Qed.

Lemma iadd_at_shape (a a' : list (list A)) r c i n e :
  iadd_at a i n e = Some a' -> has_shape a (r, c) -> has_shape a' (r, c).
Proof.
  unfold iadd_at, setitem, item. intros Hrun [Hl Hr]. simpl in *.
  destruct (norm_index (length a) i) as [i'|]; [|done]. simpl in Hrun.
  destruct (a !! i') as [row|] eqn:Hrow; [|done]. simpl in Hrun.
  destruct (norm_index (length row) n) as [n'|]; [|done]. simpl in Hrun.
  destruct (row !! n') as [x|]; [|done]. simpl in Hrun. injection Hrun as <-.
  split; simpl; [by rewrite length_insert|].
  apply Forall_insert; [done|]. rewrite length_insert.
  by eapply (proj1 (Forall_lookup _ _) Hr).
Qed.

Lemma iadd_rows_bcast_shape (a a' : list (list A)) r c idx v :
  iadd_rows_bcast a idx v = Some a' -> Z.of_nat (length v) = c ->
  has_shape a (r, c) -> has_shape a' (r, c).
Proof.
  intros Hrun Hv [Hl Hr]. simpl in *. split; simpl.
  - unfold iadd_rows_bcast in Hrun.
    destruct (take_rows a idx) as [g|]; [|done]. simpl in Hrun.
    by rewrite (length_put_rows _ _ _ _ Hrun).
  - eapply iadd_rows_bcast_Forall; [exact Hrun|exact Hr|].
    intros row Hrow. simpl in *. rewrite length_vadd; lia.
Qed.

Hypothesis HrowE : Forall (fun e => Z.of_nat (length e) = Pool.pool_N pool) cpuE.

(** A window keeps the shape of the gradient array. *)
Lemma pool_window_shape k m p q r (cpuO cpuB cpuO1 cpuB1 : list (list A)) :
  Pool.pool_window pool cpuI cpuE k m p q (cpuO, cpuB) = Some (cpuO1, cpuB1) ->
  has_shape cpuB (r, Pool.pool_N pool) -> has_shape cpuB1 (r, Pool.pool_N pool).
Proof.
  unfold Pool.pool_window.
  destruct (Pool.padding pool) as [[[pad_j pad_d] pad_h] pad_w].
  destruct (Pool.strides pool) as [[[str_j str_d] str_h] str_w].
  intros Hrun Hs.
  destruct (Pool.op pool);
    destruct (take_rows cpuI _) as [g|]; try done; cbn [mbind option_bind] in *.
  - destruct (max_axis0 _ g) as [v|]; [|done]. cbn [mbind option_bind] in *.
    destruct (setitem cpuO _ _) as [cpuO'|]; [|done]. cbn [mbind option_bind] in *.
    destruct (argmax_axis0 _ g) as [b_idx|]; [|done]. cbn [mbind option_bind] in *.
    destruct (item cpuE _) as [e|]; [|done]. cbn [mbind option_bind] in *.
    destruct (for_each _ _ cpuB) as [cpuB'|] eqn:Hloop; [|done].
    cbn [mbind option_bind] in *. injection Hrun as <- <-.
    eapply (for_each_keeps (fun b => has_shape b (r, Pool.pool_N pool))); [|exact Hloop|done].
    intros n s s'. unfold Pool.max_scatter.
    destruct (item b_idx n) as [b|]; [|done]. cbn [mbind option_bind].
    destruct (item _ b) as [i|]; [|done]. cbn [mbind option_bind].
    destruct (item e n) as [en|]; [|done]. cbn [mbind option_bind].
    apply iadd_at_shape.
  - destruct (setitem cpuO _ _) as [cpuO'|]; [|done]. cbn [mbind option_bind] in *.
    destruct (item cpuE _) as [e|] eqn:He; [|done]. cbn [mbind option_bind] in *.
    destruct (Z.of_nat _ =? 0); [done|]. cbn [mbind option_bind] in *.
    destruct (iadd_rows_bcast _ _ _) as [cpuB'|] eqn:Hadd; [|done].
    cbn [mbind option_bind] in *. injection Hrun as <- <-.
    eapply iadd_rows_bcast_shape; [exact Hadd| |done].
    rewrite length_map. unfold item in He.
    destruct (norm_index _ _) as [n|]; [|done]. simpl in He.
    by eapply (proj1 (Forall_lookup _ _) HrowE).
  - destruct (setitem cpuO _ _) as [cpuO'|]; [|done]. cbn [mbind option_bind] in *.
    by injection Hrun as <- <-.
Qed.

(** The four window loops: the output array takes the stores of the
    windows, and the gradient array does not depend on the output array. *)
Lemma pool_windows_det (ws : list (Z * Z * Z * Z)) r :
  forall (cpuO cpuB cpuO1 cpuB1 : list (list A)),
  for_each ws (fun '(k, m, p, q) => Pool.pool_window pool cpuI cpuE k m p q) (cpuO, cpuB) =
    Some (cpuO1, cpuB1) ->
  has_shape cpuB (r, Pool.pool_N pool) ->
  cpuO1 = fold_left (apply_write (pool_store (length cpuO))) ws cpuO /\
  has_shape cpuB1 (r, Pool.pool_N pool) /\
  forall cpuO', length cpuO' = length cpuO ->
    for_each ws (fun '(k, m, p, q) => Pool.pool_window pool cpuI cpuE k m p q) (cpuO', cpuB) =
    Some (fold_left (apply_write (pool_store (length cpuO))) ws cpuO', cpuB1).
Proof.
  induction ws as [|[[[k m] p] q] ws IH]; intros cpuO cpuB cpuO1 cpuB1 Hrun Hs.
  - simpl in Hrun. injection Hrun as <- <-. split; [done|]. split; [done|]. by intros.
  - cbn [for_each fold_left] in *.
    destruct (Pool.pool_window pool cpuI cpuE k m p q (cpuO, cpuB))
      as [[cpuOa cpuBa]|] eqn:Hstep; [|done].
    destruct (pool_window_det k m p q _ _ _ _ Hstep) as [-> Hdet].
    pose proof (pool_window_shape k m p q r _ _ _ _ Hstep Hs) as Hsa.
    assert (Hla : length (apply_write (pool_store (length cpuO)) cpuO (k, m, p, q)) =
                  length cpuO).
    { unfold apply_write. destruct (pool_store _ _) as [[n v]|]; [|done].
      apply length_insert. }
    destruct (IH _ _ _ _ Hrun Hsa) as (HO1 & Hs1 & Hdet').
    rewrite Hla in HO1, Hdet'. split; [done|]. split; [done|].
    intros cpuO' Hl'. rewrite (Hdet cpuO' Hl'). apply Hdet'.
    unfold apply_write. destruct (pool_store _ _) as [[n v]|]; [|done].
    by rewrite length_insert.
Qed.

(** One more iteration of the repeat loop changes nothing. *)
Lemma pool_pass_idem r (cpuO cpuB cpuO1 cpuB1 : list (list A)) :
  Pool.pool_pass pool cpuI cpuE (cpuO, cpuB) = Some (cpuO1, cpuB1) ->
  has_shape cpuB (r, Pool.pool_N pool) ->
  Pool.pool_pass pool cpuI cpuE (cpuO1, cpuB1) = Some (cpuO1, cpuB1) /\
  has_shape cpuB1 (r, Pool.pool_N pool).
Proof.
  unfold Pool.pool_pass. destruct (Pool.MPQ pool) as [[M P] Q]. cbv beta iota zeta.
  rewrite !(for_each_windows4 (Pool.pool_K pool) M P Q
    (fun k m p q st => Pool.pool_window pool cpuI cpuE k m p q st)).
  intros Hrun Hs. rewrite (fill_has_shape cpuB _ _ Hs) in Hrun.
  assert (Hz : has_shape (fill cpuB zero) (r, Pool.pool_N pool)).
  { destruct Hs as [Hl Hr]. split; simpl in *.
    - unfold fill. by rewrite length_map.
    - unfold fill. apply Forall_fmap. eapply Forall_impl; [exact Hr|].
      intros row Hrow. simpl. by rewrite length_map. }
  rewrite (fill_has_shape cpuB _ _ Hs) in Hz.
  destruct (pool_windows_det _ r _ _ _ _ Hrun Hz) as (HO1 & Hs1 & Hdet).
  split; [|done]. rewrite (fill_has_shape cpuB1 _ _ Hs1).
  assert (Hl1 : length cpuO1 = length cpuO) by (rewrite HO1; apply length_apply_writes).
  etrans; [exact (Hdet cpuO1 Hl1)|]. do 2 f_equal.
  rewrite HO1. apply apply_writes_idem.
Qed.

End PoolRepeat.



Section Repeat.
Context {X S : Type}.

(** Repeating a step that changes nothing once it has run. *)
Lemma for_each_settles (Pk : S -> Prop) (f : S -> option S) (l : list X) :
  (forall s s1, Pk s -> f s = Some s1 -> f s1 = Some s1 /\ Pk s1) ->
  forall s, Pk s -> l <> [] -> for_each l (fun _ st => f st) s = f s.
Proof.
  intros Hf s Hs Hl. destruct l as [|x l]; [done|]. simpl.
  destruct (f s) as [s1|] eqn:H1; [|done].
  destruct (Hf s s1 Hs H1) as [H11 Hs1]. clear Hl H1 Hs.
  induction l as [|y l IH]; [done|]. simpl. by rewrite H11.
Qed.

End Repeat.

(** ** The pooling reference as a whole *)

Section PoolTheorems.
Context {A : Type} {NA : Numeric A}.

(** Running the repeat loop [rep] times, for any [rep] of at least 1, is
    running it once. *)
Lemma run_numpy_pool_settles (pool : Pool.PoolLayer) (cpuI cpuE empty : list (list A))
    (op_arg : Pool.pool_op) (rep : Z) :
  Pool.pool_shapes pool ->
  has_shape cpuE (sliceable (Pool.dimO pool) 0) ->
  1 <= rep ->
  Pool.run_numpy_pool_n rep op_arg cpuI cpuE pool empty =
  Pool.run_numpy_pool_n 1 op_arg cpuI cpuE pool empty.
Proof.
  intros Hshapes HsE Hrep. unfold Pool.run_numpy_pool_n.
  unfold Pool.pool_shapes in Hshapes.
  destruct (Pool.DHW pool) as [[D H] W], (Pool.JTRS pool) as [[[J T] R] S_],
    (Pool.MPQ pool) as [[M P] Q].
  destruct Hshapes as (HdI & HdO & HN & HC & HK & HD & HH & HW & _).
  rewrite HdI, sliceable5. rewrite HdO, sliceable5 in HsE.
  set (r := Pool.pool_C pool * D * H * W + 1).
  assert (Hz : has_shape (A:=A) (zeros (r, Pool.pool_N pool)) (r, Pool.pool_N pool)).
  { apply has_shape_zeros; [unfold r; nia|done]. }
  set (Pk := fun st : list (list A) * list (list A) =>
               has_shape (snd st) (r, Pool.pool_N pool)).
  assert (Hstep : forall s s1, Pk s -> Pool.pool_pass pool cpuI cpuE s = Some s1 ->
            Pool.pool_pass pool cpuI cpuE s1 = Some s1 /\ Pk s1).
  { intros [cpuO cpuB] [cpuO1 cpuB1] Hs Hrun. unfold Pk in *. simpl in *.
    eapply pool_pass_idem; [|exact Hrun|exact Hs]. apply HsE. }
  rewrite !(for_each_settles Pk (Pool.pool_pass pool cpuI cpuE)); try done.
  - intros Hnil. apply (f_equal length) in Hnil. rewrite length_range in Hnil.
    simpl in Hnil. lia.
Qed.

Lemma pool_reference_settles (pool : Pool.PoolLayer) (cpuI0 cpuE empty : list (list A))
    (rep : Z) :
  Pool.pool_shapes pool ->
  has_shape cpuE (sliceable (Pool.dimO pool) 0) ->
  1 <= rep ->
  Pool.pool_reference_n rep pool cpuI0 cpuE empty =
  Pool.pool_reference_n 1 pool cpuI0 cpuE empty.
Proof.
  intros Hshapes HsE Hrep. unfold Pool.pool_reference_n.
  destruct (fill_row cpuI0 (-1) _) as [cpuI|]; [|done]. cbn [mbind option_bind].
  by rewrite (run_numpy_pool_settles pool cpuI cpuE empty (Pool.op pool) rep).
Qed.

(** The numpy part of [test_pool_layer] returns, with the output and the
    gradient in closed form. *)
Lemma pool_reference_result (pool : Pool.PoolLayer) (cpuI0 cpuE empty : list (list A)) :
  Pool.pool_shapes pool ->
  Pool.pool_window_positive pool ->
  has_shape cpuI0 (sliceable (Pool.dimI pool) 1) ->
  has_shape cpuE (sliceable (Pool.dimO pool) 0) ->
  has_shape empty (sliceable (Pool.dimO pool) 0) ->
  let '(D, H, W) := Pool.DHW pool in
  let '(J, T, R, S_) := Pool.JTRS pool in
  let '(M, P, Q) := Pool.MPQ pool in
  let pad := match Pool.op pool with Pool.op_max => fmin | _ => zero end in
  exists cpuO cpuB,
    Pool.pool_reference pool cpuI0 cpuE empty = Some (cpuO, cpuB) /\
    Z.of_nat (length cpuB) = Pool.pool_C pool * D * H * W /\
    (forall k m p q n, 0 <= k < Pool.pool_K pool -> 0 <= m < M -> 0 <= p < P ->
       0 <= q < Q -> 0 <= n < Pool.pool_N pool ->
       E5 cpuO (M, P, Q) k m p q n =
       match Pool.op pool with
       | Pool.op_max => default zero (vmax (pool_window_values pool cpuI0 pad k m p q n))
       | Pool.op_avg =>
           div (sumA (pool_window_values pool cpuI0 pad k m p q n))
             (of_int (J * T * R * S_))
       | Pool.op_l2 =>
           sqrt (sumA (map (fun x => mul x x) (pool_window_values pool cpuI0 pad k m p q n)))
       end) /\
    (forall c z y x n, in_bounds (Pool.pool_C pool) D H W c z y x = true ->
       0 <= n < Pool.pool_N pool ->
       I5 cpuB D H W c z y x n =
       fold_left (fun acc '(k, m, p, q) =>
         match pool_tap_at pool k m p q c z y x with
         | Some pos =>
             match Pool.op pool with
             | Pool.op_max =>
                 if decide (vargmax (pool_window_values pool cpuI0 pad k m p q n) = Some pos)
                 then add acc (E5 cpuE (M, P, Q) k m p q n) else acc
             | Pool.op_avg =>
                 add acc (mul (E5 cpuE (M, P, Q) k m p q n)
                              (div one (of_int (J * T * R * S_))))
             | Pool.op_l2 => acc
             end
         | None => acc
         end) (taps4 (Pool.pool_K pool) M P Q) zero).
Proof.
  intros Hshapes Hpos HsI HsE Hse.
  unfold Pool.pool_reference.
  rewrite (pool_reference_settles pool cpuI0 cpuE empty Pool.repeat Hshapes HsE)
    by (unfold Pool.repeat; lia).
  destruct pool as [o N C K [[D H] W] [[[J T] R] S_] [[M P] Q]
                      [[[pad_j pad_d] pad_h] pad_w]
                      [[[str_j str_d] str_h] str_w] dI dO].
  unfold Pool.pool_shapes, Pool.pool_window_positive in *.
  cbn [Pool.op Pool.pool_N Pool.pool_C Pool.pool_K Pool.DHW Pool.JTRS Pool.MPQ
       Pool.dimI Pool.dimO] in *.
  destruct Hshapes as (-> & -> & HN & HC & HK & HD & HH & HW & _ & _ & _ & _ & HM & HP & HQ).
  destruct Hpos as (HJ & HT & HR & HS).
  rewrite !sliceable5, ?Z.add_0_r in *.
  apply (pool_reference_once o N C K D H W J T R S_ M P Q pad_j pad_d pad_h pad_w
           str_j str_d str_h str_w HN HC HD HH HW HJ HT HR HS _ cpuE
           ltac:(rewrite length_insert; apply HsI) HsE cpuI0 _ HsI eq_refl empty eq_refl).
  apply Hse.
Qed.

End PoolTheorems.

(** C4. Average pooling in the reference of [test_pool_layer]: for every
    window position (k,m,p,q) and batch item n the output is the sum of
    the window, a tap out of bounds counting as 0, divided by the fixed
    window size J*T*R*S (not by the number of taps in bounds); and the
    gradient cpuB[:-1] at an input position is what the windows add in the
    order of the loops, every window with a tap on the position adding
    E[k,m,p,q,n] * (1.0/(J*T*R*S)), that is gradient/(J*T*R*S).  The taps
    out of bounds have no input position: what is added for them goes to
    the last row of cpuB, which the result drops. *)
Theorem pool_avg_reference {A : Type} {NA : Numeric A}
    (pool : Pool.PoolLayer) (cpuI0 cpuE empty : list (list A)) :
  Pool.op pool = Pool.op_avg ->
  Pool.pool_shapes pool ->
  Pool.pool_window_positive pool ->
  has_shape cpuI0 (sliceable (Pool.dimI pool) 1) ->
  has_shape cpuE (sliceable (Pool.dimO pool) 0) ->
  has_shape empty (sliceable (Pool.dimO pool) 0) ->
  let '(D, H, W) := Pool.DHW pool in
  let '(M, P, Q) := Pool.MPQ pool in
  exists cpuO cpuB,
    Pool.pool_reference pool cpuI0 cpuE empty = Some (cpuO, cpuB) /\
    Z.of_nat (length cpuB) = Pool.pool_C pool * D * H * W /\
    (forall k m p q n, 0 <= k < Pool.pool_K pool -> 0 <= m < M -> 0 <= p < P ->
       0 <= q < Q -> 0 <= n < Pool.pool_N pool ->
       E5 cpuO (M, P, Q) k m p q n = pool_avg_out pool cpuI0 k m p q n) /\
    (forall c z y x n, in_bounds (Pool.pool_C pool) D H W c z y x = true ->
       0 <= n < Pool.pool_N pool ->
       I5 cpuB D H W c z y x n = pool_avg_bprop_sum pool cpuE c z y x n).
Proof.
  intros Hop Hshapes Hpos HsI HsE Hse.
  pose proof (pool_reference_result pool cpuI0 cpuE empty Hshapes Hpos HsI HsE Hse) as Hres.
  unfold pool_avg_out, pool_avg_bprop_sum.
  destruct (Pool.DHW pool) as [[D H] W], (Pool.JTRS pool) as [[[J T] R] S_],
    (Pool.MPQ pool) as [[M P] Q].
  rewrite Hop in Hres. cbv zeta in Hres.
  destruct Hres as (cpuO & cpuB & Hrun & HlB & HOv & HBv).
  exists cpuO, cpuB. split; [done|]. split; [done|]. split.
  - intros k m p q n Hk Hm Hp Hq Hn. by apply HOv.
  - intros c z y x n Hb Hn. by apply HBv.
Qed.

(** The tap with position [b] in a window lies on one input position
    only: the start of the window plus the tap's offsets. *)
Lemma tap_at_unique J T R S_ kj mt pr qs b :
  0 <= J -> 0 <= T -> 0 <= R -> 0 <= S_ -> 0 <= b < J * T * R * S_ ->
  exists j t r s, taps4 J T R S_ !! Z.to_nat b = Some (j, t, r, s) /\
    forall c z y x, tap_at J T R S_ kj mt pr qs c z y x = Some b <->
      (c, z, y, x) = (kj + j, mt + t, pr + r, qs + s).
Proof.
  intros HJ HT HR HS Hb.
  destruct (lookup_lt_is_Some_2 (taps4 J T R S_) (Z.to_nat b)) as [[[[j t] r] s] Htap].
  { pose proof (length_taps4 J T R S_ HJ HT HR HS). lia. }
  exists j, t, r, s. split; [done|].
  apply lookup_taps4 in Htap as [Hin Hpos]; [|done..].
  apply elem_of_taps4 in Hin as (Hj & Ht & Hr & Hs).
  rewrite Z2Nat.id in Hpos by lia.
  intros c z y x. unfold tap_at. split.
  - case_match eqn:Hcond; [|done]. intros [= Heq]. rewrite Hpos in Heq.
    unfold tap_pos in Heq.
    apply (flat_index_inj T R S_) in Heq as (? & ? & ? & ?); [|lia..].
    f_equal; [f_equal; [f_equal|]|]; lia.
  - intros [= -> -> -> ->].
    replace (kj + j - kj) with j by lia. replace (mt + t - mt) with t by lia.
    replace (pr + r - pr) with r by lia. replace (qs + s - qs) with s by lia.
    rewrite Hpos. case_match; [done|lia].
Qed.

(** C5, as the code has it.  Max pooling in the reference of
    [test_pool_layer], for an element order in which [ltb] is a strict weak
    order: for every window position (k,m,p,q) and batch item n the output
    is the maximum of the values of the window's taps (a tap out of bounds
    has the value finfo.min), found at the position [b] of its first
    occurrence in the order channel-window, depth, row, column; the
    gradient goes to the row of that one tap, so it reaches the input
    position (c,z,y,x) exactly when (c,z,y,x) is the position of the tap
    [b], and it reaches no input position when that tap is out of bounds
    (its row is then the last row of cpuB, which the result drops). *)
Theorem pool_max_reference {A : Type} {NA : Numeric A}
    (pool : Pool.PoolLayer) (cpuI0 cpuE empty : list (list A)) :
  Pool.op pool = Pool.op_max ->
  Pool.pool_shapes pool ->
  Pool.pool_window_positive pool ->
  has_shape cpuI0 (sliceable (Pool.dimI pool) 1) ->
  has_shape cpuE (sliceable (Pool.dimO pool) 0) ->
  has_shape empty (sliceable (Pool.dimO pool) 0) ->
  (forall x : A, ltb x x = false) ->
  (forall x y : A, ltb x y = true -> ltb y x = false) ->
  (forall x y z : A, ltb x z = true -> ltb x y = true \/ ltb y z = true) ->
  let '(D, H, W) := Pool.DHW pool in
  let '(J, T, R, S_) := Pool.JTRS pool in
  let '(M, P, Q) := Pool.MPQ pool in
  exists cpuO cpuB,
    Pool.pool_reference pool cpuI0 cpuE empty = Some (cpuO, cpuB) /\
    Z.of_nat (length cpuB) = Pool.pool_C pool * D * H * W /\
    (forall k m p q n, 0 <= k < Pool.pool_K pool -> 0 <= m < M -> 0 <= p < P ->
       0 <= q < Q -> 0 <= n < Pool.pool_N pool ->
       let vals := pool_window_values pool cpuI0 fmin k m p q n in
       let '(kj, mt, pr, qs) := pool_start pool k m p q in
       exists b j t r s,
         vargmax vals = Some b /\ first_max vals b /\
         vals !! Z.to_nat b = Some (E5 cpuO (M, P, Q) k m p q n) /\
         taps4 J T R S_ !! Z.to_nat b = Some (j, t, r, s) /\
         forall c z y x, pool_tap_at pool k m p q c z y x = Some b <->
           (c, z, y, x) = (kj + j, mt + t, pr + r, qs + s)) /\
    (forall c z y x n, in_bounds (Pool.pool_C pool) D H W c z y x = true ->
       0 <= n < Pool.pool_N pool ->
       I5 cpuB D H W c z y x n = pool_max_bprop_sum pool cpuI0 cpuE c z y x n).
Proof.
  intros Hop Hshapes Hpos HsI HsE Hse Hirr Hasym Hneg.
  pose proof (pool_reference_result pool cpuI0 cpuE empty Hshapes Hpos HsI HsE Hse) as Hres.
  unfold pool_max_bprop_sum, pool_tap_at.
  unfold Pool.pool_shapes, Pool.pool_window_positive in *.
  destruct (Pool.DHW pool) as [[D H] W] eqn:HDHW,
    (Pool.JTRS pool) as [[[J T] R] S_] eqn:HJTRS,
    (Pool.MPQ pool) as [[M P] Q] eqn:HMPQ.
  rewrite Hop in Hres. cbv zeta in Hres.
  destruct Hres as (cpuO & cpuB & Hrun & HlB & HOv & HBv).
  destruct Hpos as (HJ & HT & HR & HS).
  exists cpuO, cpuB. split; [done|]. split; [done|]. split.
  - intros k m p q n Hk Hm Hp Hq Hn. cbv zeta.
    destruct (pool_start pool k m p q) as [[[kj mt] pr] qs] eqn:Hstart.
    set (vals := pool_window_values pool cpuI0 fmin k m p q n).
    assert (Hlen : Z.of_nat (length vals) = J * T * R * S_).
    { unfold vals, pool_window_values. rewrite HJTRS, HDHW, Hstart.
      rewrite length_fmap. apply length_taps4; lia. }
    assert (Hne : vals <> []).
    { intros Hnil. rewrite Hnil in Hlen. simpl in Hlen. nia. }
    destruct (vargmax_spec Hirr Hasym Hneg vals Hne) as (b & v & Hb & Hv & Hfm & Hbv).
    assert (Hbr : 0 <= b < J * T * R * S_).
    { destruct Hfm as [Hb0 _]. apply lookup_lt_Some in Hbv. lia. }
    destruct (tap_at_unique J T R S_ kj mt pr qs b) as (j & t & r & s & Htap & Huniq);
      [lia..|].
    exists b, j, t, r, s. split; [done|]. split; [done|]. split; [|split; [done|]].
    + rewrite (HOv k m p q n) by done. fold vals. by rewrite Hv.
    + intros c z y x. apply Huniq.
  - intros c z y x n Hb Hn. rewrite HBv by done.
    unfold pool_tap_at. by rewrite HJTRS.
Qed.

(** C5, as the claim states it, fails: a max pooling layer with one
    channel, a window of one tap, channel padding 1 and channel stride 3
    has one window, and that window lies in the padding.  Its upstream
    gradient is 10, and the gradient of every input position stays 0. *)
Lemma pool_max_outside_window_counterexample :
  let pool := Pool.pool_layer Pool.op_max 1 1 1 1 1 1 1 1 1 1 0 0 0 3 1 1 1 in
  let cpuE := [[10]] in
  Pool.pool_K pool = 1 /\ Pool.MPQ pool = (1, 1, 1) /\
  E5 (A:=Z) cpuE (1, 1, 1) 0 0 0 0 0 = 10 /\
  exists cpuO cpuB,
    Pool.pool_reference (A:=Z) pool [[4]; [77]] cpuE [[42]] = Some (cpuO, cpuB) /\
    forall c z y x, in_bounds 1 1 1 1 c z y x = true ->
      I5 (A:=Z) cpuB 1 1 1 c z y x 0 = 0.
Proof.
  cbv zeta. split; [done|]. split; [done|]. split; [done|].
  exists [[-1000000]], [[0]]. split; [by vm_compute|].
  intros c z y x Hb. unfold in_bounds in Hb.
  assert (c = 0 /\ z = 0 /\ y = 0 /\ x = 0) as (-> & -> & -> & ->) by lia.
  done.
Qed.

(** C7. The repeat loop of [run_numpy_pool] (repeat = 5, the gradient
    array refilled with 0 at the start of each iteration) returns exactly
    the output and gradient arrays that a single iteration returns, for
    every pooling layer with consistent shapes and a window of at least
    one tap, whatever its op, and for every input of the right shapes
    ([empty] is the content of np.empty(dimO) before the loop). *)
Theorem pool_repeat_idempotent {A : Type} {NA : Numeric A}
    (pool : Pool.PoolLayer) (op_arg : Pool.pool_op) (cpuI cpuE empty : list (list A)) :
  Pool.pool_shapes pool ->
  Pool.pool_window_positive pool ->
  has_shape cpuI (sliceable (Pool.dimI pool) 1) ->
  has_shape cpuE (sliceable (Pool.dimO pool) 0) ->
  has_shape empty (sliceable (Pool.dimO pool) 0) ->
  Pool.repeat = 5 /\
  exists cpuO cpuB,
    Pool.run_numpy_pool op_arg cpuI cpuE pool empty = Some (cpuO, cpuB) /\
    Pool.run_numpy_pool_n 1 op_arg cpuI cpuE pool empty = Some (cpuO, cpuB).
Proof.
  intros Hshapes Hpos HsI HsE Hse. split; [done|].
  unfold Pool.run_numpy_pool.
  rewrite (run_numpy_pool_settles pool cpuI cpuE empty op_arg Pool.repeat Hshapes HsE)
    by (unfold Pool.repeat; lia).
  destruct pool as [o N C K [[D H] W] [[[J T] R] S_] [[M P] Q]
                      [[[pad_j pad_d] pad_h] pad_w]
                      [[[str_j str_d] str_h] str_w] dI dO].
  unfold Pool.pool_shapes, Pool.pool_window_positive in *.
  cbn [Pool.op Pool.pool_N Pool.pool_C Pool.pool_K Pool.DHW Pool.JTRS Pool.MPQ
       Pool.dimI Pool.dimO] in *.
  destruct Hshapes as (-> & -> & HN & HC & HK & HD & HH & HW & _ & _ & _ & _ & HM & HP & HQ).
  destruct Hpos as (HJ & HT & HR & HS).
  rewrite !sliceable5, ?Z.add_0_r in *.
  destruct (run_numpy_pool_once o N C K D H W J T R S_ M P Q pad_j pad_d pad_h pad_w
              str_j str_d str_h str_w HN HC HD HH HW HJ HT HR HS cpuI cpuE
              ltac:(apply HsI) HsE op_arg empty ltac:(apply Hse))
    as (cpuO & cpuB & Hrun & _).
  by exists cpuO, cpuB.
Qed.

(** C8. Average pooling in the reference of [test_pool_layer] never
    divides by zero: for every window, wherever it starts, the index list
    has J*T*R*S entries, a positive number that does not depend on how many
    taps are in bounds, so the computation returns (the model returns
    [None] where 1.0/len(idx) would raise); and a window all of whose taps
    are out of bounds has the output 0, given 0 + 0 = 0 and 0/d = 0 for a
    positive count d in the element arithmetic. *)
Theorem pool_avg_divisor {A : Type} {NA : Numeric A}
    (pool : Pool.PoolLayer) (cpuI0 cpuE empty : list (list A)) :
  Pool.op pool = Pool.op_avg ->
  Pool.pool_shapes pool ->
  Pool.pool_window_positive pool ->
  has_shape cpuI0 (sliceable (Pool.dimI pool) 1) ->
  has_shape cpuE (sliceable (Pool.dimO pool) 0) ->
  has_shape empty (sliceable (Pool.dimO pool) 0) ->
  add (zero (A:=A)) zero = zero ->
  (forall d, 0 < d -> div (zero (A:=A)) (of_int d) = zero) ->
  let '(J, T, R, S_) := Pool.JTRS pool in
  let '(M, P, Q) := Pool.MPQ pool in
  0 < J * T * R * S_ /\
  (forall kj mt pr qs,
     Z.of_nat (length (Pool.pixel_indices pool kj mt pr qs)) = J * T * R * S_) /\
  exists cpuO cpuB,
    Pool.pool_reference pool cpuI0 cpuE empty = Some (cpuO, cpuB) /\
    forall k m p q n, 0 <= k < Pool.pool_K pool -> 0 <= m < M -> 0 <= p < P ->
      0 <= q < Q -> 0 <= n < Pool.pool_N pool ->
      E5 cpuO (M, P, Q) k m p q n =
        div (sumA (pool_window_values pool cpuI0 zero k m p q n)) (of_int (J * T * R * S_)) /\
      (pool_window_outside pool k m p q -> E5 cpuO (M, P, Q) k m p q n = zero).
Proof.
  intros Hop Hshapes Hpos HsI HsE Hse Hadd0 Hdiv0.
  pose proof (pool_avg_reference pool cpuI0 cpuE empty Hop Hshapes Hpos HsI HsE Hse) as Hres.
  unfold pool_avg_out, pool_window_values in Hres.
  unfold Pool.pool_window_positive in Hpos.
  pose proof (pool_pixel_indices_taps pool) as Htaps.
  unfold pool_window_outside, pool_window_values.
  destruct (Pool.DHW pool) as [[D H] W], (Pool.JTRS pool) as [[[J T] R] S_] eqn:HJTRS,
    (Pool.MPQ pool) as [[M P] Q].
  destruct Hpos as (HJ & HT & HR & HS).
  assert (Hpos : 0 < J * T * R * S_) by nia.
  split; [done|]. split.
  { intros kj mt pr qs. rewrite Htaps. apply length_window_indices; lia. }
  destruct Hres as (cpuO & cpuB & Hrun & _ & HOv & _).
  exists cpuO, cpuB. split; [done|].
  intros k m p q n Hk Hm Hp Hq Hn. rewrite HOv by done. split; [done|].
  destruct (pool_start pool k m p q) as [[[kj mt] pr] qs].
  intros Hout. rewrite sumA_zero; [by apply Hdiv0|done|].
  apply Forall_fmap, Forall_forall.
  intros [[[j t] r] s] (Hj & Ht & Hr & Hs)%elem_of_taps4. simpl.
  unfold tap_value. by rewrite Hout.
Qed.

(** ** Window indices, descriptor sizes and the degenerate layer *)

(** C10. Wherever the window starts (any integers kj, mt, pr, qs), the
    convolution [pixel_indices] returns exactly C*T*R*S indices and the
    pooling [pixel_indices] exactly J*T*R*S, one per tap in the order of
    the loops; every index lies in the closed range [0, C*D*H*W]; the index
    of a tap is the sentinel C*D*H*W exactly when the tap is out of bounds
    (and the row of its input position otherwise); so gathering rows from
    an array with C*D*H*W + 1 rows never indexes out of range.  The sizes of
    the layers are taken non-negative. *)
Theorem pixel_indices_safe {A : Type} {NA : Numeric A}
    (conv : Conv.ConvLayer) (pool : Pool.PoolLayer) (kj mt pr qs : Z) :
  let '(D, H, W) := Conv.DHW conv in
  let '(T, R, S_) := Conv.TRS conv in
  let '(D', H', W') := Pool.DHW pool in
  let '(J', T', R', S') := Pool.JTRS pool in
  0 <= Conv.conv_C conv -> 0 <= D -> 0 <= H -> 0 <= W -> 0 <= T -> 0 <= R -> 0 <= S_ ->
  0 <= Pool.pool_C pool -> 0 <= D' -> 0 <= H' -> 0 <= W' ->
  0 <= J' -> 0 <= T' -> 0 <= R' -> 0 <= S' ->
  indices_safe (A:=A) (Conv.conv_C conv) D H W (Conv.conv_C conv) T R S_ 0 mt pr qs
    (Conv.pixel_indices conv mt pr qs) /\
  indices_safe (A:=A) (Pool.pool_C pool) D' H' W' J' T' R' S' kj mt pr qs
    (Pool.pixel_indices pool kj mt pr qs).
Proof.
  rewrite conv_pixel_indices_taps, pool_pixel_indices_taps.
  destruct (Conv.DHW conv) as [[D H] W], (Conv.TRS conv) as [[T R] S_],
    (Pool.DHW pool) as [[D' H'] W'], (Pool.JTRS pool) as [[[J' T'] R'] S'].
  intros. split; by apply window_indices_safe.
Qed.

(** C3. The descriptor of a convolution layer, as the spec gives it and
    as both backends build it: M = floor((D + 2*pad_d - T)/str_d) + 1, P
    and Q likewise, dimI = (C,D,H,W,N), dimF = (C,T,R,S,K),
    dimO = (K,M,P,Q,N), and the host and the accelerator descriptor agree on
    dimI, dimF, dimO and M.  This holds for every parameter tuple, valid or
    not. *)
Theorem conv_layer_dims (dt : Conv.dtype) (N C K D H W T R S_
    pad_d pad_h pad_w str_d str_h str_w : Z) :
  let nc := Conv.nc_conv_layer dt N C K D H W T R S_ pad_d pad_h pad_w str_d str_h str_w in
  let ng := Conv.ng_conv_layer dt N C K D H W T R S_ pad_d pad_h pad_w str_d str_h str_w in
  let M := (D + 2 * pad_d - T) / str_d + 1 in
  let P := (H + 2 * pad_h - R) / str_h + 1 in
  let Q := (W + 2 * pad_w - S_) / str_w + 1 in
  Conv.MPQ nc = (M, P, Q) /\ Conv.conv_M nc = M /\
  Conv.dimI nc = [C; D; H; W; N] /\
  Conv.dimF nc = [C; T; R; S_; K] /\
  Conv.dimO nc = [K; M; P; Q; N] /\
  Conv.dimI nc = Conv.dimI ng /\ Conv.dimF nc = Conv.dimF ng /\
  Conv.dimO nc = Conv.dimO ng /\ Conv.conv_M nc = Conv.conv_M ng.
Proof. cbv zeta. by repeat split. Qed.

(** For a positive stride the derived M counts the window starts
    m = 0, 1, ... whose window ends inside the padded input. *)
Lemma conv_M_counts_windows (D T pad_d str_d m : Z) :
  0 < str_d -> T <= D + 2 * pad_d ->
  0 <= m < (D + 2 * pad_d - T) / str_d + 1 <->
  0 <= m /\ m * str_d - pad_d + T <= D + pad_d.
Proof.
  intros Hs Hfit.
  pose proof (Z.mul_div_le (D + 2 * pad_d - T) str_d Hs).
  pose proof (Z.mod_pos_bound (D + 2 * pad_d - T) str_d Hs).
  pose proof (Z.div_mod (D + 2 * pad_d - T) str_d ltac:(lia)).
  split; intros; split; try lia; nia.
Qed.

(** The sizes [test_conv_layer] builds its layer from give a 5 by 5
    output for each of the 64 filters. *)
Example test_conv_layer_dimO :
  Conv.dimO (Conv.nc_conv_layer Conv.float32 64 64 64 1 5 5 1 3 3 0 1 1 1 1 1) =
  [64; 1; 5; 5; 64].
Proof. reflexivity. Qed.

(** C9. The degenerate layer N = C = K = 1, D = H = W = 1, T = R = S = 1,
    padding 0, stride 1: dimO is (1,1,1,1,1), the single window gathers
    exactly the one input row, and the reference forward convolution is the
    product O = F * I (given x + 0 = x in the element arithmetic, the sum
    of the one product being started from 0). *)
Theorem conv_degenerate {A : Type} {NA : Numeric A} (dt : Conv.dtype) (i f e x : A) :
  (forall a : A, add a zero = a) ->
  let conv := Conv.conv_layer dt 1 1 1 1 1 1 1 1 1 0 0 0 1 1 1 in
  Conv.dimO conv = [1; 1; 1; 1; 1] /\
  Conv.MPQ conv = (1, 1, 1) /\
  Conv.pixel_indices conv 0 0 0 = [0] /\
  exists cpuB cpuU,
    Conv.conv_reference conv [[i]; [x]] [[f]] [[e]] = Some ([[mul f i]], cpuB, cpuU).
Proof.
  intros Hadd0. cbv zeta. split; [done|]. split; [done|]. split; [done|].
  eexists _, _. vm_compute. by rewrite Hadd0.
Qed.

(** ** The theorems at the small layers *)

Lemma Z_mul_zero : forall x : Z, mul x zero = zero.
Proof. intros x. cbn. lia. Defined.

Lemma Z_add_zero_zero : add (zero (A:=Z)) zero = zero.
Proof. reflexivity. Defined.

Lemma Z_add_zero : forall x : Z, add x zero = x.
Proof. intros x. cbn. lia. Defined.

Lemma Z_div_zero : forall d, 0 < d -> div (zero (A:=Z)) (of_int d) = zero.
Proof. intros d _. reflexivity. Defined.

Lemma Z_ltb_irrefl : forall x : Z, ltb x x = false.
Proof. intros x. cbn. lia. Defined.

Lemma Z_ltb_asym : forall x y : Z, ltb x y = true -> ltb y x = false.
Proof. intros x y. cbn. lia. Defined.

Lemma Z_ltb_negtrans :
  forall x y z : Z, ltb x z = true -> ltb x y = true \/ ltb y z = true.
Proof. intros x y z. cbn. lia. Defined.

Lemma conv1_shapes : Conv.conv_shapes Examples.conv1.
Proof. vm_compute. repeat split; (reflexivity || discriminate). Defined.

Lemma conv1_I_shape :
  has_shape Examples.conv1_I (sliceable (Conv.dimI Examples.conv1) 1).
Proof. split; [reflexivity|]. repeat constructor. Defined.

Lemma conv1_F_shape :
  has_shape Examples.conv1_F (sliceable (Conv.dimF Examples.conv1) 0).
Proof. split; [reflexivity|]. repeat constructor. Defined.

Lemma conv1_E_shape :
  has_shape Examples.conv1_E (sliceable (Conv.dimO Examples.conv1) 0).
Proof. split; [reflexivity|]. repeat constructor. Defined.

Lemma conv_fprop_reference_witness :
  exists cpuI cpuO cpuB cpuU,
    fill_row Examples.conv1_I (-1) 0 = Some cpuI /\
    (forall n, at2 cpuI 3 n = 0) /\
    Conv.conv_reference Examples.conv1 Examples.conv1_I Examples.conv1_F Examples.conv1_E =
      Some (cpuO, cpuB, cpuU) /\
    forall k m p q n,
      0 <= k < 1 -> 0 <= m < 1 -> 0 <= p < 1 -> 0 <= q < 4 -> 0 <= n < 2 ->
      E5 cpuO (1, 1, 4) k m p q n =
        conv_fprop_sum Examples.conv1 Examples.conv1_I Examples.conv1_F k m p q n /\
      (conv_window_outside Examples.conv1 m p q -> E5 cpuO (1, 1, 4) k m p q n = 0).
Proof.
  exact (conv_fprop_reference (A:=Z) Examples.conv1 Examples.conv1_I Examples.conv1_F
           Examples.conv1_E conv1_shapes conv1_I_shape conv1_F_shape conv1_E_shape
           Z_mul_zero Z_add_zero_zero).
Defined.

Lemma conv_bprop_reference_witness :
  exists cpuO cpuB cpuU cpuB1,
    Conv.conv_numpy Examples.conv1 Examples.conv1_I Examples.conv1_F Examples.conv1_E =
      Some (cpuO, cpuB1, cpuU) /\
    Conv.conv_reference Examples.conv1 Examples.conv1_I Examples.conv1_F Examples.conv1_E =
      Some (cpuO, cpuB, cpuU) /\
    cpuB = but_last cpuB1 /\
    Z.of_nat (length cpuB1) = 4 /\
    Z.of_nat (length cpuB) = 3 /\
    forall c z y x n,
      in_bounds 1 1 1 3 c z y x = true -> 0 <= n < 2 ->
      I5 cpuB 1 1 3 c z y x n =
      conv_bprop_sum Examples.conv1 Examples.conv1_F Examples.conv1_E c z y x n.
Proof.
  exact (conv_bprop_reference (A:=Z) Examples.conv1 Examples.conv1_I Examples.conv1_F
           Examples.conv1_E conv1_shapes conv1_I_shape conv1_F_shape conv1_E_shape).
Defined.

Lemma pool1_shapes o : Pool.pool_shapes (Examples.pool1 o).
Proof. vm_compute. repeat split; (reflexivity || discriminate). Defined.

Lemma pool1_positive o : Pool.pool_window_positive (Examples.pool1 o).
Proof. vm_compute. repeat split. Defined.

Lemma pool1_I_shape o :
  has_shape Examples.pool1_I (sliceable (Pool.dimI (Examples.pool1 o)) 1).
Proof. split; [reflexivity|]. repeat constructor. Defined.

Lemma pool1_E_shape o :
  has_shape Examples.pool1_E (sliceable (Pool.dimO (Examples.pool1 o)) 0).
Proof. split; [reflexivity|]. repeat constructor. Defined.

Lemma pool1_empty_shape o :
  has_shape Examples.pool1_empty (sliceable (Pool.dimO (Examples.pool1 o)) 0).
Proof. split; [reflexivity|]. repeat constructor. Defined.

Lemma pool_avg_reference_witness :
  exists cpuO cpuB,
    Pool.pool_reference (Examples.pool1 Pool.op_avg) Examples.pool1_I Examples.pool1_E
      Examples.pool1_empty = Some (cpuO, cpuB) /\
    Z.of_nat (length cpuB) = 2 /\
    (forall k m p q n, 0 <= k < 3 -> 0 <= m < 1 -> 0 <= p < 1 -> 0 <= q < 1 ->
       0 <= n < 1 ->
       E5 cpuO (1, 1, 1) k m p q n =
       pool_avg_out (Examples.pool1 Pool.op_avg) Examples.pool1_I k m p q n) /\
    (forall c z y x n, in_bounds 2 1 1 1 c z y x = true -> 0 <= n < 1 ->
       I5 cpuB 1 1 1 c z y x n =
       pool_avg_bprop_sum (Examples.pool1 Pool.op_avg) Examples.pool1_E c z y x n).
Proof.
  exact (pool_avg_reference (A:=Z) (Examples.pool1 Pool.op_avg) Examples.pool1_I
           Examples.pool1_E Examples.pool1_empty eq_refl (pool1_shapes _)
           (pool1_positive _) (pool1_I_shape _) (pool1_E_shape _) (pool1_empty_shape _)).
Defined.

Lemma pool_max_reference_witness :
  exists cpuO cpuB,
    Pool.pool_reference (Examples.pool1 Pool.op_max) Examples.pool1_I Examples.pool1_E
      Examples.pool1_empty = Some (cpuO, cpuB) /\
    Z.of_nat (length cpuB) = 2 /\
    (forall k m p q n, 0 <= k < 3 -> 0 <= m < 1 -> 0 <= p < 1 -> 0 <= q < 1 ->
       0 <= n < 1 ->
       let vals := pool_window_values (Examples.pool1 Pool.op_max) Examples.pool1_I
                     fmin k m p q n in
       let '(kj, mt, pr, qs) := pool_start (Examples.pool1 Pool.op_max) k m p q in
       exists b j t r s,
         vargmax vals = Some b /\ first_max vals b /\
         vals !! Z.to_nat b = Some (E5 cpuO (1, 1, 1) k m p q n) /\
         taps4 2 1 1 1 !! Z.to_nat b = Some (j, t, r, s) /\
         forall c z y x,
           pool_tap_at (Examples.pool1 Pool.op_max) k m p q c z y x = Some b <->
           (c, z, y, x) = (kj + j, mt + t, pr + r, qs + s)) /\
    (forall c z y x n, in_bounds 2 1 1 1 c z y x = true -> 0 <= n < 1 ->
       I5 cpuB 1 1 1 c z y x n =
       pool_max_bprop_sum (Examples.pool1 Pool.op_max) Examples.pool1_I Examples.pool1_E
         c z y x n).
Proof.
  exact (pool_max_reference (A:=Z) (Examples.pool1 Pool.op_max) Examples.pool1_I
           Examples.pool1_E Examples.pool1_empty eq_refl (pool1_shapes _)
           (pool1_positive _) (pool1_I_shape _) (pool1_E_shape _) (pool1_empty_shape _)
           Z_ltb_irrefl Z_ltb_asym Z_ltb_negtrans).
Defined.

Lemma pool_repeat_idempotent_witness :
  Pool.repeat = 5 /\
  exists cpuO cpuB,
    Pool.run_numpy_pool Pool.op_max Examples.pool1_I Examples.pool1_E
      (Examples.pool1 Pool.op_avg) Examples.pool1_empty = Some (cpuO, cpuB) /\
    Pool.run_numpy_pool_n 1 Pool.op_max Examples.pool1_I Examples.pool1_E
      (Examples.pool1 Pool.op_avg) Examples.pool1_empty = Some (cpuO, cpuB).
Proof.
  exact (pool_repeat_idempotent (A:=Z) (Examples.pool1 Pool.op_avg) Pool.op_max
           Examples.pool1_I Examples.pool1_E Examples.pool1_empty (pool1_shapes _)
           (pool1_positive _) (pool1_I_shape _) (pool1_E_shape _) (pool1_empty_shape _)).
Defined.

Lemma pool_avg_divisor_witness :
  0 < 2 * 1 * 1 * 1 /\
  (forall kj mt pr qs,
     Z.of_nat (length (Pool.pixel_indices (Examples.pool1 Pool.op_avg) kj mt pr qs)) =
     2 * 1 * 1 * 1) /\
  exists cpuO cpuB,
    Pool.pool_reference (Examples.pool1 Pool.op_avg) Examples.pool1_I Examples.pool1_E
      Examples.pool1_empty = Some (cpuO, cpuB) /\
    forall k m p q n, 0 <= k < 3 -> 0 <= m < 1 -> 0 <= p < 1 -> 0 <= q < 1 ->
      0 <= n < 1 ->
      E5 cpuO (1, 1, 1) k m p q n =
        div (sumA (pool_window_values (Examples.pool1 Pool.op_avg) Examples.pool1_I
                     zero k m p q n)) (of_int (2 * 1 * 1 * 1)) /\
      (pool_window_outside (Examples.pool1 Pool.op_avg) k m p q ->
       E5 cpuO (1, 1, 1) k m p q n = zero).
Proof.
  exact (pool_avg_divisor (A:=Z) (Examples.pool1 Pool.op_avg) Examples.pool1_I
           Examples.pool1_E Examples.pool1_empty eq_refl (pool1_shapes _)
           (pool1_positive _) (pool1_I_shape _) (pool1_E_shape _) (pool1_empty_shape _)
           Z_add_zero_zero Z_div_zero).
Defined.

Lemma conv_degenerate_witness :
  Conv.dimO (Conv.conv_layer Conv.float32 1 1 1 1 1 1 1 1 1 0 0 0 1 1 1) = [1; 1; 1; 1; 1] /\
  Conv.MPQ (Conv.conv_layer Conv.float32 1 1 1 1 1 1 1 1 1 0 0 0 1 1 1) = (1, 1, 1) /\
  Conv.pixel_indices (Conv.conv_layer Conv.float32 1 1 1 1 1 1 1 1 1 0 0 0 1 1 1) 0 0 0 = [0] /\
  exists cpuB cpuU,
    Conv.conv_reference (Conv.conv_layer Conv.float32 1 1 1 1 1 1 1 1 1 0 0 0 1 1 1)
      [[7]; [9]] [[3]] [[5]] = Some ([[3 * 7]], cpuB, cpuU).
Proof.
  exact (conv_degenerate (A:=Z) Conv.float32 7 3 5 9 Z_add_zero).
Defined.

Lemma pixel_indices_safe_witness :
  indices_safe (A:=Z) 1 1 1 3 1 1 1 2 0 0 0 (-1)
    (Conv.pixel_indices Examples.conv1 0 0 (-1)) /\
  indices_safe (A:=Z) 2 1 1 1 2 1 1 1 (-1) 0 0 (-1)
    (Pool.pixel_indices (Examples.pool1 Pool.op_max) (-1) 0 0 (-1)).
Proof.
  refine (pixel_indices_safe (A:=Z) Examples.conv1 (Examples.pool1 Pool.op_max)
           (-1) 0 0 (-1) _ _ _ _ _ _ _ _ _ _ _ _ _ _ _); vm_compute; discriminate.
Defined.

(** ** The model run on the scenarios of the spec *)

(** Max pooling with J = 2, T = R = S = 1 over two channels of one pixel
    with the values 3 and 5: the output is 5, and the upstream gradient 1
    goes to channel 1 only. *)
Example pool_max_two_channels :
  Pool.pool_reference (A:=Z)
    (Pool.pool_layer Pool.op_max 1 2 1 1 1 2 1 1 1 0 0 0 0 1 1 1 1)
    [[3]; [5]; [77]] [[1]] [[42]] = Some ([[5]], [[0]; [1]]).
Proof. reflexivity. Qed.

(** Average pooling divides by the window size: the first window of
    [pool1] has the taps 0 (padding) and 3, and its output is 3/2 in
    integer arithmetic, not 3/1. *)
Example pool_avg_fixed_divisor :
  exists cpuB,
    Pool.pool_reference (A:=Z) (Examples.pool1 Pool.op_avg) Examples.pool1_I
      Examples.pool1_E Examples.pool1_empty = Some ([[1]; [4]; [2]], cpuB).
Proof. eexists. reflexivity. Qed.

(** The convolution [conv1]: the window indices at the left border, and
    the three arrays the reference returns. *)
Example conv1_pixel_indices_border :
  Conv.pixel_indices Examples.conv1 0 0 (-1) = [3; 0].
Proof. reflexivity. Qed.

Example conv1_reference :
  Conv.conv_reference Examples.conv1 Examples.conv1_I Examples.conv1_F Examples.conv1_E =
  Some ([[3; 6]; [11; 16]; [21; 26]; [10; 12]],
        [[3; 2]; [2; 5]; [7; 5]],
        [[25]; [16]]).
Proof. reflexivity. Qed.

(** * Further properties of the reference code *)

(** ** The two index generators *)

(** X1. The convolution [pixel_indices] is the pooling [pixel_indices] of a
    layer with the same input sizes whose channel window spans all C
    channels (J = C), started at channel 0. *)
Theorem conv_pixel_indices_as_pool (conv : Conv.ConvLayer) (pool : Pool.PoolLayer)
    (mt pr qs : Z) :
  Pool.pool_C pool = Conv.conv_C conv ->
  Pool.DHW pool = Conv.DHW conv ->
  Pool.JTRS pool =
    (let '(T, R, S_) := Conv.TRS conv in (Conv.conv_C conv, T, R, S_)) ->
  Conv.pixel_indices conv mt pr qs = Pool.pixel_indices pool 0 mt pr qs.
Proof.
  intros HC HDHW HJTRS.
  rewrite conv_pixel_indices_taps, pool_pixel_indices_taps.
  rewrite HC, HDHW, HJTRS.
  by destruct (Conv.TRS conv) as [[T R] S_], (Conv.DHW conv) as [[D H] W].
Qed.

Lemma conv_pixel_indices_as_pool_witness :
  Conv.pixel_indices Examples.conv1 0 0 (-1) =
  Pool.pixel_indices (Pool.pool_layer Pool.op_max 2 1 1 1 3 1 1 1 2 0 0 0 1 1 1 1 1)
    0 0 0 (-1).
Proof.
  exact (conv_pixel_indices_as_pool Examples.conv1
           (Pool.pool_layer Pool.op_max 2 1 1 1 3 1 1 1 2 0 0 0 1 1 1 1 1)
           0 0 (-1) eq_refl eq_refl eq_refl).
Defined.

(** Two taps of a window never read the same input row. *)
Lemma window_indices_distinct C D H W J T R S_ kj mt pr qs (i j : nat) v :
  0 <= J -> 0 <= T -> 0 <= R -> 0 <= S_ ->
  window_indices C D H W J T R S_ kj mt pr qs !! i = Some v ->
  window_indices C D H W J T R S_ kj mt pr qs !! j = Some v ->
  v <> sentinel C D H W -> i = j.
Proof.
  intros HJ HT HR HS Hi Hj Hv.
  pose proof Hi as Hi'. apply lookup_window_indices in Hi' as
    (j0 & t0 & r0 & s0 & _ & _ & _ & _ & _ & Hv0); [|done..].
  unfold window_index in Hv0.
  destruct (in_bounds C D H W (kj + j0) (mt + t0) (pr + r0) (qs + s0)) eqn:Hb;
    [|congruence].
  subst v.
  apply (window_indices_hit C D H W J T R S_ kj mt pr qs _ _ _ _ i HJ HT HR HS Hb) in Hi.
  apply (window_indices_hit C D H W J T R S_ kj mt pr qs _ _ _ _ j HJ HT HR HS Hb) in Hj.
  rewrite Hi in Hj. injection Hj as Hj. lia.
Qed.

Lemma NoDup_filter_lookup {X : Type} (P : X -> Prop) `{!forall x, Decision (P x)}
    (l : list X) :
  (forall (i j : nat) v, l !! i = Some v -> l !! j = Some v -> P v -> i = j) ->
  NoDup (filter P l).
Proof.
  induction l as [|x l IH]; intros Hl; [constructor|].
  rewrite filter_cons. destruct (decide (P x)) as [HP|HP].
  - constructor.
    + intros [_ Hin]%list_elem_of_filter.
      apply list_elem_of_lookup in Hin as [i Hi].
      by specialize (Hl 0%nat (S i) x eq_refl Hi HP).
    + apply IH. intros i j v Hi Hj Hv.
      by specialize (Hl (S i) (S j) v Hi Hj Hv) as [= ->].
  - apply IH. intros i j v Hi Hj Hv.
    by specialize (Hl (S i) (S j) v Hi Hj Hv) as [= ->].
Qed.

(** X2. In the index list of a window, of the convolution as of the pooling
    reference, only the out-of-bounds index C*D*H*W can occur more than
    once: the indices of the taps in bounds are pairwise different.  (This
    is what lets the buffered [cpuB[idx, :] += ...] of numpy reach every
    input row of the window.) *)
Theorem pixel_indices_distinct (conv : Conv.ConvLayer) (pool : Pool.PoolLayer)
    (kj mt pr qs : Z) :
  let '(D, H, W) := Conv.DHW conv in
  let '(T, R, S_) := Conv.TRS conv in
  let '(D', H', W') := Pool.DHW pool in
  let '(J', T', R', S') := Pool.JTRS pool in
  0 <= Conv.conv_C conv -> 0 <= T -> 0 <= R -> 0 <= S_ ->
  0 <= J' -> 0 <= T' -> 0 <= R' -> 0 <= S' ->
  NoDup (filter (fun v => v <> Conv.conv_C conv * D * H * W)
           (Conv.pixel_indices conv mt pr qs)) /\
  NoDup (filter (fun v => v <> Pool.pool_C pool * D' * H' * W')
           (Pool.pixel_indices pool kj mt pr qs)).
Proof.
  rewrite conv_pixel_indices_taps, pool_pixel_indices_taps.
  destruct (Conv.DHW conv) as [[D H] W], (Conv.TRS conv) as [[T R] S_],
    (Pool.DHW pool) as [[D' H'] W'], (Pool.JTRS pool) as [[[J' T'] R'] S'].
  intros. split; apply NoDup_filter_lookup; intros i j v Hi Hj Hv.
  - by apply (window_indices_distinct (Conv.conv_C conv) D H W (Conv.conv_C conv)
                T R S_ 0 mt pr qs i j v).
  - by apply (window_indices_distinct (Pool.pool_C pool) D' H' W' J' T' R' S'
                kj mt pr qs i j v).
Qed.

Lemma pixel_indices_distinct_witness :
  NoDup (filter (fun v => v <> 1 * 1 * 1 * 3)
           (Conv.pixel_indices Examples.conv1 0 0 0)) /\
  NoDup (filter (fun v => v <> 2 * 1 * 1 * 1)
           (Pool.pixel_indices (Examples.pool1 Pool.op_max) 0 0 0 0)).
Proof.
  refine (pixel_indices_distinct Examples.conv1 (Examples.pool1 Pool.op_max)
            0 0 0 0 _ _ _ _ _ _ _ _); vm_compute; discriminate.
Defined.

(** ** The filter gradient of the convolution reference *)

Section ConvUpdate.
Context {A : Type} {NA : Numeric A}.

(** Filter gradient at (c,t,r,s,k): window after window, in the order of
    the loops, the window (m,p,q) adds the sum over n of the input element
    its tap (c,t,r,s) reads (0 for a tap out of bounds) times E[k,m,p,q,n]. *)
Definition conv_update_sum (conv : Conv.ConvLayer) (cpuI cpuE : list (list A))
    (c t r s k : Z) : A :=
  let '(D, H, W) := Conv.DHW conv in
  let '(pad_d, pad_h, pad_w) := Conv.padding conv in
  let '(str_d, str_h, str_w) := Conv.strides conv in
  fold_left (fun acc '(m, p, q) =>
      add acc (sumA ((fun n =>
        mul (tap_value cpuI zero (Conv.conv_C conv) D H W c
               (m * str_d - pad_d + t) (p * str_h - pad_h + r) (q * str_w - pad_w + s) n)
            (E5 cpuE (Conv.MPQ conv) k m p q n)) <$> range (Conv.conv_N conv))))
    (let '(M, P, Q) := Conv.MPQ conv in windows3 M P Q) zero.

(** X3. The update part of the numpy reference of [test_conv_layer]
    (cpuU += np.dot(cpuI[idx, :], cpuE[:, m, p, q, :].T)): the computation
    returns, cpuU has the shape slicable(dimF), and its element at
    (c,t,r,s,k) is the sum, accumulated window after window, over the batch
    of the input element under the tap times the gradient of the window's
    output; a tap out of bounds reads the zeroed last row. *)
Theorem conv_update_reference (conv : Conv.ConvLayer) (cpuI0 cpuF cpuE : list (list A)) :
  Conv.conv_shapes conv ->
  has_shape cpuI0 (sliceable (Conv.dimI conv) 1) ->
  has_shape cpuF (sliceable (Conv.dimF conv) 0) ->
  has_shape cpuE (sliceable (Conv.dimO conv) 0) ->
  let '(T, R, S_) := Conv.TRS conv in
  exists cpuO cpuB cpuU,
    Conv.conv_reference conv cpuI0 cpuF cpuE = Some (cpuO, cpuB, cpuU) /\
    has_shape cpuU (sliceable (Conv.dimF conv) 0) /\
    forall c t r s k,
      0 <= c < Conv.conv_C conv -> 0 <= t < T -> 0 <= r < R -> 0 <= s < S_ ->
      0 <= k < Conv.conv_K conv ->
      F5 cpuU T R S_ c t r s k = conv_update_sum conv cpuI0 cpuE c t r s k.
Proof.
  intros Hsh HsI HsF HsE.
  pose proof (conv_reference_result conv cpuI0 cpuF cpuE Hsh HsI HsF HsE) as Hres.
  destruct conv as [N C K [[D H] W] [[T R] S_] [[M P] Q] [[pad_d pad_h] pad_w]
                      [[str_d str_h] str_w] dI dF dO].
  unfold Conv.conv_shapes in Hsh.
  cbn [Conv.conv_N Conv.conv_C Conv.conv_K Conv.DHW Conv.TRS Conv.MPQ
       Conv.dimI Conv.dimF Conv.dimO] in *.
  destruct Hsh as (-> & -> & -> & HN & HC & HK & HD & HH & HW & HT & HR & HS & HM & HP & HQ).
  rewrite !sliceable5, ?Z.add_0_r in *.
  destruct Hres as (cpuI & cpuO & cpuB & cpuU & _ & _ & Hrun & _).
  pose proof (has_shape_length _ _ _ HsI) as HlI.
  pose proof (has_shape_length _ _ _ HsF) as HlF.
  pose proof (has_shape_length _ _ _ HsE) as HlE.
  pose proof (has_shape_rows _ _ _ HsI) as HrI.
  pose proof (has_shape_rows _ _ _ HsE) as HrE.
  cbn [fst snd] in *.
  set (cpuI' := <[Z.to_nat (C * D * H * W) :=
                  (fun _ => zero) <$> (cpuI0 !!! Z.to_nat (C * D * H * W))]> cpuI0).
  assert (HlI' : Z.of_nat (length cpuI') = C * D * H * W + 1)
    by (unfold cpuI'; by rewrite length_insert).
  destruct (conv_numpy_U N C K D H W T R S_ M P Q pad_d pad_h pad_w
              str_d str_h str_w HC HK HD HH HW HT HR HS cpuI' cpuF cpuE
              HlI' HlF HlE cpuI0 eq_refl HrI HrE cpuO cpuB cpuU Hrun) as [HshU HU].
  exists cpuO, (but_last cpuB), cpuU.
  split; [unfold Conv.conv_reference; by rewrite Hrun|].
  split; [done|].
  intros c t r s k Hc Ht Hr Hs Hk. rewrite HU by done.
  unfold conv_update_sum, conv_upd_term.
  cbn [Conv.DHW Conv.padding Conv.strides Conv.conv_C Conv.conv_N Conv.MPQ].
  done.
Qed.

End ConvUpdate.

Lemma conv_update_reference_witness :
  exists cpuO cpuB cpuU,
    Conv.conv_reference Examples.conv1 Examples.conv1_I Examples.conv1_F Examples.conv1_E =
      Some (cpuO, cpuB, cpuU) /\
    has_shape cpuU (sliceable (Conv.dimF Examples.conv1) 0) /\
    forall c t r s k,
      0 <= c < 1 -> 0 <= t < 1 -> 0 <= r < 1 -> 0 <= s < 2 -> 0 <= k < 1 ->
      F5 cpuU 1 1 2 c t r s k =
      conv_update_sum Examples.conv1 Examples.conv1_I Examples.conv1_E c t r s k.
Proof.
  exact (conv_update_reference Examples.conv1 Examples.conv1_I Examples.conv1_F
           Examples.conv1_E conv1_shapes conv1_I_shape conv1_F_shape conv1_E_shape).
Defined.

(** ** L2 pooling *)

(** X5. The l2 branch of [run_numpy_pool] (which [test_pool_layer] never
    selects): the output of the window (k,m,p,q) for the batch item n is
    the square root of the sum of the squares of the window, a tap out of
    bounds counting as 0; the branch has no backward part, so the gradient
    cpuB[:-1] is 0 at every input position. *)
Theorem pool_l2_reference {A : Type} {NA : Numeric A}
    (pool : Pool.PoolLayer) (cpuI0 cpuE empty : list (list A)) :
  Pool.op pool = Pool.op_l2 ->
  Pool.pool_shapes pool ->
  Pool.pool_window_positive pool ->
  has_shape cpuI0 (sliceable (Pool.dimI pool) 1) ->
  has_shape cpuE (sliceable (Pool.dimO pool) 0) ->
  has_shape empty (sliceable (Pool.dimO pool) 0) ->
  let '(D, H, W) := Pool.DHW pool in
  let '(M, P, Q) := Pool.MPQ pool in
  exists cpuO cpuB,
    Pool.pool_reference pool cpuI0 cpuE empty = Some (cpuO, cpuB) /\
    (forall k m p q n, 0 <= k < Pool.pool_K pool -> 0 <= m < M -> 0 <= p < P ->
       0 <= q < Q -> 0 <= n < Pool.pool_N pool ->
       E5 cpuO (M, P, Q) k m p q n =
       sqrt (sumA ((fun x => mul x x) <$> pool_window_values pool cpuI0 zero k m p q n))) /\
    (forall c z y x n, in_bounds (Pool.pool_C pool) D H W c z y x = true ->
       0 <= n < Pool.pool_N pool ->
       I5 cpuB D H W c z y x n = zero).
Proof.
  intros Hop Hshapes Hpos HsI HsE Hse.
  pose proof (pool_reference_result pool cpuI0 cpuE empty Hshapes Hpos HsI HsE Hse) as Hres.
  destruct (Pool.DHW pool) as [[D H] W], (Pool.JTRS pool) as [[[J T] R] S_],
    (Pool.MPQ pool) as [[M P] Q].
  rewrite Hop in Hres. cbv zeta in Hres.
  destruct Hres as (cpuO & cpuB & Hrun & HlB & HOv & HBv).
  exists cpuO, cpuB. split; [done|]. split.
  - intros k m p q n Hk Hm Hp Hq Hn. by apply HOv.
  - intros c z y x n Hb Hn. rewrite HBv by done. clear.
    generalize (zero (A:=A)). generalize (taps4 (Pool.pool_K pool) M P Q).
    intros ws. induction ws as [|[[[k m] p] q] ws IH]; intros a; [done|].
    cbn [fold_left]. etrans; [|apply (IH a)]. f_equal. by case_match.
Qed.

Lemma pool_l2_reference_witness :
  exists cpuO cpuB,
    Pool.pool_reference (Examples.pool1 Pool.op_l2) Examples.pool1_I Examples.pool1_E
      Examples.pool1_empty = Some (cpuO, cpuB) /\
    (forall k m p q n, 0 <= k < 3 -> 0 <= m < 1 -> 0 <= p < 1 -> 0 <= q < 1 ->
       0 <= n < 1 ->
       E5 cpuO (1, 1, 1) k m p q n =
       sqrt (sumA ((fun x => mul x x) <$>
         pool_window_values (Examples.pool1 Pool.op_l2) Examples.pool1_I zero k m p q n))) /\
    (forall c z y x n, in_bounds 2 1 1 1 c z y x = true -> 0 <= n < 1 ->
       I5 cpuB 1 1 1 c z y x n = zero).
Proof.
  exact (pool_l2_reference (A:=Z) (Examples.pool1 Pool.op_l2) Examples.pool1_I
           Examples.pool1_E Examples.pool1_empty eq_refl (pool1_shapes _)
           (pool1_positive _) (pool1_I_shape _) (pool1_E_shape _) (pool1_empty_shape _)).
Defined.

(** L2 pooling of the inputs 3 and 5 in two channels, the channel window
    of size 2 moved over the padded channels: sqrt(9) = 3, sqrt(9+25) = 5
    (rounded down in the integers) and sqrt(25) = 5; no gradient. *)
Example pool_l2_two_channels :
  Pool.pool_reference (A:=Z) (Examples.pool1 Pool.op_l2) Examples.pool1_I
    Examples.pool1_E Examples.pool1_empty = Some ([[3]; [5]; [5]], [[0]; [0]]).
Proof. vm_compute. reflexivity. Qed.

(** ** Max pooling on inputs above the padding value *)

(** X6. Max pooling in the reference of [test_pool_layer] when every input
    element is larger than finfo.min (the test draws them from [0,1)): in
    a window with at least one tap in bounds the padding never wins.  The
    first maximum is found at a tap (j,t,r,s) in bounds, the output is the
    input element under that tap, and no input element under a tap of the
    window is larger. *)
Theorem pool_max_inside {A : Type} {NA : Numeric A}
    (pool : Pool.PoolLayer) (cpuI0 cpuE empty : list (list A)) :
  Pool.op pool = Pool.op_max ->
  Pool.pool_shapes pool ->
  Pool.pool_window_positive pool ->
  has_shape cpuI0 (sliceable (Pool.dimI pool) 1) ->
  has_shape cpuE (sliceable (Pool.dimO pool) 0) ->
  has_shape empty (sliceable (Pool.dimO pool) 0) ->
  (forall x : A, ltb x x = false) ->
  (forall x y : A, ltb x y = true -> ltb y x = false) ->
  (forall x y z : A, ltb x z = true -> ltb x y = true \/ ltb y z = true) ->
  let '(D, H, W) := Pool.DHW pool in
  let '(J, T, R, S_) := Pool.JTRS pool in
  let '(M, P, Q) := Pool.MPQ pool in
  let C := Pool.pool_C pool in
  (forall c z y x n, in_bounds C D H W c z y x = true -> 0 <= n < Pool.pool_N pool ->
     ltb fmin (I5 cpuI0 D H W c z y x n) = true) ->
  exists cpuO cpuB,
    Pool.pool_reference pool cpuI0 cpuE empty = Some (cpuO, cpuB) /\
    forall k m p q n j0 t0 r0 s0,
      0 <= k < Pool.pool_K pool -> 0 <= m < M -> 0 <= p < P -> 0 <= q < Q ->
      0 <= n < Pool.pool_N pool ->
      0 <= j0 < J -> 0 <= t0 < T -> 0 <= r0 < R -> 0 <= s0 < S_ ->
      let '(kj, mt, pr, qs) := pool_start pool k m p q in
      in_bounds C D H W (kj + j0) (mt + t0) (pr + r0) (qs + s0) = true ->
      exists j t r s,
        (0 <= j < J /\ 0 <= t < T /\ 0 <= r < R /\ 0 <= s < S_) /\
        in_bounds C D H W (kj + j) (mt + t) (pr + r) (qs + s) = true /\
        vargmax (pool_window_values pool cpuI0 fmin k m p q n) =
          Some (tap_pos T R S_ (j, t, r, s)) /\
        E5 cpuO (M, P, Q) k m p q n =
          I5 cpuI0 D H W (kj + j) (mt + t) (pr + r) (qs + s) n /\
        forall j' t' r' s',
          0 <= j' < J -> 0 <= t' < T -> 0 <= r' < R -> 0 <= s' < S_ ->
          in_bounds C D H W (kj + j') (mt + t') (pr + r') (qs + s') = true ->
          ltb (E5 cpuO (M, P, Q) k m p q n)
              (I5 cpuI0 D H W (kj + j') (mt + t') (pr + r') (qs + s') n) = false.
Proof.
  intros Hop Hshapes Hpos HsI HsE Hse Hirr Hasym Hneg.
  pose proof (pool_reference_result pool cpuI0 cpuE empty Hshapes Hpos HsI HsE Hse) as Hres.
  unfold Pool.pool_shapes, Pool.pool_window_positive in *.
  destruct (Pool.DHW pool) as [[D H] W] eqn:HDHW,
    (Pool.JTRS pool) as [[[J T] R] S_] eqn:HJTRS,
    (Pool.MPQ pool) as [[M P] Q] eqn:HMPQ.
  rewrite Hop in Hres. cbv zeta in Hres. cbv zeta. intros Hmin.
  destruct Hres as (cpuO & cpuB & Hrun & _ & HOv & _).
  destruct Hpos as (HJ & HT & HR & HS).
  exists cpuO, cpuB. split; [done|].
  intros k m p q n j0 t0 r0 s0 Hk Hm Hp Hq Hn Hj0 Ht0 Hr0 Hs0.
  destruct (pool_start pool k m p q) as [[[kj mt] pr] qs] eqn:Hstart.
  intros Hb0.
  set (vals := pool_window_values pool cpuI0 fmin k m p q n).
  assert (Hvals : vals =
    (fun '(j, t, r, s) =>
       tap_value cpuI0 fmin (Pool.pool_C pool) D H W (kj + j) (mt + t) (pr + r) (qs + s) n)
      <$> taps4 J T R S_).
  { unfold vals, pool_window_values. by rewrite HJTRS, HDHW, Hstart. }
  assert (Hin0 : I5 cpuI0 D H W (kj + j0) (mt + t0) (pr + r0) (qs + s0) n ∈ vals).
  { rewrite Hvals. apply list_elem_of_fmap. exists (j0, t0, r0, s0). split.
    - unfold tap_value. by rewrite Hb0.
    - apply elem_of_taps4. lia. }
  assert (Hne : vals <> []) by (intros Hnil; rewrite Hnil in Hin0; by apply elem_of_nil in Hin0).
  destruct (vargmax_spec Hirr Hasym Hneg vals Hne) as (b & v & Hb & Hv & Hfm & Hbv).
  destruct Hfm as (Hbnn & v' & Hbv' & Hmax & _).
  rewrite Hbv in Hbv'. injection Hbv' as <-.
  pose proof Hbv as Hbv2. rewrite Hvals, list_lookup_fmap in Hbv2.
  destruct (taps4 J T R S_ !! Z.to_nat b) as [[[[j t] r] s]|] eqn:Htap; [|done].
  injection Hbv2 as Hvdef.
  apply lookup_taps4 in Htap as [Hin Hpos]; [|lia..].
  apply elem_of_taps4 in Hin as (Hj & Ht & Hr & Hs).
  rewrite Z2Nat.id in Hpos by lia.
  assert (Hbin : in_bounds (Pool.pool_C pool) D H W (kj + j) (mt + t) (pr + r) (qs + s) = true).
  { destruct (in_bounds (Pool.pool_C pool) D H W (kj + j) (mt + t) (pr + r) (qs + s))
      eqn:Hbin; [done|].
    unfold tap_value in Hvdef. rewrite Hbin in Hvdef. subst v.
    specialize (Hmax _ Hin0). rewrite Hmin in Hmax; done. }
  unfold tap_value in Hvdef. rewrite Hbin in Hvdef.
  assert (HO : E5 cpuO (M, P, Q) k m p q n = v).
  { rewrite (HOv k m p q n) by done. fold vals. by rewrite Hv. }
  exists j, t, r, s. split; [done|]. split; [done|]. split; [by rewrite Hb, Hpos|].
  split; [by rewrite HO|].
  intros j' t' r' s' Hj' Ht' Hr' Hs' Hb'. rewrite HO. apply Hmax.
  rewrite Hvals. apply list_elem_of_fmap. exists (j', t', r', s'). split.
  - unfold tap_value. by rewrite Hb'.
  - apply elem_of_taps4. lia.
Qed.

Lemma pool1_I_above_fmin :
  forall c z y x n, in_bounds 2 1 1 1 c z y x = true -> 0 <= n < 1 ->
    ltb fmin (I5 Examples.pool1_I 1 1 1 c z y x n) = true.
Proof.
  intros c z y x n Hb Hn. unfold in_bounds in Hb.
  assert (z = 0) as -> by lia. assert (y = 0) as -> by lia.
  assert (x = 0) as -> by lia. assert (n = 0) as -> by lia.
  assert (c = 0 \/ c = 1) as [-> | ->] by lia; reflexivity.
Defined.

Lemma pool_max_inside_witness :
  exists cpuO cpuB,
    Pool.pool_reference (Examples.pool1 Pool.op_max) Examples.pool1_I Examples.pool1_E
      Examples.pool1_empty = Some (cpuO, cpuB) /\
    forall k m p q n j0 t0 r0 s0,
      0 <= k < 3 -> 0 <= m < 1 -> 0 <= p < 1 -> 0 <= q < 1 -> 0 <= n < 1 ->
      0 <= j0 < 2 -> 0 <= t0 < 1 -> 0 <= r0 < 1 -> 0 <= s0 < 1 ->
      let '(kj, mt, pr, qs) := pool_start (Examples.pool1 Pool.op_max) k m p q in
      in_bounds 2 1 1 1 (kj + j0) (mt + t0) (pr + r0) (qs + s0) = true ->
      exists j t r s,
        (0 <= j < 2 /\ 0 <= t < 1 /\ 0 <= r < 1 /\ 0 <= s < 1) /\
        in_bounds 2 1 1 1 (kj + j) (mt + t) (pr + r) (qs + s) = true /\
        vargmax (pool_window_values (Examples.pool1 Pool.op_max) Examples.pool1_I
                   fmin k m p q n) = Some (tap_pos 1 1 1 (j, t, r, s)) /\
        E5 cpuO (1, 1, 1) k m p q n =
          I5 Examples.pool1_I 1 1 1 (kj + j) (mt + t) (pr + r) (qs + s) n /\
        forall j' t' r' s',
          0 <= j' < 2 -> 0 <= t' < 1 -> 0 <= r' < 1 -> 0 <= s' < 1 ->
          in_bounds 2 1 1 1 (kj + j') (mt + t') (pr + r') (qs + s') = true ->
          ltb (E5 cpuO (1, 1, 1) k m p q n)
              (I5 Examples.pool1_I 1 1 1 (kj + j') (mt + t') (pr + r') (qs + s') n) = false.
Proof.
  exact (pool_max_inside (A:=Z) (Examples.pool1 Pool.op_max) Examples.pool1_I
           Examples.pool1_E Examples.pool1_empty eq_refl (pool1_shapes _)
           (pool1_positive _) (pool1_I_shape _) (pool1_E_shape _) (pool1_empty_shape _)
           Z_ltb_irrefl Z_ltb_asym Z_ltb_negtrans pool1_I_above_fmin).
Defined.

(** ** Shapes of the pooling results, and the uninitialised output array *)

Section PoolShapes.
Context {A : Type} {NA : Numeric A}.

(** Two arrays of the same shape with the same elements are equal. *)
Lemma has_shape_ext (a b : list (list A)) r c :
  has_shape a (r, c) -> has_shape b (r, c) ->
  (forall i n, 0 <= i < r -> 0 <= n < c -> at2 a i n = at2 b i n) ->
  a = b.
Proof.
  intros Ha Hb Heq. pose proof Ha as [Hla Hra]. pose proof Hb as [Hlb Hrb].
  cbn [fst snd] in *.
  apply list_eq_same_length with (length a); [lia|lia|].
  intros i ra rb Hi Hra' Hrb'.
  pose proof (proj1 (Forall_lookup _ _) Hra _ _ Hra') as Hlra.
  pose proof (proj1 (Forall_lookup _ _) Hrb _ _ Hrb') as Hlrb.
  cbn beta in Hlra, Hlrb.
  apply list_eq_same_length with (length ra); [lia|lia|].
  intros n x y Hn Hx Hy.
  specialize (Heq (Z.of_nat i) (Z.of_nat n) ltac:(lia) ltac:(lia)).
  rewrite (at2_lookup a ra _ _ x) in Heq by (lia || by rewrite Nat2Z.id).
  by rewrite (at2_lookup b rb _ _ y) in Heq by (lia || by rewrite Nat2Z.id).
Qed.

(** The numpy part of [test_pool_layer] returns arrays of the shapes of
    dimO and dimI with the outer dimensions collapsed. *)
Lemma pool_reference_shape_result (pool : Pool.PoolLayer) (cpuI0 cpuE empty : list (list A)) :
  Pool.pool_shapes pool ->
  Pool.pool_window_positive pool ->
  has_shape cpuI0 (sliceable (Pool.dimI pool) 1) ->
  has_shape cpuE (sliceable (Pool.dimO pool) 0) ->
  has_shape empty (sliceable (Pool.dimO pool) 0) ->
  exists cpuO cpuB,
    Pool.pool_reference pool cpuI0 cpuE empty = Some (cpuO, cpuB) /\
    has_shape cpuO (sliceable (Pool.dimO pool) 0) /\
    has_shape cpuB (sliceable (Pool.dimI pool) 0).
Proof.
  intros Hshapes Hpos HsI HsE Hse.
  unfold Pool.pool_reference.
  rewrite (pool_reference_settles pool cpuI0 cpuE empty Pool.repeat Hshapes HsE)
    by (unfold Pool.repeat; lia).
  destruct pool as [o N C K [[D H] W] [[[J T] R] S_] [[M P] Q]
                      [[[pad_j pad_d] pad_h] pad_w]
                      [[[str_j str_d] str_h] str_w] dI dO].
  unfold Pool.pool_shapes, Pool.pool_window_positive in *.
  cbn [Pool.op Pool.pool_N Pool.pool_C Pool.pool_K Pool.DHW Pool.JTRS Pool.MPQ
       Pool.dimI Pool.dimO] in *.
  destruct Hshapes as (-> & -> & HN & HC & HK & HD & HH & HW & _ & _ & _ & _ & HM & HP & HQ).
  destruct Hpos as (HJ & HT & HR & HS).
  rewrite !sliceable5, ?Z.add_0_r in *.
  apply (pool_reference_once_shape o N C K D H W J T R S_ M P Q pad_j pad_d pad_h pad_w
           str_j str_d str_h str_w HN HC HK HD HH HW HJ HT HR HS HM HP HQ _ cpuE
           ltac:(rewrite length_insert; apply HsI) HsE cpuI0 _ HsI eq_refl empty eq_refl).
  apply Hse.
Qed.

(** X7. The arrays [run_numpy_pool] returns for [test_pool_layer] have the
    shapes the test relies on: cpuO that of dimO and cpuB[:-1, :] that of
    dimI, each with the outer dimensions collapsed into one. *)
Theorem pool_reference_shapes (pool : Pool.PoolLayer) (cpuI0 cpuE empty : list (list A)) :
  Pool.pool_shapes pool ->
  Pool.pool_window_positive pool ->
  has_shape cpuI0 (sliceable (Pool.dimI pool) 1) ->
  has_shape cpuE (sliceable (Pool.dimO pool) 0) ->
  has_shape empty (sliceable (Pool.dimO pool) 0) ->
  exists cpuO cpuB,
    Pool.pool_reference pool cpuI0 cpuE empty = Some (cpuO, cpuB) /\
    has_shape cpuO (sliceable (Pool.dimO pool) 0) /\
    has_shape cpuB (sliceable (Pool.dimI pool) 0).
Proof. apply pool_reference_shape_result. Qed.

(** X8. [run_numpy_pool] allocates cpuO with np.empty and then writes every
    element of it: the result of the reference does not depend on what the
    uninitialised array held. *)
Theorem pool_reference_ignores_empty (pool : Pool.PoolLayer)
    (cpuI0 cpuE empty1 empty2 : list (list A)) :
  Pool.pool_shapes pool ->
  Pool.pool_window_positive pool ->
  has_shape cpuI0 (sliceable (Pool.dimI pool) 1) ->
  has_shape cpuE (sliceable (Pool.dimO pool) 0) ->
  has_shape empty1 (sliceable (Pool.dimO pool) 0) ->
  has_shape empty2 (sliceable (Pool.dimO pool) 0) ->
  Pool.pool_reference pool cpuI0 cpuE empty1 = Pool.pool_reference pool cpuI0 cpuE empty2.
Proof.
  intros Hshapes Hpos HsI HsE Hse1 Hse2.
  destruct (pool_reference_shape_result pool cpuI0 cpuE empty1 Hshapes Hpos HsI HsE Hse1)
    as (cpuO1 & cpuB1 & Hrun1 & HsO1 & HsB1).
  destruct (pool_reference_shape_result pool cpuI0 cpuE empty2 Hshapes Hpos HsI HsE Hse2)
    as (cpuO2 & cpuB2 & Hrun2 & HsO2 & HsB2).
  pose proof (pool_reference_result pool cpuI0 cpuE empty1 Hshapes Hpos HsI HsE Hse1) as Hres1.
  pose proof (pool_reference_result pool cpuI0 cpuE empty2 Hshapes Hpos HsI HsE Hse2) as Hres2.
  unfold Pool.pool_shapes in Hshapes.
  destruct (Pool.DHW pool) as [[D H] W], (Pool.JTRS pool) as [[[J T] R] S_],
    (Pool.MPQ pool) as [[M P] Q].
  cbv zeta in Hres1, Hres2.
  destruct Hres1 as (cpuO1' & cpuB1' & Hrun1' & _ & HO1 & HB1).
  destruct Hres2 as (cpuO2' & cpuB2' & Hrun2' & _ & HO2 & HB2).
  rewrite Hrun1 in Hrun1'. injection Hrun1' as <- <-.
  rewrite Hrun2 in Hrun2'. injection Hrun2' as <- <-.
  destruct Hshapes as (HdI & HdO & HN & HC & HK & HD & HH & HW & _ & _ & _ & _ & HM & HP & HQ).
  rewrite HdO, HdI, !sliceable5, ?Z.add_0_r in *.
  rewrite Hrun1, Hrun2. f_equal. f_equal.
  - apply (has_shape_ext _ _ _ _ HsO1 HsO2). intros i n Hi Hn.
    destruct (flat_index_surj (Pool.pool_K pool) M P Q i) as (k & m & p & q & Hb & <-);
      [done..|].
    unfold in_bounds in Hb. rewrite <- row5_flat_index.
    specialize (HO1 k m p q n ltac:(lia) ltac:(lia) ltac:(lia) ltac:(lia) Hn).
    specialize (HO2 k m p q n ltac:(lia) ltac:(lia) ltac:(lia) ltac:(lia) Hn).
    unfold E5 in HO1, HO2. by rewrite HO1, HO2.
  - apply (has_shape_ext _ _ _ _ HsB1 HsB2). intros i n Hi Hn.
    destruct (flat_index_surj (Pool.pool_C pool) D H W i) as (c & z & y & x & Hb & <-);
      [done..|].
    specialize (HB1 c z y x n Hb Hn). specialize (HB2 c z y x n Hb Hn).
    unfold I5 in HB1, HB2. by rewrite HB1, HB2.
Qed.

End PoolShapes.

Lemma pool_reference_shapes_witness :
  exists cpuO cpuB,
    Pool.pool_reference (Examples.pool1 Pool.op_avg) Examples.pool1_I Examples.pool1_E
      Examples.pool1_empty = Some (cpuO, cpuB) /\
    has_shape cpuO (sliceable (Pool.dimO (Examples.pool1 Pool.op_avg)) 0) /\
    has_shape cpuB (sliceable (Pool.dimI (Examples.pool1 Pool.op_avg)) 0).
Proof.
  exact (pool_reference_shapes (A:=Z) (Examples.pool1 Pool.op_avg) Examples.pool1_I
           Examples.pool1_E Examples.pool1_empty (pool1_shapes _)
           (pool1_positive _) (pool1_I_shape _) (pool1_E_shape _) (pool1_empty_shape _)).
Defined.

Lemma pool1_zeros_shape o :
  has_shape (A:=Z) [[0]; [0]; [0]] (sliceable (Pool.dimO (Examples.pool1 o)) 0).
Proof. split; [reflexivity|]. repeat constructor. Defined.

Lemma pool_reference_ignores_empty_witness :
  Pool.pool_reference (Examples.pool1 Pool.op_max) Examples.pool1_I Examples.pool1_E
    Examples.pool1_empty =
  Pool.pool_reference (Examples.pool1 Pool.op_max) Examples.pool1_I Examples.pool1_E
    [[0]; [0]; [0]].
Proof.
  exact (pool_reference_ignores_empty (A:=Z) (Examples.pool1 Pool.op_max) Examples.pool1_I
           Examples.pool1_E Examples.pool1_empty [[0]; [0]; [0]] (pool1_shapes _)
           (pool1_positive _) (pool1_I_shape _) (pool1_E_shape _) (pool1_empty_shape _)
           (pool1_zeros_shape _)).
Defined.

(** ** A window without taps *)

Lemma bind_all_nil {X Y} (l : list X) (f : X -> list Y) :
  (forall x, f x = []) -> l ≫= f = [].
Proof. intros Hf. induction l as [|x l IH]; [done|]. cbn. by rewrite Hf, IH. Qed.

Lemma taps4_empty a b c d :
  a <= 0 \/ b <= 0 \/ c <= 0 \/ d <= 0 -> taps4 a b c d = [].
Proof.
  intros Hle. unfold taps4.
  destruct (decide (a <= 0)) as [Ha|Ha]; [by rewrite (range_nil _ ltac:(eassumption))|].
  apply bind_all_nil. intros i.
  destruct (decide (b <= 0)) as [Hb|Hb]; [by rewrite (range_nil _ ltac:(eassumption))|].
  apply bind_all_nil. intros j.
  destruct (decide (c <= 0)) as [Hc|Hc]; [by rewrite (range_nil _ ltac:(eassumption))|].
  apply bind_all_nil. intros k. rewrite range_nil by lia. done.
Qed.

Lemma for_each_None {X S} (l : list X) (body : X -> S -> option S) s :
  l <> [] -> (forall x s, body x s = None) -> for_each l body s = None.
Proof. intros Hl Hb. destruct l as [|x l]; [done|]. cbn. by rewrite Hb. Qed.

(** X9. [run_numpy_pool] on a layer whose window has no tap (one of J, T, R, S
    is not positive) and with at least one window position: the max branch
    takes the maximum of an empty array and the avg branch computes
    1.0/len(idx) with an empty idx, so both raise, whatever the arrays
    are. *)
Theorem pool_empty_window_raises {A : Type} {NA : Numeric A}
    (pool : Pool.PoolLayer) (cpuI cpuE empty : list (list A))
    (op_arg : Pool.pool_op) (rep : Z) :
  let '(J, T, R, S_) := Pool.JTRS pool in
  let '(M, P, Q) := Pool.MPQ pool in
  J <= 0 \/ T <= 0 \/ R <= 0 \/ S_ <= 0 ->
  0 < Pool.pool_K pool -> 0 < M -> 0 < P -> 0 < Q -> 1 <= rep ->
  (Pool.op pool = Pool.op_max /\ 0 < Pool.pool_N pool) \/ Pool.op pool = Pool.op_avg ->
  Pool.run_numpy_pool_n rep op_arg cpuI cpuE pool empty = None.
Proof.
  destruct (Pool.JTRS pool) as [[[J T] R] S_] eqn:HJTRS,
    (Pool.MPQ pool) as [[M P] Q] eqn:HMPQ.
  intros Hempty HK HM HP HQ Hrep Hop.
  unfold Pool.run_numpy_pool_n.
  apply for_each_None.
  { intros Hnil. pose proof (length_range rep) as Hl. rewrite Hnil in Hl. simpl in Hl. lia. }
  intros _ [cpuO cpuB]. unfold Pool.pool_pass. rewrite HMPQ.
  rewrite (for_each_windows4 (Pool.pool_K pool) M P Q
    (fun k m p q st => Pool.pool_window pool cpuI cpuE k m p q st)).
  apply for_each_None.
  { intros Hnil.
    assert (Hin : (0, 0, 0, 0) ∈ taps4 (Pool.pool_K pool) M P Q) by (apply elem_of_taps4; lia).
    rewrite Hnil in Hin. by apply elem_of_nil in Hin. }
  intros [[[k m] p] q] [cpuO' cpuB']. unfold Pool.pool_window.
  destruct (Pool.padding pool) as [[[pad_j pad_d] pad_h] pad_w].
  destruct (Pool.strides pool) as [[[str_j str_d] str_h] str_w].
  rewrite pool_pixel_indices_taps, HJTRS.
  destruct (Pool.DHW pool) as [[D H] W].
  unfold window_indices. rewrite taps4_empty by done.
  cbn [fmap list_fmap take_rows mapM mbind option_bind mret option_ret length].
  destruct Hop as [[-> HN]| ->].
  - unfold max_axis0.
    destruct (range (Pool.pool_N pool)) as [|n ns] eqn:Hr.
    { pose proof (length_range (Pool.pool_N pool)) as Hl. rewrite Hr in Hl. simpl in Hl. lia. }
    done.
  - cbn [Z.of_nat Z.eqb]. destruct (setitem cpuO' _ _); [|done]. cbn [mbind option_bind].
    by destruct (item cpuE _).
Qed.

Lemma pool_empty_window_raises_witness :
  Pool.run_numpy_pool_n (A:=Z) 5 Pool.op_avg [[3]; [0]] [[4]; [6]]
    (Pool.pool_layer Pool.op_avg 1 1 1 1 1 0 1 1 1 0 0 0 0 1 1 1 1) [[7]; [7]] = None.
Proof.
  refine (pool_empty_window_raises (A:=Z)
            (Pool.pool_layer Pool.op_avg 1 1 1 1 1 0 1 1 1 0 0 0 0 1 1 1 1)
            [[3]; [0]] [[4]; [6]] [[7]; [7]] Pool.op_avg 5 _ _ _ _ _ _ _);
    vm_compute; (lia || (by right) || discriminate || (left; discriminate) || reflexivity).
Defined.

(** ** Collapsing the outer dimensions *)

Lemma fold_left_mul_acc (l : list Z) (a : Z) :
  fold_left Z.mul l a = a * fold_left Z.mul l 1.
Proof.
  revert a. induction l as [|x l IH]; intros a; cbn [fold_left]; [lia|].
  rewrite (IH (a * x)), (IH (1 * x)). lia.
Qed.

(** X10. [slicable] of the convolution test and [sliceable] of the pooling test
    (the same function): for a non-empty shape tuple the 2-D shape returned
    holds as many elements as the shape itself, plus [pad] rows of the
    inner dimension.  (On the empty tuple, dim[-1] raises.) *)
Theorem sliceable_size (dim : list Z) (pad : Z) :
  dim <> [] ->
  let '(dim0, inner) := sliceable dim pad in
  dim0 * inner = fold_left Z.mul dim 1 + pad * inner /\
  inner = List.last dim 0.
Proof.
  intros Hne. unfold sliceable. split; [|done].
  destruct (exists_last Hne) as (init & l & ->).
  unfold but_last. rewrite length_app. cbn [length].
  replace (length init + 1 - 1)%nat with (length init) by lia.
  rewrite take_app_length, last_last, fold_left_app. cbn [fold_left]. lia.
Qed.

Lemma sliceable_size_witness :
  let '(dim0, inner) := sliceable [64; 1; 5; 5; 64] 1 in
  dim0 * inner = fold_left Z.mul [64; 1; 5; 5; 64] 1 + 1 * inner /\
  inner = List.last [64; 1; 5; 5; 64] 0.
Proof. apply (sliceable_size [64; 1; 5; 5; 64] 1). discriminate. Defined.

(** * Text datasets *)

Section TextFiles.
Import Text.

Lemma slice_to_from {X} (l : list X) (k : Z) : slice_to l k ++ slice_from l k = l.
Proof. apply take_drop. Qed.

(** X11. [Text.create_valid_file] on a path that can be read returns, with two
    different paths; afterwards the train file followed by the validation
    file is the text that was read, nothing lost and nothing twice, whatever
    index the floating-point product gives (negative or past the end
    included); no other file is changed, and the file read is not one of
    the two when [splitext] cuts the path in two (root + ext == path). *)
Theorem create_valid_file_split (splitext : str -> str * str) (train_split_of : Z -> Z)
    (fs : files) (path text : str) :
  fs !! path = Some text ->
  exists fs' train_path valid_path train_text valid_text,
    create_valid_file splitext train_split_of fs path =
      Some (fs', (train_path, valid_path)) /\
    train_path <> valid_path /\
    fs' !! train_path = Some train_text /\
    fs' !! valid_path = Some valid_text /\
    train_text ++ valid_text = text /\
    (forall p, p <> train_path -> p <> valid_path -> fs' !! p = fs !! p) /\
    ((splitext path).1 ++ (splitext path).2 = path ->
     path <> train_path /\ path <> valid_path).
Proof.
  intros Hread. unfold create_valid_file. rewrite Hread. cbn [mbind option_bind].
  destruct (splitext path) as [filename ext]. cbn [fst snd].
  set (k := train_split_of (Z.of_nat (length text))).
  assert (Hne : filename ++ list_ascii_of_string "_train" ++ ext <>
                filename ++ list_ascii_of_string "_valid" ++ ext).
  { intros Heq. apply app_inv_head in Heq. cbn in Heq. discriminate. }
  eexists _, _, _, (slice_to text k), (slice_from text k).
  split; [done|]. split; [done|]. split.
  { rewrite lookup_insert_ne by done. by rewrite lookup_insert_eq. }
  split; [by rewrite lookup_insert_eq|]. split; [apply slice_to_from|]. split.
  { intros p Hp1 Hp2. by rewrite !lookup_insert_ne. }
  intros <-. split; intros Heq%(f_equal length);
    rewrite !length_app in Heq; cbn in Heq; lia.
Qed.

Lemma create_valid_file_split_witness :
  let fs : files := {[ list_ascii_of_string "a.txt" := list_ascii_of_string "hello world" ]} in
  exists fs' train_path valid_path train_text valid_text,
    create_valid_file (fun _ => (list_ascii_of_string "a", list_ascii_of_string ".txt"))
      (fun n => n * 9 / 10) fs (list_ascii_of_string "a.txt") =
      Some (fs', (train_path, valid_path)) /\
    train_path <> valid_path /\
    fs' !! train_path = Some train_text /\
    fs' !! valid_path = Some valid_text /\
    train_text ++ valid_text = list_ascii_of_string "hello world" /\
    (forall p, p <> train_path -> p <> valid_path -> fs' !! p = fs !! p) /\
    (list_ascii_of_string "a" ++ list_ascii_of_string ".txt" = list_ascii_of_string "a.txt" ->
     list_ascii_of_string "a.txt" <> train_path /\
     list_ascii_of_string "a.txt" <> valid_path).
Proof.
  exact (create_valid_file_split
           (fun _ => (list_ascii_of_string "a", list_ascii_of_string ".txt"))
           (fun n => n * 9 / 10)
           {[ list_ascii_of_string "a.txt" := list_ascii_of_string "hello world" ]}
           (list_ascii_of_string "a.txt") (list_ascii_of_string "hello world")
           (lookup_singleton_eq _ _)).
Defined.

(** X12. [Text.get_vocab]: the set returned contains every token, with or
    without a predefined vocabulary; and the call fails (the assertion)
    exactly when a predefined vocabulary lacks one of the tokens. *)
Theorem get_vocab_contains (tokens : list str) (vocab : option (list str)) :
  (forall vs, get_vocab tokens vocab = Some vs -> forall t, t ∈ tokens -> t ∈ vs) /\
  (get_vocab tokens vocab = None <->
   exists v t, vocab = Some v /\ t ∈ tokens /\ t ∉ v).
Proof.
  unfold get_vocab. destruct vocab as [v|].
  - destruct (decide (list_to_set tokens ⊆ (list_to_set v : gset str))) as [Hsub|Hsub].
    + split.
      * intros vs [= <-] t Ht. apply Hsub. by apply elem_of_list_to_set.
      * split; [done|]. intros (v' & t & [= <-] & Ht & Hnt). exfalso. apply Hnt.
        apply (elem_of_list_to_set (C:=gset str)), Hsub. by apply elem_of_list_to_set.
    + split; [done|]. split; [|done]. intros _. exists v.
      destruct (decide (Forall (fun t => t ∈ v) tokens)) as [Hall|Hall].
      * exfalso. apply Hsub. intros t Ht%elem_of_list_to_set.
        apply elem_of_list_to_set. by eapply (proj1 (Forall_forall _ _) Hall).
      * apply not_Forall_Exists in Hall; [|apply _].
        apply Exists_exists in Hall as (t & Ht & Hnt). by exists t.
  - split.
    + intros vs [= <-] t Ht. by apply elem_of_list_to_set.
    + split; [done|]. by intros (v & t & [=] & _).
Qed.

End TextFiles.

Section TextTokens.
Import Text.

(** X13. The tokens [Text.__init__] keeps, for a positive bsz * time_steps: a
    prefix of the tokens, as long as the largest multiple of
    bsz * time_steps that fits; fewer than bsz * time_steps tokens are
    dropped, and nbatches * bsz * time_steps tokens are kept. *)
Theorem trim_tokens_multiple (bsz time_steps : Z) (tokens : list str) :
  0 < bsz * time_steps ->
  exists kept,
    trim_tokens bsz time_steps tokens = Some kept /\
    kept = take (length kept) tokens /\
    Z.of_nat (length kept) =
      Z.of_nat (length tokens) / (bsz * time_steps) * (bsz * time_steps) /\
    Z.of_nat (length kept) / (bsz * time_steps) * bsz * time_steps =
      Z.of_nat (length kept) /\
    0 <= Z.of_nat (length tokens) - Z.of_nat (length kept) < bsz * time_steps.
Proof.
  intros Hd. unfold trim_tokens.
  set (d := bsz * time_steps) in *. set (n := Z.of_nat (length tokens)).
  replace (d =? 0) with false by lia.
  pose proof (Z.div_mod n d ltac:(lia)) as Hdm.
  pose proof (Z.mod_pos_bound n d Hd) as Hmod.
  assert (Hkept : forall kept : list str,
    Z.of_nat (length kept) = n - n mod d ->
    Z.of_nat (length kept) = n / d * d /\
    Z.of_nat (length kept) / d * bsz * time_steps = Z.of_nat (length kept) /\
    0 <= n - Z.of_nat (length kept) < d).
  { intros kept Hl. split; [lia|]. split; [|lia].
    replace (Z.of_nat (length kept)) with (n / d * d) by lia.
    rewrite Z.div_mul by lia. unfold d. lia. }
  destruct (n mod d =? 0) eqn:Hz.
  - exists tokens. split; [done|]. split; [by rewrite firstn_all|].
    apply Hkept. fold n. lia.
  - eexists. split; [done|]. unfold slice_to, slice_index. fold n.
    replace (- (n mod d) <? 0) with true by lia.
    assert (Hle : n mod d <= n) by (apply Z.mod_le; lia).
    split.
    + rewrite length_take. f_equal. lia.
    + apply Hkept. rewrite length_take. fold n. lia.
Qed.

Lemma trim_tokens_multiple_witness :
  exists kept,
    trim_tokens 2 3 ((fun c => [c]) <$> list_ascii_of_string "hello world") = Some kept /\
    kept = take (length kept) ((fun c => [c]) <$> list_ascii_of_string "hello world") /\
    Z.of_nat (length kept) =
      Z.of_nat (length ((fun c : ascii => [c]) <$> list_ascii_of_string "hello world"))
        / (2 * 3) * (2 * 3) /\
    Z.of_nat (length kept) / (2 * 3) * 2 * 3 = Z.of_nat (length kept) /\
    0 <= Z.of_nat (length ((fun c : ascii => [c]) <$> list_ascii_of_string "hello world"))
         - Z.of_nat (length kept) < 2 * 3.
Proof.
  apply (trim_tokens_multiple 2 3 ((fun c => [c]) <$> list_ascii_of_string "hello world")).
  lia.
Defined.

(** *** The order of the vocabulary *)

Lemma str_leb_total (s t : str) : str_leb s t = true \/ str_leb t s = true.
Proof.
  revert t. induction s as [|a s IH]; intros [|b t]; cbn; auto.
  destruct (N.ltb_spec (N_of_ascii a) (N_of_ascii b)); [auto|].
  destruct (N.ltb_spec (N_of_ascii b) (N_of_ascii a)); [auto|].
  rewrite (proj2 (N.eqb_eq (N_of_ascii a) (N_of_ascii b))) by lia.
  rewrite (proj2 (N.eqb_eq (N_of_ascii b) (N_of_ascii a))) by lia. apply IH.
Qed.

Lemma str_leb_trans (s t u : str) :
  str_leb s t = true -> str_leb t u = true -> str_leb s u = true.
Proof.
  revert t u. induction s as [|a s IH]; intros [|b t] [|c u]; cbn; try done.
  destruct (N.ltb_spec (N_of_ascii a) (N_of_ascii b)) as [Hab|Hab];
    destruct (N.ltb_spec (N_of_ascii b) (N_of_ascii c)) as [Hbc|Hbc];
    destruct (N.ltb_spec (N_of_ascii a) (N_of_ascii c)) as [Hac|Hac];
    try done; try lia.
  - destruct (N.eqb_spec (N_of_ascii b) (N_of_ascii c)); [lia|done].
  - destruct (N.eqb_spec (N_of_ascii a) (N_of_ascii b)); [lia|done].
  - destruct (N.eqb_spec (N_of_ascii a) (N_of_ascii b)) as [Hab'|]; [|done].
    destruct (N.eqb_spec (N_of_ascii b) (N_of_ascii c)) as [Hbc'|]; [|done].
    rewrite (proj2 (N.eqb_eq (N_of_ascii a) (N_of_ascii c))) by lia. apply IH.
Qed.

Lemma str_leb_antisym (s t : str) :
  str_leb s t = true -> str_leb t s = true -> s = t.
Proof.
  revert t. induction s as [|a s IH]; intros [|b t]; cbn; try done.
  destruct (N.ltb_spec (N_of_ascii a) (N_of_ascii b)) as [Hab|Hab];
    destruct (N.ltb_spec (N_of_ascii b) (N_of_ascii a)) as [Hba|Hba]; try lia.
  - destruct (N.eqb_spec (N_of_ascii b) (N_of_ascii a)); [lia|done].
  - destruct (N.eqb_spec (N_of_ascii a) (N_of_ascii b)); [lia|done].
  - destruct (N.eqb_spec (N_of_ascii a) (N_of_ascii b)) as [Heq|]; [|done].
    rewrite (proj2 (N.eqb_eq (N_of_ascii b) (N_of_ascii a))) by lia.
    intros Hst Hts. f_equal; [|by apply IH].
    rewrite <- (ascii_N_embedding a), <- (ascii_N_embedding b). by rewrite Heq.
Qed.

#[local] Instance str_le_total : Total str_le.
Proof. intros s t. apply str_leb_total. Qed.

#[local] Instance str_le_trans : Transitive str_le.
Proof. intros s t u. apply str_leb_trans. Qed.

#[local] Instance str_le_antisym : AntiSymm eq str_le.
Proof. intros s t. apply str_leb_antisym. Qed.

Lemma sorted_Permutation (vs : gset str) : sorted vs ≡ₚ elements vs.
Proof. apply merge_sort_Permutation. Qed.

Lemma elem_of_sorted (vs : gset str) t : t ∈ sorted vs <-> t ∈ vs.
Proof. rewrite sorted_Permutation. apply elem_of_elements. Qed.

Lemma NoDup_sorted (vs : gset str) : NoDup (sorted vs).
Proof. rewrite sorted_Permutation. apply NoDup_elements. Qed.

Lemma StronglySorted_sorted (vs : gset str) : StronglySorted str_le (sorted vs).
Proof. apply StronglySorted_merge_sort; apply _. Qed.

End TextTokens.

(** *** Dictionaries of an enumeration *)

Section Dicts.
Import Text.
Context {K V : Type} `{Countable K}.

Lemma dict_fold_lookup (pairs : list (K * V)) : forall (m : gmap K V) k v,
  NoDup pairs.*1 ->
  fold_left (fun d kv => <[fst kv := snd kv]> d) pairs m !! k = Some v <->
  (k, v) ∈ pairs \/ ((k ∉ pairs.*1) /\ m !! k = Some v).
Proof.
  induction pairs as [|[k0 v0] pairs IH]; intros m k v Hnd.
  - cbn. split; [intros Hm; right; split; [apply not_elem_of_nil|done]|].
    intros [Hin%elem_of_nil|[_ Hm]]; done.
  - cbn [fold_left fst snd]. rewrite fmap_cons in Hnd. cbn [fst] in Hnd.
    apply NoDup_cons in Hnd as [Hk0 Hnd]. rewrite (IH _ _ _ Hnd).
    rewrite fmap_cons. cbn [fst]. rewrite elem_of_cons, not_elem_of_cons. split.
    + intros [Hin|[Hnin Hm]]; [left; by right|].
      destruct (decide (k = k0)) as [->|Hne].
      * rewrite lookup_insert_eq in Hm. injection Hm as ->. left. by left.
      * rewrite lookup_insert_ne in Hm by done. by right.
    + intros [[Heq|Hin]|[[Hne Hnin] Hm]]; [injection Heq as -> ->| |].
      * right. split; [done|]. by rewrite lookup_insert_eq.
      * by left.
      * right. split; [done|]. by rewrite lookup_insert_ne.
Qed.

Lemma dict_lookup (pairs : list (K * V)) k v :
  NoDup pairs.*1 -> dict pairs !! k = Some v <-> (k, v) ∈ pairs.
Proof.
  intros Hnd. unfold dict. rewrite dict_fold_lookup by done.
  rewrite lookup_empty. split; [|by left]. by intros [?|[_ ?]].
Qed.

End Dicts.

Section Enumerate.
Import Text.
Context {X : Type}.

Lemma elem_of_enumerate (l : list X) i x :
  (i, x) ∈ enumerate l <-> 0 <= i /\ l !! Z.to_nat i = Some x.
Proof.
  unfold enumerate. rewrite list_elem_of_lookup. split.
  - intros [n Hn]. apply lookup_zip_with_Some in Hn as (i' & x' & [= <- <-] & Hi & Hx).
    apply lookup_range in Hi as [-> _]. split; [lia|]. by rewrite Nat2Z.id.
  - intros [Hi Hx]. exists (Z.to_nat i). apply lookup_zip_with_Some. exists i, x.
    split; [done|]. split; [|done]. apply lookup_range.
    apply lookup_lt_Some in Hx. lia.
Qed.

Lemma fst_enumerate (l : list X) : (enumerate l).*1 = range (Z.of_nat (length l)).
Proof. unfold enumerate. apply fst_zip. rewrite length_range. lia. Qed.

Lemma snd_enumerate (l : list X) : (enumerate l).*2 = l.
Proof. unfold enumerate. apply snd_zip. rewrite length_range. lia. Qed.

Lemma NoDup_range n : NoDup (range n).
Proof. apply NoDup_seqZ. Qed.

End Enumerate.

Section VocabDicts.
Import Text.

Lemma index_to_token_lookup (l : list str) i t :
  dict (enumerate l) !! i = Some t <-> 0 <= i /\ l !! Z.to_nat i = Some t.
Proof.
  rewrite dict_lookup by (rewrite fst_enumerate; apply NoDup_range).
  apply elem_of_enumerate.
Qed.

Lemma token_to_index_lookup (l : list str) t i :
  NoDup l ->
  dict ((fun it => (snd it, fst it)) <$> enumerate l) !! t = Some i <->
  0 <= i /\ l !! Z.to_nat i = Some t.
Proof.
  intros Hnd. rewrite dict_lookup.
  - rewrite list_elem_of_fmap. split.
    + intros ([i' t'] & [= -> ->] & Hin). by apply elem_of_enumerate.
    + intros Hin. exists (i, t). split; [done|]. by apply elem_of_enumerate.
  - rewrite <- list_fmap_compose.
    replace ((fst ∘ (fun it : Z * str => (snd it, fst it))) <$> enumerate l)
      with ((enumerate l).*2) by (apply list_fmap_ext; by intros _ [??] _).
    by rewrite snd_enumerate.
Qed.

End VocabDicts.

(** *** Reshaping *)

Section Chunks.
Import Text.
Context {X : Type}.

Lemma length_chunks (k n : nat) (l : list X) : length (chunks k n l) = k.
Proof. revert l. induction k as [|k IH]; intros l; cbn; [done|]. by rewrite IH. Qed.

Lemma lookup_chunks (k n : nat) (l : list X) (i : nat) :
  (i < k)%nat -> chunks k n l !! i = Some (take n (drop (i * n) l)).
Proof.
  revert l i. induction k as [|k IH]; intros l i Hi; [lia|].
  destruct i as [|i]; cbn [chunks]; [done|].
  rewrite lookup_cons_ne_0 by lia. cbn [Nat.pred]. rewrite IH by lia.
  rewrite drop_drop. reflexivity.
Qed.

Lemma lookup_chunks3 (d0 d1 d2 : nat) (a : list X) (b j t : nat) :
  (b < d0)%nat -> (j < d1)%nat -> (t < d2)%nat ->
  exists rows row,
    (chunks d1 d2 <$> chunks d0 (d1 * d2) a) !! b = Some rows /\
    rows !! j = Some row /\
    row !! t = a !! ((b * d1 + j) * d2 + t)%nat.
Proof.
  intros Hb Hj Ht. eexists _, _. split; [|split].
  - rewrite list_lookup_fmap, lookup_chunks by done. cbn. reflexivity.
  - by rewrite lookup_chunks.
  - rewrite lookup_take_lt by done. rewrite lookup_drop.
    rewrite lookup_take_lt by nia. rewrite lookup_drop. f_equal. nia.
Qed.

Lemma reshape_dims_nonneg (size d0 d1 d2 : Z) :
  0 <= d0 -> 0 <= d1 -> 0 <= d2 -> size = d0 * d1 * d2 ->
  reshape_dims size [d0; d1; d2] = Some [d0; d1; d2].
Proof.
  intros H0 H1 H2 ->. unfold reshape_dims.
  assert (Hpos : filter (fun d => 0 <= d) [d0; d1; d2] = [d0; d1; d2]).
  { rewrite !filter_cons, filter_nil. repeat case_decide; (done || lia). }
  assert (Hneg : filter (fun d => d < 0) [d0; d1; d2] = []).
  { rewrite !filter_cons, filter_nil. repeat case_decide; (done || lia). }
  rewrite Hpos, Hneg. cbn [length fold_left].
  replace (d0 * d1 * d2 =? 1 * d0 * d1 * d2) with true by lia. done.
Qed.

Lemma reshape3_nonneg (a : list X) (d0 d1 d2 : Z) :
  0 <= d0 -> 0 <= d1 -> 0 <= d2 -> Z.of_nat (length a) = d0 * d1 * d2 ->
  reshape3 a d0 d1 d2 =
  Some (chunks (Z.to_nat d1) (Z.to_nat d2)
          <$> chunks (Z.to_nat d0) (Z.to_nat (d1 * d2)) a).
Proof.
  intros H0 H1 H2 Hl. unfold reshape3. by rewrite reshape_dims_nonneg.
Qed.

End Chunks.

(** *** What [Text.__init__] computes *)

Section TextInit.
Import Text.

Lemma slice_to_1 {X} (l : list X) : slice_to l 1 = take 1 l.
Proof.
  unfold slice_to, slice_index. cbn [Z.ltb Z.compare].
  destruct l as [|x l]; [done|]. cbn [length].
  by replace (Z.to_nat (1 `min` Z.of_nat (S (length l)))) with 1%nat by lia.
Qed.

Lemma slice_from_1 {X} (l : list X) : slice_from l 1 = drop 1 l.
Proof.
  unfold slice_from, slice_index. cbn [Z.ltb Z.compare].
  destruct l as [|x l]; [done|]. cbn [length].
  by replace (Z.to_nat (1 `min` Z.of_nat (S (length l)))) with 1%nat by lia.
Qed.

Lemma trim_tokens_take (bsz time_steps : Z) (tokens : list str) :
  0 < bsz * time_steps ->
  trim_tokens bsz time_steps tokens =
  Some (take (Z.to_nat (Z.of_nat (length tokens) / (bsz * time_steps) * (bsz * time_steps)))
          tokens).
Proof.
  intros Hd. unfold trim_tokens.
  set (d := bsz * time_steps) in *. set (n := Z.of_nat (length tokens)).
  replace (d =? 0) with false by lia.
  pose proof (Z.div_mod n d ltac:(lia)) as Hdm.
  pose proof (Z.mod_pos_bound n d Hd) as Hmod.
  destruct (n mod d =? 0) eqn:Hz.
  - f_equal. symmetry. apply take_ge. fold n. lia.
  - f_equal. unfold slice_to, slice_index. fold n.
    replace (- (n mod d) <? 0) with true by lia. f_equal. lia.
Qed.

Lemma concat_chunks {X} (k n : nat) (l : list X) :
  length l = (k * n)%nat -> concat (chunks k n l) = l.
Proof.
  revert l. induction k as [|k IH]; intros l Hl; cbn [chunks concat].
  - by destruct l.
  - rewrite IH by (rewrite length_drop; lia). apply take_drop.
Qed.

Lemma concat_chunks3 {X} (d0 d1 d2 : nat) (a : list X) :
  length a = (d0 * d1 * d2)%nat ->
  concat (concat (chunks d1 d2 <$> chunks d0 (d1 * d2) a)) = a.
Proof.
  intros Hl.
  assert (Hin : forall k (l : list X), length l = (k * (d1 * d2))%nat ->
    concat (concat (chunks d1 d2 <$> chunks k (d1 * d2) l)) = l).
  { induction k as [|k IH]; intros l Hk; cbn [chunks fmap list_fmap concat].
    - by destruct l.
    - rewrite concat_app.
      rewrite concat_chunks by (rewrite length_take; lia).
      rewrite IH by (rewrite length_drop; lia). apply take_drop. }
  apply Hin. lia.
Qed.

Section Result.
Variables (bsz time_steps : Z) (fs : files) (path text : str).
Variables (vocab0 : option (list str)) (tokenizer : option (str -> list str)).
Hypotheses (Hbsz : 0 < bsz) (Hts : 0 < time_steps).
Hypothesis Hread : fs !! path = Some text.

(** The tokens kept, the vocabulary, the code of a token and the codes
    of the tokens kept. *)
Definition kept_tokens : list str :=
  let all := get_tokens text tokenizer in
  take (Z.to_nat (Z.of_nat (length all) / (bsz * time_steps) * (bsz * time_steps))) all.
Definition vocab_set : gset str :=
  match vocab0 with
  | None => list_to_set kept_tokens
  | Some v => list_to_set v
  end.
Definition token_code (t : str) : Z :=
  uint8 (default 0
    (dict ((fun it => (snd it, fst it)) <$> enumerate (sorted vocab_set)) !! t)).
Definition token_codes : list Z := token_code <$> kept_tokens.

Hypothesis Hvocab : forall v, vocab0 = Some v -> forall t, t ∈ kept_tokens -> t ∈ v.

Lemma length_kept_tokens :
  Z.of_nat (length kept_tokens) =
  Z.of_nat (length (get_tokens text tokenizer)) / (bsz * time_steps) * (bsz * time_steps).
Proof.
  unfold kept_tokens. cbv zeta. rewrite length_take.
  assert (Hd : 0 < bsz * time_steps) by nia.
  set (d := bsz * time_steps) in *.
  set (all := get_tokens text tokenizer).
  pose proof (Z.div_mod (Z.of_nat (length all)) d ltac:(lia)) as Hdm.
  pose proof (Z.mod_pos_bound (Z.of_nat (length all)) d Hd) as Hmod.
  assert (Hq : 0 <= Z.of_nat (length all) / d) by (apply Z.div_pos; lia).
  set (q := Z.of_nat (length all) / d) in *.
  assert (0 <= q * d <= Z.of_nat (length all)) by nia. lia.
Qed.

Lemma kept_tokens_in_vocab t : t ∈ kept_tokens -> t ∈ vocab_set.
Proof.
  intros Ht. unfold vocab_set. destruct vocab0 as [v|] eqn:Hv.
  - apply elem_of_list_to_set. by eapply Hvocab.
  - by apply elem_of_list_to_set.
Qed.

Lemma kept_token_index t :
  t ∈ kept_tokens ->
  exists i, 0 <= i /\ sorted vocab_set !! Z.to_nat i = Some t /\
    dict ((fun it => (snd it, fst it)) <$> enumerate (sorted vocab_set)) !! t = Some i.
Proof.
  intros Ht%kept_tokens_in_vocab%elem_of_sorted.
  apply list_elem_of_lookup in Ht as [n Hn].
  exists (Z.of_nat n). split; [lia|]. rewrite Nat2Z.id. split; [done|].
  apply token_to_index_lookup; [apply NoDup_sorted|]. split; [lia|by rewrite Nat2Z.id].
Qed.

Lemma init_result :
  let nb := Z.of_nat (length (get_tokens text tokenizer)) / (bsz * time_steps) in
  init bsz fs time_steps path vocab0 tokenizer =
  Some {| seq_length := time_steps; batch_index := 0;
          nbatches := nb; ndata := nb * bsz;
          vocab := sorted vocab_set;
          nclass := Z.of_nat (length (sorted vocab_set));
          token_to_index :=
            dict ((fun it => (snd it, fst it)) <$> enumerate (sorted vocab_set));
          index_to_token := dict (enumerate (sorted vocab_set));
          X := chunks (Z.to_nat nb) (Z.to_nat time_steps)
                 <$> chunks (Z.to_nat bsz) (Z.to_nat (nb * time_steps)) token_codes;
          y := chunks (Z.to_nat nb) (Z.to_nat time_steps)
                 <$> chunks (Z.to_nat bsz) (Z.to_nat (nb * time_steps))
                       (drop 1 token_codes ++ take 1 token_codes) |}.
Proof.
  intros nb. unfold init. rewrite Hread. cbn [mbind option_bind].
  rewrite trim_tokens_take by nia. fold kept_tokens. cbn [mbind option_bind].
  pose proof length_kept_tokens as Hlen. fold nb in Hlen.
  assert (Hnb : 0 <= nb) by (apply Z.div_pos; lia || nia).
  assert (Hvs : get_vocab kept_tokens vocab0 = Some vocab_set).
  { unfold get_vocab, vocab_set. destruct vocab0 as [v|] eqn:Hv; [|done].
    rewrite decide_True; [done|]. intros t Ht%elem_of_list_to_set.
    apply elem_of_list_to_set. by eapply Hvocab. }
  rewrite Hvs. cbn [mbind option_bind].
  rewrite (mapM_default _ (uint8 0)).
  2:{ intros t Ht. destruct (kept_token_index t Ht) as (i & _ & _ & ->). by eexists. }
  cbn [mbind option_bind].
  assert (Hcodes : (fun t => default (uint8 0)
             (uint8 <$> dict ((fun it => (snd it, fst it)) <$> enumerate (sorted vocab_set)) !! t))
           <$> kept_tokens = token_codes).
  { unfold token_codes. apply list_fmap_ext. intros _ t _. unfold token_code.
    by destruct (dict _ !! t). }
  rewrite Hcodes.
  assert (Hlc : Z.of_nat (length token_codes) = bsz * nb * time_steps).
  { unfold token_codes. rewrite length_fmap. lia. }
  rewrite slice_from_1, slice_to_1.
  rewrite Hlen, Z.div_mul by nia.
  rewrite (reshape3_nonneg token_codes) by (lia || done). cbn [mbind option_bind].
  rewrite (reshape3_nonneg (drop 1 token_codes ++ take 1 token_codes)); [done|lia..|].
  rewrite length_app, length_drop, length_take. lia.
Qed.

End Result.

End TextInit.

(** ** [Text.__init__] *)

Section TextTheorems.
Import Text.

(** X14. The vocabulary of a text dataset.  For positive bsz and time_steps, a
    file that is there and a predefined vocabulary (if any) that contains
    the tokens kept, [Text.__init__] returns; the vocabulary is the set of
    [get_vocab] in strictly increasing order, nclass is its length, and
    token_to_index and index_to_token are inverse bijections between the
    vocabulary and the indices 0 .. nclass-1, in the order of the
    vocabulary; every token kept has an index. *)
Theorem text_vocab_dicts (bsz time_steps : Z) (fs : files) (path text : str)
    (vocab0 : option (list str)) (tokenizer : option (str -> list str)) :
  0 < bsz -> 0 < time_steps -> fs !! path = Some text ->
  let tokens := kept_tokens bsz time_steps text tokenizer in
  (forall v, vocab0 = Some v -> forall t, t ∈ tokens -> t ∈ v) ->
  exists d,
    init bsz fs time_steps path vocab0 tokenizer = Some d /\
    get_vocab tokens vocab0 = Some (list_to_set (vocab d)) /\
    StronglySorted str_le (vocab d) /\ NoDup (vocab d) /\
    nclass d = Z.of_nat (length (vocab d)) /\
    (forall t i, token_to_index d !! t = Some i <->
       0 <= i < nclass d /\ vocab d !! Z.to_nat i = Some t) /\
    (forall t i, index_to_token d !! i = Some t <-> token_to_index d !! t = Some i) /\
    (forall t, t ∈ tokens -> is_Some (token_to_index d !! t)).
Proof.
  intros Hbsz Hts Hread tokens Hvocab.
  eexists. split; [by apply init_result|].
  cbn [vocab nclass token_to_index index_to_token].
  set (vs := vocab_set bsz time_steps text vocab0 tokenizer).
  assert (Hiff : forall t i,
    dict ((fun it => (snd it, fst it)) <$> enumerate (sorted vs)) !! t = Some i <->
    0 <= i < Z.of_nat (length (sorted vs)) /\ sorted vs !! Z.to_nat i = Some t).
  { intros t i. rewrite token_to_index_lookup by apply NoDup_sorted. split.
    - intros [Hi Ht]. split; [|done]. apply lookup_lt_Some in Ht. lia.
    - intros [Hi Ht]. split; [lia|done]. }
  split.
  { assert (Hset : (list_to_set (sorted vs) : gset str) = vs).
    { apply set_eq. intros t. rewrite elem_of_list_to_set. apply elem_of_sorted. }
    rewrite Hset. unfold get_vocab, vs, vocab_set. fold tokens.
    destruct vocab0 as [v|] eqn:Hv; [|done].
    rewrite decide_True; [done|]. intros t Ht%elem_of_list_to_set.
    apply elem_of_list_to_set. by eapply Hvocab. }
  split; [apply StronglySorted_sorted|]. split; [apply NoDup_sorted|].
  split; [done|]. split; [exact Hiff|]. split.
  - intros t i. rewrite Hiff, index_to_token_lookup. split.
    + intros [Hi Ht]. split; [|done]. apply lookup_lt_Some in Ht. lia.
    + intros [Hi Ht]. split; [lia|done].
  - intros t Ht.
    destruct (kept_token_index bsz time_steps text vocab0 tokenizer Hvocab t Ht)
      as (i & _ & _ & Hi).
    by exists i.
Qed.

End TextTheorems.

Lemma text1_read : Examples.text1_fs !! Examples.text1_path = Some Examples.text1_text.
Proof. apply lookup_singleton_eq. Defined.

Lemma text1_no_vocab :
  forall v : list (list ascii), None = Some v ->
  forall t, t ∈ kept_tokens 2 3 Examples.text1_text None -> t ∈ v.
Proof. intros v Hv. discriminate Hv. Defined.

Lemma text_vocab_dicts_witness :
  let tokens := kept_tokens 2 3 Examples.text1_text None in
  exists d,
    Text.init 2 Examples.text1_fs 3 Examples.text1_path None None = Some d /\
    Text.get_vocab tokens None = Some (list_to_set (Text.vocab d)) /\
    StronglySorted Text.str_le (Text.vocab d) /\ NoDup (Text.vocab d) /\
    Text.nclass d = Z.of_nat (length (Text.vocab d)) /\
    (forall t i, Text.token_to_index d !! t = Some i <->
       0 <= i < Text.nclass d /\ Text.vocab d !! Z.to_nat i = Some t) /\
    (forall t i, Text.index_to_token d !! i = Some t <-> Text.token_to_index d !! t = Some i) /\
    (forall t, t ∈ tokens -> is_Some (Text.token_to_index d !! t)).
Proof.
  exact (text_vocab_dicts 2 3 Examples.text1_fs Examples.text1_path Examples.text1_text None None
           eq_refl eq_refl text1_read text1_no_vocab).
Defined.

(** The vocabulary of "hello " has the five tokens blank, e, h, l, o in
    this order. *)
Example text1_vocab :
  Text.vocab <$> Text.init 2 Examples.text1_fs 3 Examples.text1_path None None =
  Some ((fun c => [c]) <$> list_ascii_of_string " ehlo").
Proof. vm_compute. reflexivity. Qed.

Section TextArrays.
Import Text.

(** X15. The array X of a text dataset.  [Text.__init__] keeps
    nbatches * bsz * time_steps tokens (ndata = nbatches * bsz, no
    leftovers) and lays their indices out as (bsz, nbatches, time_steps) in
    row-major order: X[b, j, t] belongs to the token at position
    (b * nbatches + j) * time_steps + t, so the batches j and j+1 continue
    the same stretch of text in every row b.  With at most 256 tokens in
    the vocabulary the uint8 conversion loses nothing, and index_to_token
    gives the token back. *)
Theorem text_X_decodes (bsz time_steps : Z) (fs : files) (path text : str)
    (vocab0 : option (list str)) (tokenizer : option (str -> list str)) :
  0 < bsz -> 0 < time_steps -> fs !! path = Some text ->
  let tokens := kept_tokens bsz time_steps text tokenizer in
  (forall v, vocab0 = Some v -> forall t, t ∈ tokens -> t ∈ v) ->
  exists d,
    init bsz fs time_steps path vocab0 tokenizer = Some d /\
    trim_tokens bsz time_steps (get_tokens text tokenizer) = Some tokens /\
    nbatches d = Z.of_nat (length (get_tokens text tokenizer)) / (bsz * time_steps) /\
    ndata d = nbatches d * bsz /\
    Z.of_nat (length tokens) = bsz * nbatches d * time_steps /\
    (nclass d <= 256 ->
     forall b j t, 0 <= b < bsz -> 0 <= j < nbatches d -> 0 <= t < time_steps ->
       exists rows row i tok,
         X d !! Z.to_nat b = Some rows /\ rows !! Z.to_nat j = Some row /\
         row !! Z.to_nat t = Some i /\
         tokens !! Z.to_nat ((b * nbatches d + j) * time_steps + t) = Some tok /\
         index_to_token d !! i = Some tok).
Proof.
  intros Hbsz Hts Hread tokens Hvocab.
  eexists. split; [by apply init_result|].
  cbn [nbatches ndata nclass X index_to_token].
  pose proof (length_kept_tokens bsz time_steps text tokenizer Hbsz Hts) as Hlen.
  fold tokens in Hlen.
  set (nb := Z.of_nat (length (get_tokens text tokenizer)) / (bsz * time_steps)) in *.
  assert (Hnb : 0 <= nb) by (apply Z.div_pos; lia || nia).
  split; [apply trim_tokens_take; nia|]. split; [done|]. split; [done|].
  split; [lia|].
  intros Hclass b j t Hb Hj Ht.
  destruct (lookup_chunks3 (Z.to_nat bsz) (Z.to_nat nb) (Z.to_nat time_steps)
              (token_codes bsz time_steps text vocab0 tokenizer)
              (Z.to_nat b) (Z.to_nat j) (Z.to_nat t)) as (rows & row & Hrows & Hrow & Hi);
    [lia..|].
  rewrite <- Z2Nat.inj_mul in Hrows by lia.
  set (pos := (b * nb + j) * time_steps + t).
  assert (Hbj : 0 <= b * nb + j <= bsz * nb - 1) by nia.
  assert (Hbjt : 0 <= (b * nb + j) * time_steps <= (bsz * nb - 1) * time_steps) by nia.
  assert (Hpos : 0 <= pos < Z.of_nat (length tokens)) by (unfold pos; nia).
  replace ((Z.to_nat b * Z.to_nat nb + Z.to_nat j) * Z.to_nat time_steps + Z.to_nat t)%nat
    with (Z.to_nat pos) in Hi.
  2:{ unfold pos. rewrite Z2Nat.inj_add, Z2Nat.inj_mul, Z2Nat.inj_add, Z2Nat.inj_mul by nia.
      done. }
  destruct (lookup_lt_is_Some_2 tokens (Z.to_nat pos)) as [tok Htok]; [lia|].
  destruct (kept_token_index bsz time_steps text vocab0 tokenizer Hvocab tok)
    as (i & Hi0 & Hvoc & Hdict); [by eapply list_elem_of_lookup_2|].
  exists rows, row, i, tok. split; [done|]. split; [done|]. split.
  - rewrite Hi. unfold token_codes. fold tokens. rewrite list_lookup_fmap, Htok.
    cbn [fmap option_fmap option_map]. f_equal. unfold token_code. rewrite Hdict.
    cbn [default]. unfold uint8. apply Z.mod_small.
    apply lookup_lt_Some in Hvoc. lia.
  - split; [done|]. apply index_to_token_lookup. by split.
Qed.

(** X16. The array y of a text dataset is X moved by one token: read in
    row-major order, y is X rotated to the left by one position, so the
    target of a token is the token that follows it, and the target of the
    last token kept is the first one. *)
Theorem text_y_next (bsz time_steps : Z) (fs : files) (path text : str)
    (vocab0 : option (list str)) (tokenizer : option (str -> list str)) :
  0 < bsz -> 0 < time_steps -> fs !! path = Some text ->
  let tokens := kept_tokens bsz time_steps text tokenizer in
  (forall v, vocab0 = Some v -> forall t, t ∈ tokens -> t ∈ v) ->
  exists d,
    init bsz fs time_steps path vocab0 tokenizer = Some d /\
    length (concat (concat (X d))) = length tokens /\
    concat (concat (y d)) = rotate 1 (concat (concat (X d))).
Proof.
  intros Hbsz Hts Hread tokens Hvocab.
  eexists. split; [by apply init_result|]. cbn [X y].
  pose proof (length_kept_tokens bsz time_steps text tokenizer Hbsz Hts) as Hlen.
  fold tokens in Hlen.
  set (nb := Z.of_nat (length (get_tokens text tokenizer)) / (bsz * time_steps)) in *.
  assert (Hnb : 0 <= nb) by (apply Z.div_pos; lia || nia).
  set (codes := token_codes bsz time_steps text vocab0 tokenizer).
  assert (Hlc : length codes = length tokens)
    by (unfold codes, token_codes; by rewrite length_fmap).
  rewrite Z2Nat.inj_mul by lia.
  rewrite !concat_chunks3.
  - split; [done|]. unfold rotate.
    destruct codes as [|c [|c' codes']]; [done|done|].
    replace (1 `mod` length (c :: c' :: codes'))%nat with 1%nat; [done|].
    symmetry. apply Nat.mod_small. cbn [length]. lia.
  - rewrite length_app, length_drop, length_take. nia.
  - nia.
Qed.

End TextArrays.

Lemma text_X_decodes_witness :
  let tokens := kept_tokens 2 3 Examples.text1_text None in
  exists d,
    Text.init 2 Examples.text1_fs 3 Examples.text1_path None None = Some d /\
    Text.trim_tokens 2 3 (Text.get_tokens Examples.text1_text None) = Some tokens /\
    Text.nbatches d = Z.of_nat (length (Text.get_tokens Examples.text1_text None)) / (2 * 3) /\
    Text.ndata d = Text.nbatches d * 2 /\
    Z.of_nat (length tokens) = 2 * Text.nbatches d * 3 /\
    (Text.nclass d <= 256 ->
     forall b j t, 0 <= b < 2 -> 0 <= j < Text.nbatches d -> 0 <= t < 3 ->
       exists rows row i tok,
         Text.X d !! Z.to_nat b = Some rows /\ rows !! Z.to_nat j = Some row /\
         row !! Z.to_nat t = Some i /\
         tokens !! Z.to_nat ((b * Text.nbatches d + j) * 3 + t) = Some tok /\
         Text.index_to_token d !! i = Some tok).
Proof.
  exact (text_X_decodes 2 3 Examples.text1_fs Examples.text1_path Examples.text1_text
           None None eq_refl eq_refl text1_read text1_no_vocab).
Defined.

Lemma text_y_next_witness :
  let tokens := kept_tokens 2 3 Examples.text1_text None in
  exists d,
    Text.init 2 Examples.text1_fs 3 Examples.text1_path None None = Some d /\
    length (concat (concat (Text.X d))) = length tokens /\
    concat (concat (Text.y d)) = rotate 1 (concat (concat (Text.X d))).
Proof.
  exact (text_y_next 2 3 Examples.text1_fs Examples.text1_path Examples.text1_text
           None None eq_refl eq_refl text1_read text1_no_vocab).
Defined.

(** "hello " with the vocabulary blank, e, h, l, o: X is h e l / l o blank
    and y is e l l / o blank h. *)
Example text1_X_y :
  (fun d => (Text.X d, Text.y d)) <$>
    Text.init 2 Examples.text1_fs 3 Examples.text1_path None None =
  Some ([[[2; 1; 3]]; [[3; 4; 0]]], [[[1; 3; 3]]; [[4; 0; 2]]]).
Proof. vm_compute. reflexivity. Qed.

(** X17. When [Text.__init__] raises: the file is not there (IOError);
    bsz * time_steps is 0 (the modulo raises a ZeroDivisionError); or, for
    positive bsz and time_steps, the predefined vocabulary lacks one of
    the tokens kept (the assertion of [get_vocab]).  A token that only
    occurs among the extra tokens dropped at the end is not looked for. *)
Theorem text_init_errors (bsz time_steps : Z) (fs : Text.files) (path text : Text.str)
    (vocab0 : option (list Text.str)) (tokenizer : option (Text.str -> list Text.str)) :
  (fs !! path = None -> Text.init bsz fs time_steps path vocab0 tokenizer = None) /\
  (bsz * time_steps = 0 -> Text.init bsz fs time_steps path vocab0 tokenizer = None) /\
  (0 < bsz -> 0 < time_steps -> fs !! path = Some text ->
   forall v, vocab0 = Some v ->
   (Text.init bsz fs time_steps path vocab0 tokenizer = None <->
    exists t, t ∈ kept_tokens bsz time_steps text tokenizer /\ t ∉ v)).
Proof.
  split; [|split].
  - intros Hread. unfold Text.init. by rewrite Hread.
  - intros Hz. unfold Text.init. destruct (fs !! path) as [txt|]; [|done].
    cbn [mbind option_bind]. unfold Text.trim_tokens.
    by rewrite (proj2 (Z.eqb_eq _ _) Hz).
  - intros Hbsz Hts Hread v ->. split.
    + intros Hnone.
      destruct (decide (Forall (fun t => t ∈ v) (kept_tokens bsz time_steps text tokenizer)))
        as [Hall|Hall].
      * rewrite (init_result bsz time_steps fs path text (Some v) tokenizer Hbsz Hts Hread)
          in Hnone; [done|].
        intros v' [= <-] t Ht. by eapply (proj1 (Forall_forall _ _) Hall).
      * apply not_Forall_Exists in Hall; [|apply _].
        apply Exists_exists in Hall as (t & Ht & Hnt). by exists t.
    + intros (t & Ht & Hnt). unfold Text.init. rewrite Hread. cbn [mbind option_bind].
      rewrite trim_tokens_take by nia. fold (kept_tokens bsz time_steps text tokenizer).
      cbn [mbind option_bind]. unfold Text.get_vocab.
      rewrite decide_False; [done|]. intros Hsub. apply Hnt.
      apply (elem_of_list_to_set (C:=gset Text.str)), Hsub. by apply elem_of_list_to_set.
Qed.

(** ** Shapes of the convolution results *)

(** X4. The arrays the numpy part of [test_conv_layer] compares with the
    backends have the shapes the test reshapes them from: cpuO that of
    dimO, cpuB[:-1, :] that of dimI and cpuU that of dimF, each with the
    outer dimensions collapsed into one. *)
Theorem conv_reference_shapes {A : Type} {NA : Numeric A}
    (conv : Conv.ConvLayer) (cpuI0 cpuF cpuE : list (list A)) :
  Conv.conv_shapes conv ->
  has_shape cpuI0 (sliceable (Conv.dimI conv) 1) ->
  has_shape cpuF (sliceable (Conv.dimF conv) 0) ->
  has_shape cpuE (sliceable (Conv.dimO conv) 0) ->
  exists cpuO cpuB cpuU,
    Conv.conv_reference conv cpuI0 cpuF cpuE = Some (cpuO, cpuB, cpuU) /\
    has_shape cpuO (sliceable (Conv.dimO conv) 0) /\
    has_shape cpuB (sliceable (Conv.dimI conv) 0) /\
    has_shape cpuU (sliceable (Conv.dimF conv) 0).
Proof.
  intros Hsh HsI HsF HsE.
  pose proof (conv_reference_result conv cpuI0 cpuF cpuE Hsh HsI HsF HsE) as Hres.
  destruct conv as [N C K [[D H] W] [[T R] S_] [[M P] Q] [[pad_d pad_h] pad_w]
                      [[str_d str_h] str_w] dI dF dO].
  unfold Conv.conv_shapes in Hsh.
  cbn [Conv.conv_N Conv.conv_C Conv.conv_K Conv.DHW Conv.TRS Conv.MPQ
       Conv.dimI Conv.dimF Conv.dimO] in *.
  destruct Hsh as (-> & -> & -> & HN & HC & HK & HD & HH & HW & HT & HR & HS & HM & HP & HQ).
  rewrite !sliceable5, ?Z.add_0_r in *.
  destruct Hres as (cpuI & cpuO & cpuB & cpuU & _ & _ & Hrun & _).
  pose proof (has_shape_length _ _ _ HsI) as HlI.
  pose proof (has_shape_length _ _ _ HsF) as HlF.
  pose proof (has_shape_length _ _ _ HsE) as HlE.
  pose proof (has_shape_rows _ _ _ HsI) as HrI.
  pose proof (has_shape_rows _ _ _ HsF) as HrF.
  pose proof (has_shape_rows _ _ _ HsE) as HrE.
  cbn [fst snd] in *.
  set (cpuI' := <[Z.to_nat (C * D * H * W) :=
                  (fun _ => zero) <$> (cpuI0 !!! Z.to_nat (C * D * H * W))]> cpuI0).
  assert (HlI' : Z.of_nat (length cpuI') = C * D * H * W + 1)
    by (unfold cpuI'; by rewrite length_insert).
  destruct (conv_numpy_shapes N C K D H W T R S_ M P Q pad_d pad_h pad_w
              str_d str_h str_w HN HC HK HD HH HW HT HR HS HM HP HQ cpuI' cpuF cpuE
              HlI' HlF HlE cpuI0 eq_refl cpuO cpuB cpuU Hrun) as [HshO HshB].
  destruct (conv_numpy_U N C K D H W T R S_ M P Q pad_d pad_h pad_w
              str_d str_h str_w HC HK HD HH HW HT HR HS cpuI' cpuF cpuE
              HlI' HlF HlE cpuI0 eq_refl HrI HrE cpuO cpuB cpuU Hrun) as [HshU _].
  exists cpuO, (but_last cpuB), cpuU.
  split; [unfold Conv.conv_reference; by rewrite Hrun|]. done.
Qed.

Lemma conv_reference_shapes_witness :
  exists cpuO cpuB cpuU,
    Conv.conv_reference Examples.conv1 Examples.conv1_I Examples.conv1_F Examples.conv1_E =
      Some (cpuO, cpuB, cpuU) /\
    has_shape cpuO (sliceable (Conv.dimO Examples.conv1) 0) /\
    has_shape cpuB (sliceable (Conv.dimI Examples.conv1) 0) /\
    has_shape cpuU (sliceable (Conv.dimF Examples.conv1) 0).
Proof.
  exact (conv_reference_shapes Examples.conv1 Examples.conv1_I Examples.conv1_F
           Examples.conv1_E conv1_shapes conv1_I_shape conv1_F_shape conv1_E_shape).
Defined.

(** ** Forward convolution and filter gradient are adjoint *)

Section Sums.
Context {A : Type} {NA : Numeric A}.
Hypothesis add_assoc : forall x y z : A, add x (add y z) = add (add x y) z.
Hypothesis add_comm : forall x y : A, add x y = add y x.
Hypothesis add_0_l : forall x : A, add zero x = x.
Hypothesis mul_add_l : forall x y z : A, mul x (add y z) = add (mul x y) (mul x z).
Hypothesis mul_comm : forall x y : A, mul x y = mul y x.
Hypothesis mul_0_r : forall x : A, mul x zero = zero.

Lemma sumA_app (l1 l2 : list A) : sumA (l1 ++ l2) = add (sumA l1) (sumA l2).
Proof.
  induction l1 as [|x l1 IH]; cbn; [by rewrite add_0_l|].
  fold (sumA (l1 ++ l2)). fold (sumA l1). by rewrite IH, add_assoc.
Qed.

Lemma sumA_fmap_ext {X} (f g : X -> A) (l : list X) :
  (forall x, x ∈ l -> f x = g x) -> sumA (f <$> l) = sumA (g <$> l).
Proof.
  intros Hfg. f_equal. apply list_fmap_ext. intros i x Hx. apply Hfg.
  by eapply list_elem_of_lookup_2.
Qed.

Lemma sumA_fmap_zero {X} (l : list X) : sumA ((fun _ => zero (A:=A)) <$> l) = zero.
Proof.
  induction l as [|x l IH]; [done|]. rewrite fmap_cons. cbn.
  fold (sumA ((fun _ => zero (A:=A)) <$> l)). by rewrite IH, add_0_l.
Qed.

Lemma sumA_fmap_add {X} (f g : X -> A) (l : list X) :
  sumA ((fun x => add (f x) (g x)) <$> l) = add (sumA (f <$> l)) (sumA (g <$> l)).
Proof.
  induction l as [|x l IH]; [by rewrite !fmap_nil; cbn; rewrite add_0_l|].
  rewrite !fmap_cons. cbn.
  fold (sumA ((fun x => add (f x) (g x)) <$> l)).
  fold (sumA (f <$> l)). fold (sumA (g <$> l)). rewrite IH.
  rewrite <- !add_assoc. f_equal.
  rewrite !add_assoc. f_equal. apply add_comm.
Qed.

Lemma sumA_exchange {X Y} (f : X -> Y -> A) (l1 : list X) (l2 : list Y) :
  sumA ((fun x => sumA (f x <$> l2)) <$> l1) =
  sumA ((fun y => sumA ((fun x => f x y) <$> l1)) <$> l2).
Proof.
  induction l1 as [|x l1 IH].
  - rewrite fmap_nil. cbn. symmetry. apply sumA_fmap_zero.
  - rewrite fmap_cons. cbn. fold (sumA ((fun x => sumA (f x <$> l2)) <$> l1)).
    rewrite IH, <- sumA_fmap_add. done.
Qed.

Lemma sumA_mul_l {X} (a : A) (f : X -> A) (l : list X) :
  mul a (sumA (f <$> l)) = sumA ((fun x => mul a (f x)) <$> l).
Proof.
  induction l as [|x l IH]; [apply mul_0_r|].
  rewrite !fmap_cons. cbn. fold (sumA (f <$> l)).
  fold (sumA ((fun x => mul a (f x)) <$> l)). by rewrite mul_add_l, IH.
Qed.

Lemma sumA_mul_r {X} (a : A) (f : X -> A) (l : list X) :
  mul (sumA (f <$> l)) a = sumA ((fun x => mul (f x) a) <$> l).
Proof.
  rewrite mul_comm, sumA_mul_l. apply sumA_fmap_ext. intros x _. apply mul_comm.
Qed.

Lemma fold_left_add_sumA3 (f : Z -> Z -> Z -> A) (ws : list (Z * Z * Z)) (a : A) :
  fold_left (fun acc '(m, p, q) => add acc (f m p q)) ws a =
  add a (sumA ((fun '(m, p, q) => f m p q) <$> ws)).
Proof.
  revert a. induction ws as [|[[m p] q] ws IH]; intros a.
  - cbn. by rewrite (add_comm a), add_0_l.
  - cbn [fold_left]. rewrite IH, fmap_cons. cbn.
    fold (sumA ((fun '(m, p, q) => f m p q) <$> ws)). by rewrite add_assoc.
Qed.

Lemma sumA_bind {X Y} (g : X -> list Y) (f : Y -> A) (l : list X) :
  sumA (f <$> (l ≫= g)) = sumA ((fun x => sumA (f <$> g x)) <$> l).
Proof.
  induction l as [|x l IH]; [done|].
  rewrite bind_cons, fmap_app, sumA_app, IH, fmap_cons. done.
Qed.

Lemma sumA_taps4_windows (f : Z * Z * Z * Z -> A) (K M P Q : Z) :
  sumA (f <$> taps4 K M P Q) =
  sumA ((fun k => sumA ((fun '(m, p, q) => f (k, m, p, q)) <$> windows3 M P Q))
          <$> range K).
Proof.
  unfold taps4. rewrite sumA_bind. apply sumA_fmap_ext. intros k _. f_equal.
  unfold windows3. rewrite !fmap_bind.
  apply list_bind_ext; [|done]. intros m. rewrite !fmap_bind.
  apply list_bind_ext; [|done]. intros p. rewrite !fmap_bind. done.
Qed.

End Sums.

Section ConvAdjoint.
Context {A : Type} {NA : Numeric A}.

(** The sum over (k,m,p,q,n) of O[k,m,p,q,n] * E[k,m,p,q,n]. *)
Definition dot_OE (conv : Conv.ConvLayer) (cpuO cpuE : list (list A)) : A :=
  let '(M, P, Q) := Conv.MPQ conv in
  sumA ((fun '(k, m, p, q) =>
           sumA ((fun n => mul (E5 cpuO (M, P, Q) k m p q n) (E5 cpuE (M, P, Q) k m p q n))
                   <$> range (Conv.conv_N conv)))
          <$> taps4 (Conv.conv_K conv) M P Q).

(** The sum over (c,t,r,s,k) of F[c,t,r,s,k] * U[c,t,r,s,k]. *)
Definition dot_FU (conv : Conv.ConvLayer) (cpuF cpuU : list (list A)) : A :=
  let '(T, R, S_) := Conv.TRS conv in
  sumA ((fun '(c, t, r, s) =>
           sumA ((fun k => mul (F5 cpuF T R S_ c t r s k) (F5 cpuU T R S_ c t r s k))
                   <$> range (Conv.conv_K conv)))
          <$> taps4 (Conv.conv_C conv) T R S_).

(** X18. In the numpy reference of [test_conv_layer], over elements that
    form a commutative semiring, the forward result and the filter gradient
    are adjoint: the sum of O * E over the output equals the sum of F * U
    over the filter, for the cpuO and cpuU the reference computes from the
    same cpuI, cpuF and cpuE. *)
Theorem conv_update_adjoint (conv : Conv.ConvLayer) (cpuI0 cpuF cpuE : list (list A)) :
  (forall x y z : A, add x (add y z) = add (add x y) z) ->
  (forall x y : A, add x y = add y x) ->
  (forall x : A, add zero x = x) ->
  (forall x y z : A, mul x (mul y z) = mul (mul x y) z) ->
  (forall x y : A, mul x y = mul y x) ->
  (forall x y z : A, mul x (add y z) = add (mul x y) (mul x z)) ->
  (forall x : A, mul x zero = zero) ->
  Conv.conv_shapes conv ->
  has_shape cpuI0 (sliceable (Conv.dimI conv) 1) ->
  has_shape cpuF (sliceable (Conv.dimF conv) 0) ->
  has_shape cpuE (sliceable (Conv.dimO conv) 0) ->
  exists cpuO cpuB cpuU,
    Conv.conv_reference conv cpuI0 cpuF cpuE = Some (cpuO, cpuB, cpuU) /\
    dot_OE conv cpuO cpuE = dot_FU conv cpuF cpuU.
Proof.
  intros add_assoc add_comm add_0_l mul_assoc mul_comm mul_add_l mul_0_r Hsh HsI HsF HsE.
  pose proof (conv_reference_result conv cpuI0 cpuF cpuE Hsh HsI HsF HsE) as Hres.
  destruct conv as [N C K [[D H] W] [[T R] S_] [[M P] Q] [[pad_d pad_h] pad_w]
                      [[str_d str_h] str_w] dI dF dO].
  unfold Conv.conv_shapes in Hsh.
  cbn [Conv.conv_N Conv.conv_C Conv.conv_K Conv.DHW Conv.TRS Conv.MPQ
       Conv.dimI Conv.dimF Conv.dimO] in *.
  destruct Hsh as (-> & -> & -> & HN & HC & HK & HD & HH & HW & HT & HR & HS & HM & HP & HQ).
  rewrite !sliceable5, ?Z.add_0_r in *.
  destruct Hres as (cpuI & cpuO & cpuB & cpuU & _ & _ & Hrun & _ & _ & HOv & _).
  pose proof (has_shape_length _ _ _ HsI) as HlI.
  pose proof (has_shape_length _ _ _ HsF) as HlF.
  pose proof (has_shape_length _ _ _ HsE) as HlE.
  pose proof (has_shape_rows _ _ _ HsI) as HrI.
  pose proof (has_shape_rows _ _ _ HsE) as HrE.
  cbn [fst snd] in *.
  set (cpuI' := <[Z.to_nat (C * D * H * W) :=
                  (fun _ => zero) <$> (cpuI0 !!! Z.to_nat (C * D * H * W))]> cpuI0).
  assert (HlI' : Z.of_nat (length cpuI') = C * D * H * W + 1)
    by (unfold cpuI'; by rewrite length_insert).
  destruct (conv_numpy_U N C K D H W T R S_ M P Q pad_d pad_h pad_w
              str_d str_h str_w HC HK HD HH HW HT HR HS cpuI' cpuF cpuE
              HlI' HlF HlE cpuI0 eq_refl HrI HrE cpuO cpuB cpuU Hrun) as [_ HU].
  exists cpuO, (but_last cpuB), cpuU.
  split; [unfold Conv.conv_reference; by rewrite Hrun|].
  unfold dot_OE, dot_FU. cbn [Conv.MPQ Conv.TRS Conv.conv_N Conv.conv_K Conv.conv_C].
  (* one term of the fourfold sum *)
  set (G := fun (tap : Z * Z * Z * Z) (kw : Z * Z * Z * Z) (n : Z) =>
    let '(c, t, r, s) := tap in
    let '(k, m, p, q) := kw in
    mul (F5 cpuF T R S_ c t r s k)
      (mul (tap_value cpuI0 zero C D H W c (m * str_d - pad_d + t)
              (p * str_h - pad_h + r) (q * str_w - pad_w + s) n)
           (E5 cpuE (M, P, Q) k m p q n))).
  transitivity (sumA ((fun kw => sumA ((fun n => sumA ((fun tap => G tap kw n)
                  <$> taps4 C T R S_)) <$> range N)) <$> taps4 K M P Q)).
  { apply sumA_fmap_ext. intros [[[k m] p] q] (Hk & Hm & Hp & Hq)%elem_of_taps4.
    apply sumA_fmap_ext. intros n Hn%elem_of_range.
    rewrite (HOv k m p q n) by done. unfold conv_fprop_sum.
    cbn [Conv.TRS Conv.DHW Conv.padding Conv.strides Conv.conv_C].
    rewrite (sumA_mul_r mul_add_l mul_comm mul_0_r).
    apply sumA_fmap_ext. intros [[[c t] r] s] _. unfold G, tap_value. cbv zeta.
    case_match.
    - by rewrite mul_assoc.
    - by rewrite (mul_comm zero), !mul_0_r. }
  rewrite (sumA_fmap_ext (fun kw => sumA ((fun n => sumA ((fun tap => G tap kw n)
                  <$> taps4 C T R S_)) <$> range N))
            (fun kw => sumA ((fun tap => sumA ((fun n => G tap kw n) <$> range N))
                  <$> taps4 C T R S_)));
    [|intros kw _; apply (sumA_exchange add_assoc add_comm add_0_l)].
  rewrite (sumA_exchange add_assoc add_comm add_0_l).
  apply sumA_fmap_ext. intros [[[c t] r] s] (Hc & Ht & Hr & Hs)%elem_of_taps4.
  rewrite (sumA_taps4_windows add_assoc add_0_l).
  apply sumA_fmap_ext. intros k Hk%elem_of_range.
  rewrite (HU c t r s k) by done.
  rewrite (fold_left_add_sumA3 add_assoc add_comm add_0_l), add_0_l.
  rewrite (sumA_mul_l mul_add_l mul_0_r).
  apply sumA_fmap_ext. intros [[m p] q] _.
  unfold conv_upd_term. rewrite (sumA_mul_l mul_add_l mul_0_r). done.
Qed.

End ConvAdjoint.

Lemma Z_add_assoc : forall x y z : Z, add x (add y z) = add (add x y) z.
Proof. intros x y z. cbn. lia. Defined.

Lemma Z_add_comm : forall x y : Z, add x y = add y x.
Proof. intros x y. cbn. lia. Defined.

Lemma Z_add_zero_l : forall x : Z, add zero x = x.
Proof. intros x. cbn. lia. Defined.

Lemma Z_mul_assoc : forall x y z : Z, mul x (mul y z) = mul (mul x y) z.
Proof. intros x y z. cbn. lia. Defined.

Lemma Z_mul_comm : forall x y : Z, mul x y = mul y x.
Proof. intros x y. cbn. lia. Defined.

Lemma Z_mul_add_l : forall x y z : Z, mul x (add y z) = add (mul x y) (mul x z).
Proof. intros x y z. cbn. lia. Defined.

Lemma conv_update_adjoint_witness :
  exists cpuO cpuB cpuU,
    Conv.conv_reference Examples.conv1 Examples.conv1_I Examples.conv1_F Examples.conv1_E =
      Some (cpuO, cpuB, cpuU) /\
    dot_OE Examples.conv1 cpuO Examples.conv1_E = dot_FU Examples.conv1 Examples.conv1_F cpuU.
Proof.
  exact (conv_update_adjoint Examples.conv1 Examples.conv1_I Examples.conv1_F
           Examples.conv1_E Z_add_assoc Z_add_comm Z_add_zero_l Z_mul_assoc Z_mul_comm
           Z_mul_add_l Z_mul_zero conv1_shapes conv1_I_shape conv1_F_shape conv1_E_shape).
Defined.

(** On the small layer both sums are 98. *)
Example conv1_adjoint :
  dot_OE (A:=Z) Examples.conv1 [[3; 6]; [11; 16]; [21; 26]; [10; 12]] Examples.conv1_E = 98 /\
  dot_FU (A:=Z) Examples.conv1 Examples.conv1_F [[25]; [16]] = 98.
Proof. split; vm_compute; reflexivity. Qed.

(** ** Forward and backward convolution are adjoint *)

Section Reindex.
Context {A : Type} {NA : Numeric A}.
Hypothesis add_assoc : forall x y z : A, add x (add y z) = add (add x y) z.
Hypothesis add_comm : forall x y : A, add x y = add y x.
Hypothesis add_0_l : forall x : A, add zero x = x.

Lemma add_0_r (x : A) : add x zero = x.
Proof. by rewrite add_comm, add_0_l. Qed.

(** A sum over range n restricted to lo <= t < hi is the sum over that
    part of the range. *)
Lemma sumA_range_window (f : Z -> A) (lo hi n : Z) :
  0 <= n ->
  sumA ((fun t => if (lo <=? t) && (t <? hi) then f t else zero) <$> range n) =
  sumA (f <$> seqZ (Z.max 0 lo) (Z.min n hi - Z.max 0 lo)).
Proof.
  revert n. apply natlike_ind.
  - rewrite range_nil by lia. rewrite seqZ_nil by lia. done.
  - intros n Hn IH. unfold Z.succ. rewrite range_S by done.
    rewrite fmap_app, (sumA_app add_assoc add_0_l), IH. cbn [fmap list_fmap sumA fold_right].
    destruct ((lo <=? n) && (n <? hi)) eqn:Hc.
    + replace (Z.min (n + 1) hi - Z.max 0 lo) with ((Z.min n hi - Z.max 0 lo) + 1) by lia.
      rewrite seqZ_app by lia. rewrite fmap_app, (sumA_app add_assoc add_0_l).
      replace (Z.max 0 lo + (Z.min n hi - Z.max 0 lo)) with n by lia.
      rewrite (seqZ_cons n 1) by lia. rewrite (seqZ_nil _ (Z.pred 1)) by lia. done.
    + rewrite add_0_r, add_0_r.
      destruct (decide (n < lo)).
      * rewrite !seqZ_nil by lia. done.
      * by replace (Z.min (n + 1) hi) with (Z.min n hi) by lia.
Qed.

(** Moving a window: the positions o+t of the taps t of a window of
    extent T that lie in an input of extent D are the positions z of the
    input that lie under a tap z-o of the window. *)
Lemma sumA_reindex (g : Z -> Z -> A) (o T D : Z) :
  0 <= T -> 0 <= D ->
  sumA ((fun t => if (0 <=? o + t) && (o + t <? D) then g t (o + t) else zero) <$> range T) =
  sumA ((fun z => if (0 <=? z - o) && (z - o <? T) then g (z - o) z else zero) <$> range D).
Proof.
  intros HT HD.
  rewrite (sumA_fmap_ext _ (fun t => if (- o <=? t) && (t <? D - o) then g t (o + t) else zero));
    [|intros t _; by replace ((0 <=? o + t) && (o + t <? D))
                       with ((- o <=? t) && (t <? D - o)) by lia].
  rewrite (sumA_fmap_ext (fun z => if (0 <=? z - o) && (z - o <? T) then g (z - o) z else zero)
             (fun z => if (o <=? z) && (z <? T + o) then g (z - o) z else zero));
    [|intros z _; by replace ((0 <=? z - o) && (z - o <? T))
                       with ((o <=? z) && (z <? T + o)) by lia].
  rewrite (sumA_range_window (fun t => g t (o + t))) by done.
  rewrite (sumA_range_window (fun z => g (z - o) z)) by done.
  replace (Z.max 0 o) with (o + Z.max 0 (- o)) by lia.
  replace (Z.min D (T + o) - (o + Z.max 0 (- o)))
    with (Z.min T (D - o) - Z.max 0 (- o)) by lia.
  rewrite <- (fmap_add_seqZ o), <- list_fmap_compose.
  f_equal. apply list_fmap_ext. intros _ t _. cbn. f_equal. lia.
Qed.

Lemma sumA_if_and {X} (a : bool) (b : X -> bool) (f : X -> A) (l : list X) :
  sumA ((fun x => if a && b x then f x else zero) <$> l) =
  if a then sumA ((fun x => if b x then f x else zero) <$> l) else zero.
Proof. destruct a; [done|]. apply sumA_fmap_zero. done. Qed.

Lemma sumA_if_and2 {X Y} (a : bool) (b : X -> bool) (c : Y -> bool) (f : X -> Y -> A)
    (l1 : list X) (l2 : list Y) :
  sumA ((fun x => sumA ((fun y => if a && (b x && c y) then f x y else zero) <$> l2)) <$> l1) =
  if a then sumA ((fun x => if b x
                            then sumA ((fun y => if c y then f x y else zero) <$> l2)
                            else zero) <$> l1)
  else zero.
Proof.
  destruct a; cbn [andb].
  - apply sumA_fmap_ext. intros x _. apply sumA_if_and.
  - transitivity (sumA ((fun _ => zero (A:=A)) <$> l1));
      [|apply (sumA_fmap_zero add_0_l)].
    apply sumA_fmap_ext. intros x _. apply (sumA_fmap_zero add_0_l).
Qed.

(** The same in three dimensions. *)
Lemma sumA_reindex3 (G : Z -> Z -> Z -> Z -> Z -> Z -> A) (mt pr qs T R S_ D H W : Z) :
  0 <= T -> 0 <= R -> 0 <= S_ -> 0 <= D -> 0 <= H -> 0 <= W ->
  sumA ((fun t => sumA ((fun r => sumA ((fun s =>
      if ((0 <=? mt + t) && (mt + t <? D)) &&
         (((0 <=? pr + r) && (pr + r <? H)) && ((0 <=? qs + s) && (qs + s <? W)))
      then G t r s (mt + t) (pr + r) (qs + s) else zero)
    <$> range S_)) <$> range R)) <$> range T) =
  sumA ((fun z => sumA ((fun y => sumA ((fun x =>
      if ((0 <=? z - mt) && (z - mt <? T)) &&
         (((0 <=? y - pr) && (y - pr <? R)) && ((0 <=? x - qs) && (x - qs <? S_)))
      then G (z - mt) (y - pr) (x - qs) z y x else zero)
    <$> range W)) <$> range H)) <$> range D).
Proof.
  intros HT HR HS HD HH HW.
  set (g2 := fun t z r y => sumA ((fun s =>
    if (0 <=? qs + s) && (qs + s <? W) then G t r s z y (qs + s) else zero) <$> range S_)).
  set (g1 := fun t z => sumA ((fun r =>
    if (0 <=? pr + r) && (pr + r <? H) then g2 t z r (pr + r) else zero) <$> range R)).
  transitivity (sumA ((fun t => if (0 <=? mt + t) && (mt + t <? D) then g1 t (mt + t) else zero)
                        <$> range T)).
  { apply sumA_fmap_ext. intros t _. apply sumA_if_and2. }
  rewrite (sumA_reindex g1) by done.
  apply sumA_fmap_ext. intros z _.
  rewrite sumA_if_and2. destruct ((0 <=? z - mt) && (z - mt <? T)); [|done].
  unfold g1. rewrite (sumA_reindex (g2 (z - mt) z)) by done.
  apply sumA_fmap_ext. intros y _.
  destruct ((0 <=? y - pr) && (y - pr <? R)); [|done].
  unfold g2. apply (sumA_reindex (fun s x => G (z - mt) (y - pr) s z y x)); done.
Qed.

Lemma sumA_windows3 (F : Z * Z * Z -> A) (M P Q : Z) :
  sumA (F <$> windows3 M P Q) =
  sumA ((fun m => sumA ((fun p => sumA ((fun q => F (m, p, q)) <$> range Q)) <$> range P))
          <$> range M).
Proof.
  unfold windows3. rewrite (sumA_bind add_assoc add_0_l).
  apply sumA_fmap_ext. intros m _. rewrite (sumA_bind add_assoc add_0_l).
  apply sumA_fmap_ext. intros p _. rewrite (sumA_bind add_assoc add_0_l).
  apply sumA_fmap_ext. intros q _. cbn. apply add_0_r.
Qed.

Lemma sumA_last_out {X1 X2 X3 X4} (f : X1 -> X2 -> X3 -> X4 -> A)
    (l1 : list X1) (l2 : list X2) (l3 : list X3) (l4 : list X4) :
  sumA ((fun a => sumA ((fun b => sumA ((fun c => sumA ((fun d => f a b c d)
    <$> l4)) <$> l3)) <$> l2)) <$> l1) =
  sumA ((fun d => sumA ((fun a => sumA ((fun b => sumA ((fun c => f a b c d)
    <$> l3)) <$> l2)) <$> l1)) <$> l4).
Proof.
  transitivity (sumA ((fun a => sumA ((fun d => sumA ((fun b => sumA ((fun c => f a b c d)
    <$> l3)) <$> l2)) <$> l4)) <$> l1)).
  - apply sumA_fmap_ext. intros a _.
    transitivity (sumA ((fun b => sumA ((fun d => sumA ((fun c => f a b c d)
      <$> l3)) <$> l4)) <$> l2)).
    + apply sumA_fmap_ext. intros b _.
      apply (sumA_exchange add_assoc add_comm add_0_l (fun c d => f a b c d)).
    + apply (sumA_exchange add_assoc add_comm add_0_l
               (fun b d => sumA ((fun c => f a b c d) <$> l3))).
  - apply (sumA_exchange add_assoc add_comm add_0_l
             (fun a d => sumA ((fun b => sumA ((fun c => f a b c d) <$> l3)) <$> l2))).
Qed.

Lemma sumA_first_in {X1 X2 X3 X4} (f : X1 -> X2 -> X3 -> X4 -> A)
    (l1 : list X1) (l2 : list X2) (l3 : list X3) (l4 : list X4) :
  sumA ((fun a => sumA ((fun b => sumA ((fun c => sumA ((fun d => f a b c d)
    <$> l4)) <$> l3)) <$> l2)) <$> l1) =
  sumA ((fun b => sumA ((fun c => sumA ((fun d => sumA ((fun a => f a b c d)
    <$> l1)) <$> l4)) <$> l3)) <$> l2).
Proof. symmetry. apply (sumA_last_out (fun b c d a => f a b c d)). Qed.

Lemma sumA_reverse3 {X1 X2 X3} (f : X1 -> X2 -> X3 -> A)
    (l1 : list X1) (l2 : list X2) (l3 : list X3) :
  sumA ((fun a => sumA ((fun b => sumA ((fun c => f a b c) <$> l3)) <$> l2)) <$> l1) =
  sumA ((fun c => sumA ((fun b => sumA ((fun a => f a b c) <$> l1)) <$> l2)) <$> l3).
Proof.
  rewrite (sumA_exchange add_assoc add_comm add_0_l
             (fun a b => sumA ((fun c => f a b c) <$> l3))).
  transitivity (sumA ((fun b => sumA ((fun c => sumA ((fun a => f a b c) <$> l1)) <$> l3))
                        <$> l2)).
  - apply sumA_fmap_ext. intros b _.
    apply (sumA_exchange add_assoc add_comm add_0_l (fun a c => f a b c)).
  - apply (sumA_exchange add_assoc add_comm add_0_l
             (fun b c => sumA ((fun a => f a b c) <$> l1))).
Qed.

Lemma fold_left_if_sumA3 (cnd : Z -> Z -> Z -> bool) (f : Z -> Z -> Z -> A)
    (ws : list (Z * Z * Z)) (a : A) :
  fold_left (fun acc '(m, p, q) => if cnd m p q then add acc (f m p q) else acc) ws a =
  add a (sumA ((fun w => if cnd w.1.1 w.1.2 w.2 then f w.1.1 w.1.2 w.2 else zero) <$> ws)).
Proof.
  revert a. induction ws as [|[[m p] q] ws IH]; intros a.
  - cbn. by rewrite add_0_r.
  - cbn [fold_left]. rewrite IH, fmap_cons. cbn [fst snd sumA fold_right].
    fold (sumA ((fun w => if cnd w.1.1 w.1.2 w.2 then f w.1.1 w.1.2 w.2 else zero) <$> ws)).
    destruct (cnd m p q).
    + by rewrite add_assoc.
    + by rewrite add_0_l.
Qed.

End Reindex.

Section ConvAdjointB.
Context {A : Type} {NA : Numeric A}.

(** The sum over (c,z,y,x,n) of I[c,z,y,x,n] * B[c,z,y,x,n]. *)
Definition dot_IB (conv : Conv.ConvLayer) (cpuI cpuB : list (list A)) : A :=
  let '(D, H, W) := Conv.DHW conv in
  sumA ((fun '(c, z, y, x) =>
           sumA ((fun n => mul (I5 cpuI D H W c z y x n) (I5 cpuB D H W c z y x n))
                   <$> range (Conv.conv_N conv)))
          <$> taps4 (Conv.conv_C conv) D H W).

(** X19. In the numpy reference of [test_conv_layer], over elements that
    form a commutative semiring, the backward result is the adjoint of the
    forward computation: the sum of O * E over the output equals the sum of
    I * B over the input, for the cpuO and cpuB[:-1] the reference computes
    from the same cpuI, cpuF and cpuE. *)
Theorem conv_bprop_adjoint (conv : Conv.ConvLayer) (cpuI0 cpuF cpuE : list (list A)) :
  (forall x y z : A, add x (add y z) = add (add x y) z) ->
  (forall x y : A, add x y = add y x) ->
  (forall x : A, add zero x = x) ->
  (forall x y z : A, mul x (mul y z) = mul (mul x y) z) ->
  (forall x y : A, mul x y = mul y x) ->
  (forall x y z : A, mul x (add y z) = add (mul x y) (mul x z)) ->
  (forall x : A, mul x zero = zero) ->
  Conv.conv_shapes conv ->
  has_shape cpuI0 (sliceable (Conv.dimI conv) 1) ->
  has_shape cpuF (sliceable (Conv.dimF conv) 0) ->
  has_shape cpuE (sliceable (Conv.dimO conv) 0) ->
  exists cpuO cpuB cpuU,
    Conv.conv_reference conv cpuI0 cpuF cpuE = Some (cpuO, cpuB, cpuU) /\
    dot_OE conv cpuO cpuE = dot_IB conv cpuI0 cpuB.
Proof.
  intros add_assoc add_comm add_0_l mul_assoc mul_comm mul_add_l mul_0_r Hsh HsI HsF HsE.
  pose proof (conv_reference_result conv cpuI0 cpuF cpuE Hsh HsI HsF HsE) as Hres.
  destruct conv as [N C K [[D H] W] [[T R] S_] [[M P] Q] [[pad_d pad_h] pad_w]
                      [[str_d str_h] str_w] dI dF dO].
  unfold Conv.conv_shapes in Hsh.
  cbn [Conv.conv_N Conv.conv_C Conv.conv_K Conv.DHW Conv.TRS Conv.MPQ
       Conv.dimI Conv.dimF Conv.dimO] in *.
  destruct Hsh as (-> & -> & -> & HN & HC & HK & HD & HH & HW & HT & HR & HS & HM & HP & HQ).
  destruct Hres as (cpuI & cpuO & cpuB & cpuU & _ & _ & Hrun & HlB & Hnn & HOv & HBv).
  exists cpuO, (but_last cpuB), cpuU.
  split; [unfold Conv.conv_reference; by rewrite Hrun|].
  unfold dot_OE, dot_IB.
  cbn [Conv.MPQ Conv.TRS Conv.DHW Conv.conv_N Conv.conv_K Conv.conv_C].
  set (h := fun (c k : Z) (w : Z * Z * Z) (n t r s z y x : Z) =>
    mul (mul (F5 cpuF T R S_ c t r s k) (I5 cpuI0 D H W c z y x n))
        (E5 cpuE (M, P, Q) k w.1.1 w.1.2 w.2 n)).
  set (SPL := fun (c k : Z) (w : Z * Z * Z) (n : Z) =>
    sumA ((fun t => sumA ((fun r => sumA ((fun s =>
      if ((0 <=? w.1.1 * str_d - pad_d + t) && (w.1.1 * str_d - pad_d + t <? D)) &&
         (((0 <=? w.1.2 * str_h - pad_h + r) && (w.1.2 * str_h - pad_h + r <? H)) &&
          ((0 <=? w.2 * str_w - pad_w + s) && (w.2 * str_w - pad_w + s <? W)))
      then h c k w n t r s (w.1.1 * str_d - pad_d + t) (w.1.2 * str_h - pad_h + r)
             (w.2 * str_w - pad_w + s)
      else zero) <$> range S_)) <$> range R)) <$> range T)).
  set (SPR := fun (c k : Z) (w : Z * Z * Z) (n : Z) =>
    sumA ((fun z => sumA ((fun y => sumA ((fun x =>
      if ((0 <=? z - (w.1.1 * str_d - pad_d)) && (z - (w.1.1 * str_d - pad_d) <? T)) &&
         (((0 <=? y - (w.1.2 * str_h - pad_h)) && (y - (w.1.2 * str_h - pad_h) <? R)) &&
          ((0 <=? x - (w.2 * str_w - pad_w)) && (x - (w.2 * str_w - pad_w) <? S_)))
      then h c k w n (z - (w.1.1 * str_d - pad_d)) (y - (w.1.2 * str_h - pad_h))
             (x - (w.2 * str_w - pad_w)) z y x
      else zero) <$> range W)) <$> range H)) <$> range D)).
  assert (HSP : forall c k w n, SPL c k w n = SPR c k w n).
  { intros c k w n. unfold SPL, SPR.
    apply (sumA_reindex3 add_assoc add_comm add_0_l
             (fun t r s z y x => h c k w n t r s z y x)); done. }
  transitivity (sumA ((fun k => sumA ((fun w => sumA ((fun n => sumA ((fun c =>
                  SPL c k w n) <$> range C)) <$> range N)) <$> windows3 M P Q)) <$> range K)).
  { rewrite (sumA_taps4_windows add_assoc add_0_l).
    apply sumA_fmap_ext. intros k Hk%elem_of_range.
    apply sumA_fmap_ext. intros [[m p] q] (Hm & Hp & Hq)%elem_of_windows3.
    apply sumA_fmap_ext. intros n Hn%elem_of_range.
    rewrite (HOv k m p q n) by done. unfold conv_fprop_sum.
    cbn [Conv.TRS Conv.DHW Conv.padding Conv.strides Conv.conv_C].
    rewrite (sumA_mul_r mul_add_l mul_comm mul_0_r).
    rewrite (sumA_taps4_windows add_assoc add_0_l).
    apply sumA_fmap_ext. intros c Hc%elem_of_range.
    rewrite (sumA_windows3 add_assoc add_comm add_0_l). unfold SPL.
    apply sumA_fmap_ext. intros t _. apply sumA_fmap_ext. intros r _.
    apply sumA_fmap_ext. intros s _. cbn [fst snd]. cbv zeta. unfold in_bounds, h.
    cbn [fst snd].
    replace (0 <=? c) with true by lia. replace (c <? C) with true by lia.
    cbn [andb].
    destruct (0 <=? m * str_d - pad_d + t), (m * str_d - pad_d + t <? D),
      (0 <=? p * str_h - pad_h + r), (p * str_h - pad_h + r <? H),
      (0 <=? q * str_w - pad_w + s), (q * str_w - pad_w + s <? W); cbn [andb];
      first [done | by rewrite (mul_comm zero), mul_0_r]. }
  rewrite (sumA_last_out add_assoc add_comm add_0_l (fun k w n c => SPL c k w n)).
  symmetry.
  set (Tm := fun (c : Z) (sp : Z * Z * Z) (n : Z) (w : Z * Z * Z) (k : Z) =>
    if ((0 <=? sp.1.1 - (w.1.1 * str_d - pad_d)) && (sp.1.1 - (w.1.1 * str_d - pad_d) <? T)) &&
       (((0 <=? sp.1.2 - (w.1.2 * str_h - pad_h)) && (sp.1.2 - (w.1.2 * str_h - pad_h) <? R)) &&
        ((0 <=? sp.2 - (w.2 * str_w - pad_w)) && (sp.2 - (w.2 * str_w - pad_w) <? S_)))
    then h c k w n (sp.1.1 - (w.1.1 * str_d - pad_d)) (sp.1.2 - (w.1.2 * str_h - pad_h))
           (sp.2 - (w.2 * str_w - pad_w)) sp.1.1 sp.1.2 sp.2
    else zero).
  transitivity (sumA ((fun c => sumA ((fun sp => sumA ((fun n => sumA ((fun w => sumA ((fun k =>
                  Tm c sp n w k) <$> range K)) <$> windows3 M P Q)) <$> range N))
                  <$> windows3 D H W)) <$> range C)).
  { rewrite (sumA_taps4_windows add_assoc add_0_l).
    apply sumA_fmap_ext. intros c Hc%elem_of_range.
    apply sumA_fmap_ext. intros [[z y] x] (Hz & Hy & Hx)%elem_of_windows3.
    apply sumA_fmap_ext. intros n Hn%elem_of_range.
    assert (Hb : in_bounds C D H W c z y x = true) by (unfold in_bounds; lia).
    pose proof (flat_index_bounds _ _ _ _ _ _ _ _ Hb) as Hfb. unfold sentinel in Hfb.
    unfold I5 at 2. rewrite at2_but_last by lia.
    fold (I5 cpuB D H W c z y x n). rewrite (HBv c z y x n Hb Hn).
    unfold conv_bprop_sum.
    cbn [Conv.TRS Conv.padding Conv.strides Conv.MPQ Conv.conv_K].
    rewrite (fold_left_if_sumA3 add_assoc add_comm add_0_l
      (fun m p q =>
         (0 <=? z - (m * str_d - pad_d)) && (z - (m * str_d - pad_d) <? T) &&
         (0 <=? y - (p * str_h - pad_h)) && (y - (p * str_h - pad_h) <? R) &&
         (0 <=? x - (q * str_w - pad_w)) && (x - (q * str_w - pad_w) <? S_))
      (fun m p q =>
         sumA ((fun k => mul (F5 cpuF T R S_ c (z - (m * str_d - pad_d))
                                (y - (p * str_h - pad_h)) (x - (q * str_w - pad_w)) k)
                             (E5 cpuE (M, P, Q) k m p q n)) <$> range K))).
    rewrite add_0_l, (sumA_mul_l mul_add_l mul_0_r).
    apply sumA_fmap_ext. intros [[m p] q] _. unfold Tm, h. cbn [fst snd].
    destruct (0 <=? z - (m * str_d - pad_d)), (z - (m * str_d - pad_d) <? T),
      (0 <=? y - (p * str_h - pad_h)), (y - (p * str_h - pad_h) <? R),
      (0 <=? x - (q * str_w - pad_w)), (x - (q * str_w - pad_w) <? S_); cbn [andb];
      first [ by rewrite mul_0_r, (sumA_fmap_zero add_0_l)
            | rewrite (sumA_mul_l mul_add_l mul_0_r); apply sumA_fmap_ext; intros k _;
              by rewrite mul_assoc, (mul_comm (I5 cpuI0 D H W c z y x n)) ]. }
  apply sumA_fmap_ext. intros c _.
  rewrite (sumA_first_in add_assoc add_comm add_0_l (fun sp n w k => Tm c sp n w k)).
  rewrite (sumA_reverse3 add_assoc add_comm add_0_l
             (fun n w k => sumA ((fun sp => Tm c sp n w k) <$> windows3 D H W))).
  apply sumA_fmap_ext. intros k _. apply sumA_fmap_ext. intros w _.
  apply sumA_fmap_ext. intros n _.
  rewrite HSP. unfold SPR.
  rewrite (sumA_windows3 add_assoc add_comm add_0_l). done.
Qed.

End ConvAdjointB.

Lemma conv_bprop_adjoint_witness :
  exists cpuO cpuB cpuU,
    Conv.conv_reference Examples.conv1 Examples.conv1_I Examples.conv1_F Examples.conv1_E =
      Some (cpuO, cpuB, cpuU) /\
    dot_OE Examples.conv1 cpuO Examples.conv1_E = dot_IB Examples.conv1 Examples.conv1_I cpuB.
Proof.
  exact (conv_bprop_adjoint Examples.conv1 Examples.conv1_I Examples.conv1_F
           Examples.conv1_E Z_add_assoc Z_add_comm Z_add_zero_l Z_mul_assoc Z_mul_comm
           Z_mul_add_l Z_mul_zero conv1_shapes conv1_I_shape conv1_F_shape conv1_E_shape).
Defined.

(** On the small layer the sum of I * B is 98 as well. *)
Example conv1_bprop_adjoint :
  dot_IB (A:=Z) Examples.conv1 Examples.conv1_I [[3; 2]; [2; 5]; [7; 5]] = 98.
Proof. vm_compute. reflexivity. Qed.
